(** * S_bot: the sniper control loop (detect, buy, monitor, exit)

    A shallow embedding of the TypeScript sources

    - [lib/sniper/swap-service.ts]      (module [SwapService]),
    - [lib/sniper/sniper-engine.ts]     (module [SniperEngine]),
    - [lib/sniper/price-monitor.ts]     (module [PriceMonitor]),
    - [lib/sniper/auto-sell-engine.ts]  (module [AutoSellEngine]),
    - [lib/sniper/portfolio-service.ts] (module [PortfolioService]),
    - [lib/blockchain/mint-watcher.ts]  (module [MintWatcher]),
    - [config/sniper.ts], [types/sniper.ts], [types/mint-events.ts].

    Conventions of the embedding.

    - A JavaScript [number] is an IEEE-754 binary64 value: Rocq's primitive
      [float], whose operations are the same ones.  A [bigint] is a [Z].
    - A [Map<string, V>] is a [gmap string V]; a JavaScript object held in a
      map and mutated through a second reference is modelled by updating the
      map entry it lives in (the reference is the key).
    - An awaited call on the chain (router, wallet, provider) is answered by
      an oracle, the record [Chain]; a thrown [Error] is [Throw msg].
    - [Date.now()] is an explicit argument [now]. *)

From Stdlib Require Import ZArith Floats Lia Ascii.
From stdpp Require Import gmap strings list fin_maps pretty sorting.

Local Open Scope Z_scope.
#[local] Set Warnings "-inexact-float".

(** ** JavaScript values and built-ins *)

Module Js.

(** The outcome of a call that may throw. *)
Inductive result (A : Type) : Type :=
| Ok (a : A)
| Throw (msg : string).
Arguments Ok {A} a.
Arguments Throw {A} msg.

#[export] Instance result_ret : MRet result := fun A a => Ok a.
#[export] Instance result_bind : MBind result := fun A B f r =>
  match r with
  | Ok a => f a
  | Throw msg => Throw msg
  end.

Definition is_ok {A} (r : result A) : bool :=
  match r with Ok _ => true | Throw _ => false end.

(** [try { r } catch { h }] *)
Definition try_catch {A} (r : result A) (h : string -> A) : A :=
  match r with
  | Ok a => a
  | Throw msg => h msg
  end.

(** [String.prototype.toLowerCase], on the ASCII range (addresses are
    hexadecimal strings). *)
Definition toLowerAscii (c : ascii) : ascii :=
  let n := N_of_ascii c in
  if ((65 <=? n) && (n <=? 90))%N then ascii_of_N (n + 32) else c.

Fixpoint toLowerCase (s : string) : string :=
  match s with
  | EmptyString => EmptyString
  | String c s' => String (toLowerAscii c) (toLowerCase s')
  end.

(** Truthiness of an optional string ([undefined] and the empty string are
    falsy) and of an optional number ([undefined], [0], [-0] and [NaN] are
    falsy). *)
Definition truthy_string (s : option string) : option string :=
  match s with
  | Some EmptyString => None
  | _ => s
  end.

Definition truthy_number (x : option float) : option float :=
  match x with
  | Some v => if (is_nan v || is_zero v)%bool then None else Some v
  | None => None
  end.

(** [Math.floor] read on the exact value [±m·2^e] of a finite number;
    [Z.shiftl] by a negative amount is the flooring shift to the right. *)
Definition floor_SF (x : spec_float) : option Z :=
  match x with
  | S754_zero _ => Some 0
  | S754_finite s m e => Some (Z.shiftl (cond_Zopp s (Zpos m)) e)
  | S754_infinity _ | S754_nan => None
  end.

(** [BigInt(Math.floor(x))]: a [RangeError] for [NaN] and the infinities. *)
Definition BigInt_floor (x : float) : result Z :=
  match floor_SF (Prim2SF x) with
  | Some z => Ok z
  | None => Throw "RangeError: The number cannot be converted to a BigInt"
  end.

(** [Math.round]: the nearest integer, a tie going up; on the exact value
    this is the floor of [x + 1/2]. *)
Definition round_SF (x : spec_float) : option Z :=
  match x with
  | S754_zero _ => Some 0
  | S754_finite s m e =>
      let v := cond_Zopp s (Zpos m) in
      Some (if 0 <=? e then Z.shiftl v e
            else Z.shiftr (2 * v + Z.pow 2 (- e)) (- e + 1))
  | S754_infinity _ | S754_nan => None
  end.

(** [Number(b)] for a bigint [b]: the nearest binary64. *)
Definition Number_of_bigint (b : Z) : float :=
  SF2Prim (binary_normalize prec emax b 0 false).

(** The comparisons [x >= y] and [x <= y] of two numbers. *)
Definition ge (x y : float) : bool := (y <=? x)%float.
Definition le (x y : float) : bool := (x <=? y)%float.

(** The host functions between numbers and their decimal strings:
    [parseFloat] and [Number.prototype.toString].  They are not code of
    this repository; the embedding is parametric in them. *)
Class Host := {
  parseFloat : string -> float;
  Number_toString : float -> string;
}.

End Js.
Export Js.

(** ** Binary64 arithmetic behind [Math.floor(slippagePercent * 100)]

    The product of two numbers is the exact product rounded to the nearest
    binary64, ties to even ([SFmul] of the standard library).  The
    definitions below describe that rounding on integers; they serve the
    proof that the basis points do not go down when the slippage goes
    up. *)

Module Binary64.

(** The round and sticky bits after shifting [M] by [n >= 1] bits. *)
Definition round_bit (M n : Z) : bool := Z.odd (M / 2 ^ (n - 1)).
Definition sticky_bit (M n : Z) : bool := negb (M mod 2 ^ (n - 1) =? 0).

(** Round to nearest, ties to even: the mantissa [round_nearest_even]
    gives after a shift of [M] by [n >= 1] bits. *)
Definition rne (M n : Z) : Z :=
  round_nearest_even (M / 2 ^ n)
    (loc_of_shr_record
       {| shr_m := M / 2 ^ n; shr_r := round_bit M n;
          shr_s := sticky_bit M n |}).

(** The same in terms of the remainder [M mod 2^n] and the half [2^(n-1)]. *)
Definition rne_arith (M n : Z) : Z :=
  let q := M / 2 ^ n in
  let R := M mod 2 ^ n in
  let H := 2 ^ (n - 1) in
  if R <? H then q
  else if H <? R then q + 1
  else if Z.even q then q else q + 1.

(** The nearest binary64 to [u], counted in units small enough that the
    grid of the format is at least [2^c] of them: the grid at [u] keeps 53
    bits, or is the least one. *)
Definition grid (c u : Z) : Z := Z.max (Z.log2 u - 52) c.

Definition nearest (c u : Z) : Z := rne_arith u (grid c u) * 2 ^ grid c u.

(** The value of a number that is not negative, in units of [2^-1074]. *)
Definition units (x : spec_float) : Z :=
  match x with
  | S754_finite false m e => Zpos m * 2 ^ (e + 1074)
  | _ => 0
  end.

(** The mantissa of 100: [100 = m100 * 2^-46]. *)
Definition m100 : positive := 7036874417766400.

(** A number that is zero or finite and positive. *)
Definition nonneg_finite (x : spec_float) : Prop :=
  match x with
  | S754_zero _ | S754_finite false _ _ => True
  | _ => False
  end.

(** [Math.floor (s * 100)] from the value of [s] in units. *)
Definition floor_times_100 (x : Z) : Z :=
  if x =? 0 then 0 else nearest 46 (x * Zpos m100) / 2 ^ 1120.

(** The largest binary64 below 100, in units. *)
Definition units_below_100 : Z := (Zpos m100 - 1) * 2 ^ 1028.

End Binary64.

(** ** Data model ([types/sniper.ts], [types/mint-events.ts]) *)

Module Config.

Record t := {
  autoBuyEnabled : bool;
  buyAmountPLS : string;
  slippagePercent : float;
  gasLimitMultiplier : float;
  gasPriceGwei : option string;
  autoSellEnabled : bool;
  takeProfitPercent : option float;
  stopLossPercent : option float;
  minBuyEnabled : bool;
  minBuyCount : option float;
}.

(** [Partial<SniperConfig>]: every key may be absent ([None]); an optional
    field that is present may still hold [undefined] ([Some None]). *)
Record partial := {
  p_autoBuyEnabled : option bool;
  p_buyAmountPLS : option string;
  p_slippagePercent : option float;
  p_gasLimitMultiplier : option float;
  p_gasPriceGwei : option (option string);
  p_autoSellEnabled : option bool;
  p_takeProfitPercent : option (option float);
  p_stopLossPercent : option (option float);
  p_minBuyEnabled : option bool;
  p_minBuyCount : option (option float);
}.

Definition empty_partial : partial :=
  {| p_autoBuyEnabled := None; p_buyAmountPLS := None;
     p_slippagePercent := None; p_gasLimitMultiplier := None;
     p_gasPriceGwei := None; p_autoSellEnabled := None;
     p_takeProfitPercent := None; p_stopLossPercent := None;
     p_minBuyEnabled := None; p_minBuyCount := None |}.

(** [{ ...c, ...u }] *)
Definition spread (c : t) (u : partial) : t :=
  {| autoBuyEnabled := default (autoBuyEnabled c) (p_autoBuyEnabled u);
     buyAmountPLS := default (buyAmountPLS c) (p_buyAmountPLS u);
     slippagePercent := default (slippagePercent c) (p_slippagePercent u);
     gasLimitMultiplier :=
       default (gasLimitMultiplier c) (p_gasLimitMultiplier u);
     gasPriceGwei := default (gasPriceGwei c) (p_gasPriceGwei u);
     autoSellEnabled := default (autoSellEnabled c) (p_autoSellEnabled u);
     takeProfitPercent :=
       default (takeProfitPercent c) (p_takeProfitPercent u);
     stopLossPercent := default (stopLossPercent c) (p_stopLossPercent u);
     minBuyEnabled := default (minBuyEnabled c) (p_minBuyEnabled u);
     minBuyCount := default (minBuyCount c) (p_minBuyCount u) |}.

(** [DEFAULT_SNIPER_CONFIG] of [config/sniper.ts]. *)
Definition DEFAULT_SNIPER_CONFIG : t :=
  {| autoBuyEnabled := false;
     buyAmountPLS := "100";
     slippagePercent := 10%float;
     gasLimitMultiplier := 1.2%float;
     gasPriceGwei := None;
     autoSellEnabled := false;
     takeProfitPercent := Some 100%float;
     stopLossPercent := Some 50%float;
     minBuyEnabled := false;
     minBuyCount := Some 1%float |}.

(** The invariant the specification asks of a configuration:
    [slippagePercent ∈ [0,100)] and [gasLimitMultiplier ≥ 1]. *)
Definition ok (c : t) : bool :=
  Js.le 0 (slippagePercent c) && (slippagePercent c <? 100)%float
  && Js.ge (gasLimitMultiplier c) 1.

(** The same bounds on the fields an update carries. *)
Definition partial_ok (u : partial) : bool :=
  match p_slippagePercent u with
  | Some s => Js.le 0 s && (s <? 100)%float
  | None => true
  end
  && match p_gasLimitMultiplier u with
     | Some g => Js.ge g 1
     | None => true
     end.

(** [{ ...u1, ...u2 }] on two updates. *)
Definition merge (u1 u2 : partial) : partial :=
  {| p_autoBuyEnabled := p_autoBuyEnabled u2 ∪ p_autoBuyEnabled u1;
     p_buyAmountPLS := p_buyAmountPLS u2 ∪ p_buyAmountPLS u1;
     p_slippagePercent := p_slippagePercent u2 ∪ p_slippagePercent u1;
     p_gasLimitMultiplier :=
       p_gasLimitMultiplier u2 ∪ p_gasLimitMultiplier u1;
     p_gasPriceGwei := p_gasPriceGwei u2 ∪ p_gasPriceGwei u1;
     p_autoSellEnabled := p_autoSellEnabled u2 ∪ p_autoSellEnabled u1;
     p_takeProfitPercent := p_takeProfitPercent u2 ∪ p_takeProfitPercent u1;
     p_stopLossPercent := p_stopLossPercent u2 ∪ p_stopLossPercent u1;
     p_minBuyEnabled := p_minBuyEnabled u2 ∪ p_minBuyEnabled u1;
     p_minBuyCount := p_minBuyCount u2 ∪ p_minBuyCount u1 |}.

End Config.

Module Position.

Inductive status_t := holding | sold | failed.

Record t := {
  tokenAddress : string;
  tokenSymbol : string;
  tokenName : string;
  buyTransactionHash : string;
  buyTimestamp : Z;
  buyPricePLS : string;
  amountTokens : string;
  currentPricePLS : option string;
  profitLossPercent : option float;
  sellTransactionHash : option string;
  sellTimestamp : option Z;
  sellPricePLS : option string;
  status : status_t;
}.

#[global] Instance status_eq_dec : EqDecision status_t.
Proof. solve_decision. Defined.

End Position.

Module Order.

Inductive orderType_t := take_profit | stop_loss.
Inductive status_t := pending | executed | cancelled | failed.

Record t := {
  id : string;
  tokenAddress : string;
  orderType : orderType_t;
  targetPricePLS : string;
  amountTokens : string;
  slippagePercent : float;
  createdAt : Z;
  executedAt : option Z;
  transactionHash : option string;
  status : status_t;
}.

#[global] Instance orderType_eq_dec : EqDecision orderType_t.
Proof. solve_decision. Defined.
#[global] Instance status_eq_dec : EqDecision status_t.
Proof. solve_decision. Defined.

Definition set_status (s : status_t) (o : t) : t :=
  {| id := id o; tokenAddress := tokenAddress o; orderType := orderType o;
     targetPricePLS := targetPricePLS o; amountTokens := amountTokens o;
     slippagePercent := slippagePercent o; createdAt := createdAt o;
     executedAt := executedAt o; transactionHash := transactionHash o;
     status := s |}.

Definition set_executedAt (n : Z) (o : t) : t :=
  {| id := id o; tokenAddress := tokenAddress o; orderType := orderType o;
     targetPricePLS := targetPricePLS o; amountTokens := amountTokens o;
     slippagePercent := slippagePercent o; createdAt := createdAt o;
     executedAt := Some n; transactionHash := transactionHash o;
     status := status o |}.

Definition set_transactionHash (h : string) (o : t) : t :=
  {| id := id o; tokenAddress := tokenAddress o; orderType := orderType o;
     targetPricePLS := targetPricePLS o; amountTokens := amountTokens o;
     slippagePercent := slippagePercent o; createdAt := createdAt o;
     executedAt := executedAt o; transactionHash := Some h;
     status := status o |}.

End Order.

Module Snipe.

(** [SnipeResult] *)
Record t := {
  success : bool;
  tokenAddress : string;
  transactionHash : option string;
  amountSpentPLS : option string;
  amountReceived : option string;
  error : option string;
  timestamp : Z;
}.

End Snipe.

Module Mint.

(** [MintEvent] *)
Record t := {
  token : string;
  to : string;
  amount : string;
  blockNumber : Z;
  transactionHash : string;
  timestamp : Z;
  logIndex : Z;
}.

End Mint.

(** ** The chain seen from the bot *)

Module Tx.

Inductive method_t := swapExactETHForTokens | swapExactTokensForETH.

(** The router call a transaction encodes ([encodeFunctionData]). *)
Record call := {
  method : method_t;
  amountIn : Z;
  amountOutMin : Z;
  path : list string;
  recipient : string;
  deadline : Z;
}.

(** [ethers.TransactionRequest] *)
Record request := {
  to : string;
  data : call;
  value : option Z;
  gasLimit : Z;
  gasPrice : option Z;
}.

(** [ethers.TransactionReceipt]: only [status] is read ([1] is success). *)
Record receipt := { status : option Z }.

End Tx.

(** [TokenInfo] as far as the engine reads it. *)
Record TokenInfo := { ti_name : string; ti_symbol : string }.

(** The answers of the chain (and of the ethers unit helpers) to the awaited
    calls of the bot.  [getAmountsOut a p] is the entry [amounts[1]] of the
    router's answer. *)
Record Chain := {
  parseUnits : string -> Z -> result Z;
  formatEther : Z -> string;
  decimals : string -> result Z;
  getAmountsOut : Z -> list string -> result Z;
  estimateGas : Tx.call -> result Z;
  sendTransaction : Tx.request -> result string;
  waitForTransaction : string -> result (option Tx.receipt);
  allowance : string -> string -> string -> result Z;
  approve : string -> string -> result string;
  tokenBalance : string -> string -> result string;
  getTokenInfo : string -> result TokenInfo;
}.

(** [ERC20_ABI] of [config/pulsechain.ts]: the functions of a contract that
    is built from it.  (Its one event, [Transfer], is not a function.) *)
Definition ERC20_ABI : list string :=
  ["name"; "symbol"; "decimals"; "totalSupply"; "balanceOf"].

(** A call [contract.f(...)] on an [ethers.Contract] built from [abi], with
    [answer] what the chain would say.  A function the ABI does not list is
    undefined on the contract: calling it throws a [TypeError] and nothing
    is asked of the chain. *)
Definition Contract_call {A} (abi : list string) (contract f : string)
    (answer : result A) : result A :=
  if decide (f ∈ abi) then answer
  else Throw ("TypeError: " +:+ contract +:+ "." +:+ f
              +:+ " is not a function").

(** [PULSEX_CONFIG] of [config/sniper.ts]. *)
Module PULSEX_CONFIG.
Definition routerV2 : string := "0x98bf93ebf5c380C0e6Ae8e192A7e2AE08edAcc02".
Definition WPLS : string := "0xA1077a294dDE1B09bB078844df40758a5D0f9a27".
Definition deadlineBuffer : Z := 300.
End PULSEX_CONFIG.

Definition PUMP_TIRES_CONTRACT : string :=
  "0x6538A83a81d855B965983161AF6a83e616D16fD5".

(** ** [lib/sniper/wallet-service.ts] *)

Module WalletService.

(** The state of the service is its wallet, here the wallet's address. *)
Definition t := option string.

Definition sendTransaction (ch : Chain) (w : t) (tx : Tx.request)
  : result string :=
  match w with
  | None => Throw "Wallet not initialized"
  | Some _ => sendTransaction ch tx
  end.

Definition waitForTransaction (ch : Chain) (txHash : string)
  : result (option Tx.receipt) :=
  waitForTransaction ch txHash.

Definition getTokenBalance (ch : Chain) (w : t) (tokenAddress : string)
  : result string :=
  match w with
  | None => Throw "Wallet not initialized"
  | Some a => tokenBalance ch tokenAddress a
  end.

End WalletService.

(** ** [lib/sniper/swap-service.ts] *)

Module SwapService.

(** The router address the service was constructed with. *)
Record t := { routerAddress : string }.

(** The constructor throws without a wallet. *)
Definition new (w : WalletService.t) (router : option string) : result t :=
  match w with
  | None => Throw "Wallet not initialized"
  | Some _ =>
      Ok {| routerAddress :=
              default PULSEX_CONFIG.routerV2 (truthy_string router) |}
  end.

Definition gasPrice_of (ch : Chain) (customGasPriceGwei : option string)
  : result (option Z) :=
  match truthy_string customGasPriceGwei with
  | Some g => p ← parseUnits ch g 9; Ok (Some p)
  | None => Ok None
  end.

(** The transaction [buyTokenWithPLS] builds, up to the point where it is
    handed to the wallet. *)
Definition buyRequest (ch : Chain) (sv : t) (w : WalletService.t) (now : Z)
    (tokenAddress plsAmount : string) (slippagePercent : float)
    (gasLimitMultiplier : float) (customGasPriceGwei : option string)
  : result Tx.request :=
  match w with
  | None => Throw "Wallet not initialized"
  | Some wallet_address =>
      amountIn ← parseUnits ch plsAmount 18;
      let path := [PULSEX_CONFIG.WPLS; tokenAddress] in
      amountOutMin ← getAmountsOut ch amountIn path;
      slippageBigInt ← BigInt_floor (slippagePercent * 100)%float;
      let minAmountOut :=
        Z.quot (amountOutMin * (10000 - slippageBigInt)) 10000 in
      let deadline := now / 1000 + PULSEX_CONFIG.deadlineBuffer in
      let call :=
        {| Tx.method := Tx.swapExactETHForTokens;
           Tx.amountIn := amountIn;
           Tx.amountOutMin := minAmountOut;
           Tx.path := path;
           Tx.recipient := wallet_address;
           Tx.deadline := deadline |} in
      estimatedGas ← estimateGas ch call;
      gasLimit ←
        BigInt_floor (Number_of_bigint estimatedGas * gasLimitMultiplier)%float;
      gasPrice ← gasPrice_of ch customGasPriceGwei;
      Ok {| Tx.to := routerAddress sv;
            Tx.data := call;
            Tx.value := Some amountIn;
            Tx.gasLimit := gasLimit;
            Tx.gasPrice := gasPrice |}
  end.

Definition buyTokenWithPLS (ch : Chain) (sv : t) (w : WalletService.t)
    (now : Z) (tokenAddress plsAmount : string) (slippagePercent : float)
    (gasLimitMultiplier : float) (customGasPriceGwei : option string)
  : result string :=
  tx ← buyRequest ch sv w now tokenAddress plsAmount slippagePercent
         gasLimitMultiplier customGasPriceGwei;
  WalletService.sendTransaction ch w tx.

(** [approveTokenIfNeeded]: approve the maximum once the allowance is
    short.  Its [tokenContract] is built from [ERC20_ABI]. *)
Definition approveTokenIfNeeded (ch : Chain) (sv : t) (w : WalletService.t)
    (tokenAddress : string) (amount : Z) : result unit :=
  match w with
  | None => Throw "Wallet not initialized"
  | Some wallet_address =>
      a ← Contract_call ERC20_ABI "tokenContract" "allowance"
            (allowance ch tokenAddress wallet_address (routerAddress sv));
      if a <? amount
      then
        _ ← Contract_call ERC20_ABI "tokenContract" "approve"
              (approve ch tokenAddress (routerAddress sv));
        Ok tt
      else Ok tt
  end.

(** [sellTokenForPLS] up to its log of the expected output, before it asks
    for the approval: the amount to sell, the quote, and the minimum after
    slippage that it logs. *)
Definition sellExpected (ch : Chain) (w : WalletService.t)
    (tokenAddress tokenAmount : string) (slippagePercent : float)
  : result (Z * Z * Z) :=
  match w with
  | None => Throw "Wallet not initialized"
  | Some _ =>
      dec ← decimals ch tokenAddress;
      amountIn ← parseUnits ch tokenAmount dec;
      let path := [tokenAddress; PULSEX_CONFIG.WPLS] in
      amountOutMin ← getAmountsOut ch amountIn path;
      slippageBigInt ← BigInt_floor (slippagePercent * 100)%float;
      let minAmountOut :=
        Z.quot (amountOutMin * (10000 - slippageBigInt)) 10000 in
      Ok (amountIn, amountOutMin, minAmountOut)
  end.

Definition sellRequest (ch : Chain) (sv : t) (w : WalletService.t) (now : Z)
    (tokenAddress tokenAmount : string) (slippagePercent : float)
    (gasLimitMultiplier : float) (customGasPriceGwei : option string)
  : result Tx.request :=
  match w with
  | None => Throw "Wallet not initialized"
  | Some wallet_address =>
      dec ← decimals ch tokenAddress;
      amountIn ← parseUnits ch tokenAmount dec;
      let path := [tokenAddress; PULSEX_CONFIG.WPLS] in
      amountOutMin ← getAmountsOut ch amountIn path;
      slippageBigInt ← BigInt_floor (slippagePercent * 100)%float;
      let minAmountOut :=
        Z.quot (amountOutMin * (10000 - slippageBigInt)) 10000 in
      _ ← approveTokenIfNeeded ch sv w tokenAddress amountIn;
      let deadline := now / 1000 + PULSEX_CONFIG.deadlineBuffer in
      let call :=
        {| Tx.method := Tx.swapExactTokensForETH;
           Tx.amountIn := amountIn;
           Tx.amountOutMin := minAmountOut;
           Tx.path := path;
           Tx.recipient := wallet_address;
           Tx.deadline := deadline |} in
      estimatedGas ← estimateGas ch call;
      gasLimit ←
        BigInt_floor (Number_of_bigint estimatedGas * gasLimitMultiplier)%float;
      gasPrice ← gasPrice_of ch customGasPriceGwei;
      Ok {| Tx.to := routerAddress sv;
            Tx.data := call;
            Tx.value := None;
            Tx.gasLimit := gasLimit;
            Tx.gasPrice := gasPrice |}
  end.

Definition sellTokenForPLS (ch : Chain) (sv : t) (w : WalletService.t)
    (now : Z) (tokenAddress tokenAmount : string) (slippagePercent : float)
    (gasLimitMultiplier : float) (customGasPriceGwei : option string)
  : result string :=
  tx ← sellRequest ch sv w now tokenAddress tokenAmount slippagePercent
         gasLimitMultiplier customGasPriceGwei;
  WalletService.sendTransaction ch w tx.

(** The minimum output as the specification words it:
    [q * (10000 - round (s * 100)) / 10000]. *)
Definition minOut_rounded (q : Z) (s : float) : option Z :=
  bp ← round_SF (Prim2SF (s * 100)%float);
  Some (Z.quot (q * (10000 - bp)) 10000).

(** The minimum output as both swap paths compute it. *)
Definition minOut_floored (q : Z) (s : float) : option Z :=
  bp ← floor_SF (Prim2SF (s * 100)%float);
  Some (Z.quot (q * (10000 - bp)) 10000).

End SwapService.

(** ** [lib/sniper/sniper-engine.ts] *)

Module SniperEngine.

Record t := {
  walletService : WalletService.t;
  swapService : option SwapService.t;
  config : Config.t;
  isRunning : bool;
  positions : gmap string Position.t;
}.

(** What the engine hands to its two optional observers, [onSnipe] and
    [onPositionUpdate], in the order of the calls.  The observers are taken
    to return: the one [server.ts] registers only logs. *)
Inductive notice :=
| SnipeNotice (r : Snipe.t)
| PositionNotice (p : Position.t).

Definition new (cfg : Config.t) : t :=
  {| walletService := None; swapService := None; config := cfg;
     isRunning := false; positions := ∅ |}.

Definition set_positions (ps : gmap string Position.t) (e : t) : t :=
  {| walletService := walletService e; swapService := swapService e;
     config := config e; isRunning := isRunning e; positions := ps |}.

Definition set_config (cfg : Config.t) (e : t) : t :=
  {| walletService := walletService e; swapService := swapService e;
     config := cfg; isRunning := isRunning e; positions := positions e |}.

(** [initialize]: [wallet] is the address the private key gives, or the
    failure of [new ethers.Wallet]. *)
Definition initialize (wallet : result string) (e : t) : result t :=
  match wallet with
  | Throw _ => Throw "Invalid private key"
  | Ok a =>
      sv ← SwapService.new (Some a) None;
      Ok {| walletService := Some a; swapService := Some sv;
            config := config e; isRunning := isRunning e;
            positions := positions e |}
  end.

Definition start (e : t) : result t :=
  match walletService e with
  | None => Throw "Wallet not initialized. Call initialize() first."
  | Some _ =>
      Ok {| walletService := walletService e; swapService := swapService e;
            config := config e; isRunning := true;
            positions := positions e |}
  end.

Definition stop (e : t) : t :=
  {| walletService := walletService e; swapService := swapService e;
     config := config e; isRunning := false; positions := positions e |}.

(** A receipt confirms when it is there with status [1]. *)
Definition confirmed (r : option Tx.receipt) : bool :=
  match r with
  | Some rc => bool_decide (Tx.status rc = Some 1)
  | None => false
  end.

(** The [try] block of [executeSnipe]: the position to record and the
    result to report, or the error thrown on the way. *)
Definition snipe_attempt (ch : Chain) (e : t) (timestamp now_tx : Z)
    (tokenAddress : string) : result (Position.t * Snipe.t) :=
  match swapService e with
  | None => Throw "Swap service not initialized"
  | Some sv =>
      let tokenInfo :=
        match getTokenInfo ch tokenAddress with
        | Ok i => Some i
        | Throw _ => None
        end in
      txHash ← SwapService.buyTokenWithPLS ch sv (walletService e) now_tx
                 tokenAddress (Config.buyAmountPLS (config e))
                 (Config.slippagePercent (config e))
                 (Config.gasLimitMultiplier (config e))
                 (Config.gasPriceGwei (config e));
      receipt ← WalletService.waitForTransaction ch txHash;
      if negb (confirmed receipt) then Throw "Transaction failed" else
      tokenBalance ← WalletService.getTokenBalance ch (walletService e)
                       tokenAddress;
      let position :=
        {| Position.tokenAddress := tokenAddress;
           Position.tokenSymbol :=
             default "UNKNOWN" (truthy_string (ti_symbol <$> tokenInfo));
           Position.tokenName :=
             default "Unknown Token" (truthy_string (ti_name <$> tokenInfo));
           Position.buyTransactionHash := txHash;
           Position.buyTimestamp := timestamp;
           Position.buyPricePLS := Config.buyAmountPLS (config e);
           Position.amountTokens := tokenBalance;
           Position.currentPricePLS := None;
           Position.profitLossPercent := None;
           Position.sellTransactionHash := None;
           Position.sellTimestamp := None;
           Position.sellPricePLS := None;
           Position.status := Position.holding |} in
      let result :=
        {| Snipe.success := true;
           Snipe.tokenAddress := tokenAddress;
           Snipe.transactionHash := Some txHash;
           Snipe.amountSpentPLS := Some (Config.buyAmountPLS (config e));
           Snipe.amountReceived := Some tokenBalance;
           Snipe.error := None;
           Snipe.timestamp := timestamp |} in
      Ok (position, result)
  end.

(** The result [executeSnipe] returns from its [catch] block. *)
Definition failed_snipe (tokenAddress msg : string) (timestamp : Z)
  : Snipe.t :=
  {| Snipe.success := false;
     Snipe.tokenAddress := tokenAddress;
     Snipe.transactionHash := None;
     Snipe.amountSpentPLS := None;
     Snipe.amountReceived := None;
     Snipe.error := Some msg;
     Snipe.timestamp := timestamp |}.

(** [executeSnipe]: the new engine, the result returned, the notices. *)
Definition executeSnipe (ch : Chain) (e : t) (timestamp now_tx : Z)
    (tokenAddress : string) : t * Snipe.t * list notice :=
  match snipe_attempt ch e timestamp now_tx tokenAddress with
  | Ok (position, result) =>
      (set_positions (<[tokenAddress := position]> (positions e)) e,
       result,
       [PositionNotice position; SnipeNotice result])
  | Throw msg =>
      let result := failed_snipe tokenAddress msg timestamp in
      (e, result, [SnipeNotice result])
  end.

(** [handleMintEvent] *)
Definition handleMintEvent (ch : Chain) (e : t) (timestamp now_tx : Z)
    (mintEvent : Mint.t) : t * list notice :=
  if negb (String.eqb (toLowerCase (Mint.to mintEvent))
                      (toLowerCase PUMP_TIRES_CONTRACT)) then (e, [])
  else if negb (Config.autoBuyEnabled (config e)) || negb (isRunning e)
  then (e, [])
  else
    let '(e', _, ns) :=
      executeSnipe ch e timestamp now_tx (Mint.token mintEvent) in
    (e', ns).

(** The update [sellToken] makes to the position it sold. *)
Definition mark_sold (txHash : string) (now : Z) (p : Position.t)
  : Position.t :=
  {| Position.tokenAddress := Position.tokenAddress p;
     Position.tokenSymbol := Position.tokenSymbol p;
     Position.tokenName := Position.tokenName p;
     Position.buyTransactionHash := Position.buyTransactionHash p;
     Position.buyTimestamp := Position.buyTimestamp p;
     Position.buyPricePLS := Position.buyPricePLS p;
     Position.amountTokens := Position.amountTokens p;
     Position.currentPricePLS := Position.currentPricePLS p;
     Position.profitLossPercent := Position.profitLossPercent p;
     Position.sellTransactionHash := Some txHash;
     Position.sellTimestamp := Some now;
     Position.sellPricePLS := Position.sellPricePLS p;
     Position.status := Position.sold |}.

(** [amount || position?.amountTokens] *)
Definition amountToSell (amount : option string)
    (position : option Position.t) : option string :=
  match truthy_string amount with
  | Some a => Some a
  | None => truthy_string (Position.amountTokens <$> position)
  end.

(** [sellToken]: it throws and leaves the engine as it is, or returns the
    transaction (its hash) with the engine updated. *)
Definition sellToken (ch : Chain) (e : t) (now_tx now : Z)
    (tokenAddress : string) (amount : option string)
  : result (t * string * list notice) :=
  match swapService e with
  | None => Throw "Swap service not initialized"
  | Some sv =>
      let position := positions e !! tokenAddress in
      match amountToSell amount position with
      | None => Throw "No position found for token"
      | Some amountToSell =>
          txHash ← SwapService.sellTokenForPLS ch sv (walletService e) now_tx
                     tokenAddress amountToSell
                     (Config.slippagePercent (config e))
                     (Config.gasLimitMultiplier (config e))
                     (Config.gasPriceGwei (config e));
          receipt ← WalletService.waitForTransaction ch txHash;
          match position with
          | Some p =>
              if confirmed receipt then
                let p' := mark_sold txHash now p in
                Ok (set_positions (<[tokenAddress := p']> (positions e)) e,
                    txHash, [PositionNotice p'])
              else Ok (e, txHash, [])
          | None => Ok (e, txHash, [])
          end
      end
  end.

(** [updateConfig] *)
Definition updateConfig (u : Config.partial) (e : t) : t :=
  set_config (Config.spread (config e) u) e.

Definition getConfig (e : t) : Config.t := config e.

Definition getPosition (e : t) (tokenAddress : string) : option Position.t :=
  positions e !! tokenAddress.

(** The stages of [executeSnipe] after the metadata lookup, each with the
    way it fails and the error it raises. *)
Inductive stage_fails (ch : Chain) (e : t) (now_tx : Z)
    (tokenAddress : string) : string -> Prop :=
| not_initialized :
    swapService e = None ->
    stage_fails ch e now_tx tokenAddress "Swap service not initialized"
| buy_fails sv msg :
    swapService e = Some sv ->
    SwapService.buyTokenWithPLS ch sv (walletService e) now_tx tokenAddress
      (Config.buyAmountPLS (config e)) (Config.slippagePercent (config e))
      (Config.gasLimitMultiplier (config e)) (Config.gasPriceGwei (config e))
    = Throw msg ->
    stage_fails ch e now_tx tokenAddress msg
| confirmation_fails sv txHash msg :
    swapService e = Some sv ->
    SwapService.buyTokenWithPLS ch sv (walletService e) now_tx tokenAddress
      (Config.buyAmountPLS (config e)) (Config.slippagePercent (config e))
      (Config.gasLimitMultiplier (config e)) (Config.gasPriceGwei (config e))
    = Ok txHash ->
    WalletService.waitForTransaction ch txHash = Throw msg ->
    stage_fails ch e now_tx tokenAddress msg
| receipt_fails sv txHash receipt :
    swapService e = Some sv ->
    SwapService.buyTokenWithPLS ch sv (walletService e) now_tx tokenAddress
      (Config.buyAmountPLS (config e)) (Config.slippagePercent (config e))
      (Config.gasLimitMultiplier (config e)) (Config.gasPriceGwei (config e))
    = Ok txHash ->
    WalletService.waitForTransaction ch txHash = Ok receipt ->
    confirmed receipt = false ->
    stage_fails ch e now_tx tokenAddress "Transaction failed"
| balance_fails sv txHash receipt msg :
    swapService e = Some sv ->
    SwapService.buyTokenWithPLS ch sv (walletService e) now_tx tokenAddress
      (Config.buyAmountPLS (config e)) (Config.slippagePercent (config e))
      (Config.gasLimitMultiplier (config e)) (Config.gasPriceGwei (config e))
    = Ok txHash ->
    WalletService.waitForTransaction ch txHash = Ok receipt ->
    confirmed receipt = true ->
    WalletService.getTokenBalance ch (walletService e) tokenAddress
    = Throw msg ->
    stage_fails ch e now_tx tokenAddress msg.

End SniperEngine.

(** ** [lib/sniper/portfolio-service.ts] *)

Module PortfolioService.

(** Positions keyed by the lower-cased token address. *)
Definition t := gmap string Position.t.

Definition addPosition (position : Position.t) (m : t) : t :=
  <[toLowerCase (Position.tokenAddress position) := position]> m.

Definition getPosition (m : t) (tokenAddress : string) : option Position.t :=
  m !! toLowerCase tokenAddress.

(** [updatePosition] with a whole position as the update: the spread
    [{ ...position, ...updates }] is then [updates]. *)
Definition updatePosition (tokenAddress : string) (updates : Position.t)
    (m : t) : t :=
  match m !! toLowerCase tokenAddress with
  | Some _ => <[toLowerCase tokenAddress := updates]> m
  | None => m
  end.

Definition removePosition (tokenAddress : string) (m : t) : t :=
  delete (toLowerCase tokenAddress) m.

End PortfolioService.

(** ** A JavaScript [Map] that is iterated: keys in insertion order *)

Module InsertionMap.

Section Ops.
Context {V : Type}.

Definition t := list (string * V).

Fixpoint get (k : string) (m : t) : option V :=
  match m with
  | [] => None
  | (k', v) :: m' => if decide (k = k') then Some v else get k m'
  end.

(** [set] keeps the place of a key that is already there. *)
Fixpoint set (k : string) (v : V) (m : t) : t :=
  match m with
  | [] => [(k, v)]
  | (k', v') :: m' =>
      if decide (k = k') then (k, v) :: m' else (k', v') :: set k v m'
  end.

Fixpoint delete (k : string) (m : t) : t :=
  match m with
  | [] => []
  | (k', v') :: m' =>
      if decide (k = k') then m' else (k', v') :: delete k m'
  end.

(** The effect of mutating, through a reference, the object stored at [k]. *)
Fixpoint mutate (k : string) (f : V -> V) (m : t) : t :=
  match m with
  | [] => []
  | (k', v') :: m' =>
      if decide (k = k') then (k', f v') :: m' else (k', v') :: mutate k f m'
  end.

Definition values (m : t) : list V := m.*2.
Definition keys (m : t) : list string := m.*1.

End Ops.
Arguments t : clear implicits.

End InsertionMap.

(** ** [lib/sniper/price-monitor.ts] *)

Module PriceMonitor.

Record PriceUpdate := {
  pu_tokenAddress : string;
  pu_pricePLS : string;
  pu_timestamp : Z;
  pu_reserveToken : string;
  pu_reservePLS : string;
}.

Record t := {
  monitoredTokens : list string;
  priceCache : gmap string PriceUpdate;
  limitOrders : InsertionMap.t Order.t;
  isRunning : bool;
}.

(** What [onLimitOrderTriggered]'s callback does, before it returns, to the
    order object it is handed. *)
Definition callback := Order.t -> string -> Order.t.

Definition new : t :=
  {| monitoredTokens := []; priceCache := ∅; limitOrders := [];
     isRunning := false |}.

Definition set_limitOrders (os : InsertionMap.t Order.t) (pm : t) : t :=
  {| monitoredTokens := monitoredTokens pm; priceCache := priceCache pm;
     limitOrders := os; isRunning := isRunning pm |}.

Definition addToken (tokenAddress : string) (pm : t) : t :=
  let a := toLowerCase tokenAddress in
  {| monitoredTokens :=
       if decide (a ∈ monitoredTokens pm) then monitoredTokens pm
       else monitoredTokens pm ++ [a];
     priceCache := priceCache pm; limitOrders := limitOrders pm;
     isRunning := isRunning pm |}.

Definition removeToken (tokenAddress : string) (pm : t) : t :=
  let a := toLowerCase tokenAddress in
  {| monitoredTokens := filter (fun x => x ≠ a) (monitoredTokens pm);
     priceCache := delete a (priceCache pm);
     limitOrders := limitOrders pm; isRunning := isRunning pm |}.

Definition addLimitOrder (order : Order.t) (pm : t) : t :=
  addToken (Order.tokenAddress order)
    (set_limitOrders
       (InsertionMap.set (Order.id order) order (limitOrders pm)) pm).

Definition removeLimitOrder (orderId : string) (pm : t) : t :=
  set_limitOrders (InsertionMap.delete orderId (limitOrders pm)) pm.

Definition getLimitOrders (pm : t) : list Order.t :=
  InsertionMap.values (limitOrders pm).

Definition getPendingLimitOrders (pm : t) : list Order.t :=
  filter (fun o => Order.status o = Order.pending) (getLimitOrders pm).

(** The [try] block of [getPrice]. *)
Definition quote (ch : Chain) (tokenAddress : string) : result string :=
  dec ← decimals ch tokenAddress;
  amountIn ← parseUnits ch "1" dec;
  out ← getAmountsOut ch amountIn [tokenAddress; PULSEX_CONFIG.WPLS];
  Ok (formatEther ch out).

Definition getPrice (ch : Chain) (tokenAddress : string) : string :=
  try_catch (quote ch tokenAddress) (fun _ => "0").

Section WithHost.
Context `{Host}.

Definition shouldTrigger (order : Order.t) (currentPrice : string) : bool :=
  let targetPrice := parseFloat (Order.targetPricePLS order) in
  let price := parseFloat currentPrice in
  match Order.orderType order with
  | Order.take_profit => Js.ge price targetPrice
  | Order.stop_loss => Js.le price targetPrice
  end.

(** The orders [checkLimitOrders] looks at: those of the token that are
    pending when it starts. *)
Definition candidates (pm : t) (tokenAddress : string) : list Order.t :=
  filter (fun o =>
            toLowerCase (Order.tokenAddress o) = toLowerCase tokenAddress
            ∧ Order.status o = Order.pending)
         (getLimitOrders pm).

(** A triggered order once the callback has been called with it and the
    monitor has set its [status] and [executedAt]. *)
Definition marked (cb : option callback) (currentPrice : string) (now : Z)
    (order : Order.t) : Order.t :=
  let seen :=
    match cb with
    | Some f => f order currentPrice
    | None => order
    end in
  Order.set_executedAt now (Order.set_status Order.executed seen).

(** One turn of the loop of [checkLimitOrders] on [order]. *)
Definition check_one (cb : option callback) (currentPrice : string) (now : Z)
    (acc : InsertionMap.t Order.t * list (Order.t * string))
    (order : Order.t) : InsertionMap.t Order.t * list (Order.t * string) :=
  if shouldTrigger order currentPrice then
    let o := marked cb currentPrice now order in
    (InsertionMap.set (Order.id o) o acc.1,
     acc.2 ++ [(order, currentPrice)])
  else acc.

(** [checkLimitOrders]: the monitor afterwards and the orders that fired,
    each with the price handed to the callback. *)
Definition checkLimitOrders (cb : option callback) (pm : t)
    (tokenAddress currentPrice : string) (now : Z)
  : t * list (Order.t * string) :=
  let r := foldl (check_one cb currentPrice now) (limitOrders pm, [])
                 (candidates pm tokenAddress) in
  (set_limitOrders r.1 pm, r.2).

(** The body of the loop of [checkPrices] for one token. *)
Definition check_token (ch : Chain) (cb : option callback) (now : Z)
    (acc : t * list (Order.t * string)) (tokenAddress : string)
  : t * list (Order.t * string) :=
  let pm := acc.1 in
  let price := getPrice ch tokenAddress in
  let update :=
    {| pu_tokenAddress := tokenAddress; pu_pricePLS := price;
       pu_timestamp := now; pu_reserveToken := "0"; pu_reservePLS := "0" |} in
  let pm1 :=
    {| monitoredTokens := monitoredTokens pm;
       priceCache := <[toLowerCase tokenAddress := update]> (priceCache pm);
       limitOrders := limitOrders pm; isRunning := isRunning pm |} in
  let r := checkLimitOrders cb pm1 tokenAddress price now in
  (r.1, acc.2 ++ r.2).

(** [checkPrices]: one pass over the monitored tokens. *)
Definition checkPrices (ch : Chain) (cb : option callback) (now : Z) (pm : t)
  : t * list (Order.t * string) :=
  foldl (check_token ch cb now) (pm, []) (monitoredTokens pm).

(** The passes that the timer set by [start] makes, one after the other:
    each against the chain as it answers then, with the callback registered
    then, at its time.  The orders handed to the callbacks, in the order of
    the calls. *)
Fixpoint passes (ps : list (Chain * option callback * Z)) (pm : t)
  : t * list (Order.t * string) :=
  match ps with
  | [] => (pm, [])
  | (ch, cb, now) :: ps' =>
      let r := checkPrices ch cb now pm in
      let r' := passes ps' r.1 in
      (r'.1, r.2 ++ r'.2)
  end.

End WithHost.

(** The orders are stored under their ids, one order for an id. *)
Definition orders_wf (os : InsertionMap.t Order.t) : Prop :=
  NoDup (InsertionMap.keys os)
  /\ Forall (fun kv : string * Order.t => kv.1 = Order.id kv.2) os.

(** The shape [addToken] and [addLimitOrder] keep the monitor in. *)
Definition wf (pm : t) : Prop :=
  orders_wf (limitOrders pm)
  /\ NoDup (monitoredTokens pm)
  /\ Forall (fun a => toLowerCase a = a) (monitoredTokens pm).

(** A callback that leaves the [id] of the order it is handed alone. *)
Definition keeps_id (cb : option callback) : Prop :=
  forall f, cb = Some f -> forall o p, Order.id (f o p) = Order.id o.

(** [getCachedPrice] *)
Definition getCachedPrice (pm : t) (tokenAddress : string)
  : option PriceUpdate :=
  priceCache pm !! toLowerCase tokenAddress.

(** The entry a pass of [checkPrices] at time [now] caches for a token. *)
Definition quoted (ch : Chain) (now : Z) (tokenAddress : string)
  : PriceUpdate :=
  {| pu_tokenAddress := tokenAddress;
     pu_pricePLS := getPrice ch tokenAddress;
     pu_timestamp := now; pu_reserveToken := "0"; pu_reservePLS := "0" |}.

End PriceMonitor.

(** ** [lib/sniper/auto-sell-engine.ts] *)

Module AutoSellEngine.

(** An [executeLimitOrder] suspended at [await sellToken(...)]: the order
    it was handed and the price of the tick. *)
Record sale := {
  s_order : Order.t;
  s_currentPrice : string;
}.

(** The engine with the three services it holds, and the sales in flight. *)
Record t := {
  sniperEngine : SniperEngine.t;
  priceMonitor : PriceMonitor.t;
  portfolioService : PortfolioService.t;
  isRunning : bool;
  inflight : list sale;
}.

Definition new (e : SniperEngine.t) (pm : PriceMonitor.t)
    (pf : PortfolioService.t) : t :=
  {| sniperEngine := e; priceMonitor := pm; portfolioService := pf;
     isRunning := false; inflight := [] |}.

Definition set_priceMonitor (pm : PriceMonitor.t) (a : t) : t :=
  {| sniperEngine := sniperEngine a; priceMonitor := pm;
     portfolioService := portfolioService a; isRunning := isRunning a;
     inflight := inflight a |}.

Definition orderType_string (ty : Order.orderType_t) : string :=
  match ty with
  | Order.take_profit => "take_profit"
  | Order.stop_loss => "stop_loss"
  end.

(** The id [createLimitOrder] gives an order. *)
Definition order_id (tokenAddress : string) (orderType : Order.orderType_t)
    (now : Z) : string :=
  tokenAddress +:+ "-" +:+ orderType_string orderType +:+ "-" +:+ pretty now.

(** [createLimitOrder]; the clock is read once for the order. *)
Definition createLimitOrder (a : t) (now : Z) (tokenAddress : string)
    (orderType : Order.orderType_t) (targetPricePLS : string)
    (amountTokens : option string) : result (t * Order.t) :=
  match PortfolioService.getPosition (portfolioService a) tokenAddress with
  | None => Throw "No position found for token"
  | Some position =>
      let order :=
        {| Order.id := order_id tokenAddress orderType now;
           Order.tokenAddress := tokenAddress;
           Order.orderType := orderType;
           Order.targetPricePLS := targetPricePLS;
           Order.amountTokens :=
             default (Position.amountTokens position)
                     (truthy_string amountTokens);
           Order.slippagePercent :=
             Config.slippagePercent
               (SniperEngine.getConfig (sniperEngine a));
           Order.createdAt := now;
           Order.executedAt := None;
           Order.transactionHash := None;
           Order.status := Order.pending |} in
      Ok (set_priceMonitor
            (PriceMonitor.addLimitOrder order (priceMonitor a)) a,
          order)
  end.

Definition cancelLimitOrder (orderId : string) (a : t) : t :=
  set_priceMonitor (PriceMonitor.removeLimitOrder orderId (priceMonitor a)) a.

Section WithHost.
Context `{Host}.

(** The two target prices of [createAutoLimitOrders]. *)
Definition takeProfitTarget (buyPrice percent : float) : float :=
  (buyPrice * (1 + percent / 100))%float.

Definition stopLossTarget (buyPrice percent : float) : float :=
  (buyPrice * (1 - percent / 100))%float.

(** [createAutoLimitOrders]; a throw of [createLimitOrder] leaves through
    it, and what was registered before stays registered. *)
Definition createAutoLimitOrders (a : t) (now : Z) (position : Position.t)
  : t * result unit :=
  let config := SniperEngine.getConfig (sniperEngine a) in
  if negb (Config.autoSellEnabled config) then (a, Ok tt) else
  let buyPrice := parseFloat (Position.buyPricePLS position) in
  let r1 :=
    match truthy_number (Config.takeProfitPercent config) with
    | Some percent =>
        match createLimitOrder a now (Position.tokenAddress position)
                Order.take_profit
                (Number_toString (takeProfitTarget buyPrice percent))
                (Some (Position.amountTokens position)) with
        | Ok (a1, _) => (a1, Ok tt)
        | Throw msg => (a, Throw msg)
        end
    | None => (a, Ok tt)
    end in
  match r1.2 with
  | Throw msg => (r1.1, Throw msg)
  | Ok _ =>
      match truthy_number (Config.stopLossPercent config) with
      | Some percent =>
          match createLimitOrder r1.1 now (Position.tokenAddress position)
                  Order.stop_loss
                  (Number_toString (stopLossTarget buyPrice percent))
                  (Some (Position.amountTokens position)) with
          | Ok (a2, _) => (a2, Ok tt)
          | Throw msg => (r1.1, Throw msg)
          end
      | None => (r1.1, Ok tt)
      end
  end.

(** [executeLimitOrder] up to its first [await]: without a position the
    [catch] block runs at once and marks the order failed. *)
Definition on_triggered (pf : PortfolioService.t) (now : Z)
  : PriceMonitor.callback := fun order _ =>
  match PortfolioService.getPosition pf (Order.tokenAddress order) with
  | None => Order.set_executedAt now (Order.set_status Order.failed order)
  | Some _ => order
  end.

(** The sales that the orders fired in a tick leave in flight. *)
Definition suspended (pf : PortfolioService.t)
    (fired : list (Order.t * string)) : list sale :=
  omap (fun oc : Order.t * string =>
          match PortfolioService.getPosition pf (Order.tokenAddress oc.1) with
          | Some _ => Some {| s_order := oc.1; s_currentPrice := oc.2 |}
          | None => None
          end) fired.

(** The realized profit or loss, in percent. *)
Definition realizedPL (buyPrice sellPrice : float) : float :=
  ((sellPrice - buyPrice) / buyPrice * 100)%float.

(** The update [executeLimitOrder] makes to the position after the sale. *)
Definition record_sale (currentPrice txHash : string) (now : Z)
    (p : Position.t) : Position.t :=
  {| Position.tokenAddress := Position.tokenAddress p;
     Position.tokenSymbol := Position.tokenSymbol p;
     Position.tokenName := Position.tokenName p;
     Position.buyTransactionHash := Position.buyTransactionHash p;
     Position.buyTimestamp := Position.buyTimestamp p;
     Position.buyPricePLS := Position.buyPricePLS p;
     Position.amountTokens := Position.amountTokens p;
     Position.currentPricePLS := Position.currentPricePLS p;
     Position.profitLossPercent :=
       Some (realizedPL (parseFloat (Position.buyPricePLS p))
                        (parseFloat currentPrice));
     Position.sellTransactionHash := Some txHash;
     Position.sellTimestamp := Some now;
     Position.sellPricePLS := Some currentPrice;
     Position.status := Position.sold |}.

(** [executeLimitOrder] from its [await] on: [sellToken] runs against the
    chain, then the order and the position are updated, or the [catch]
    block marks the order failed.  The order is the object the monitor
    holds under its id, the position the one the portfolio holds. *)
Definition settle (ch : Chain) (now_tx now : Z) (s : sale) (a : t) : t :=
  let order := s_order s in
  match SniperEngine.sellToken ch (sniperEngine a) now_tx now
          (Order.tokenAddress order) (Some (Order.amountTokens order)) with
  | Ok (e', txHash, _) =>
      let os :=
        InsertionMap.mutate (Order.id order)
          (fun o => Order.set_status Order.executed
                      (Order.set_executedAt now
                         (Order.set_transactionHash txHash o)))
          (PriceMonitor.limitOrders (priceMonitor a)) in
      let pf :=
        match PortfolioService.getPosition (portfolioService a)
                (Order.tokenAddress order) with
        | Some p =>
            PortfolioService.updatePosition (Order.tokenAddress order)
              (record_sale (s_currentPrice s) txHash now p)
              (portfolioService a)
        | None => portfolioService a
        end in
      {| sniperEngine := e';
         priceMonitor :=
           PriceMonitor.removeToken (Order.tokenAddress order)
             (PriceMonitor.set_limitOrders os (priceMonitor a));
         portfolioService := pf;
         isRunning := isRunning a;
         inflight := inflight a |}
  | Throw _ =>
      let os :=
        InsertionMap.mutate (Order.id order)
          (fun o => Order.set_executedAt now
                      (Order.set_status Order.failed o))
          (PriceMonitor.limitOrders (priceMonitor a)) in
      set_priceMonitor (PriceMonitor.set_limitOrders os (priceMonitor a)) a
  end.

(** What happens to the bot: the timer of the monitor fires and a pass over
    the prices is made, or the sale longest in flight hears from the
    chain. *)
Inductive event :=
| Tick (ch : Chain) (now : Z)
| Settle (ch : Chain) (now_tx now : Z).

Definition step (a : t) (ev : event) : t :=
  match ev with
  | Tick ch now =>
      let r :=
        PriceMonitor.checkPrices ch
          (Some (on_triggered (portfolioService a) now)) now
          (priceMonitor a) in
      {| sniperEngine := sniperEngine a;
         priceMonitor := r.1;
         portfolioService := portfolioService a;
         isRunning := isRunning a;
         inflight := inflight a ++ suspended (portfolioService a) r.2 |}
  | Settle ch now_tx now =>
      match inflight a with
      | [] => a
      | s :: rest =>
          settle ch now_tx now s
            {| sniperEngine := sniperEngine a;
               priceMonitor := priceMonitor a;
               portfolioService := portfolioService a;
               isRunning := isRunning a;
               inflight := rest |}
      end
  end.

Definition run (a : t) (evs : list event) : t := foldl step a evs.

End WithHost.

End AutoSellEngine.

(** ** [lib/blockchain/mint-watcher.ts] *)

Module MintWatcher.

(** A log as the provider returns it; [decoded] is the outcome of decoding
    [data] as a [uint256]. *)
Record Log := {
  address : string;
  topics : list string;
  data : string;
  decoded : result string;
  blockNumber : Z;
  transactionHash : string;
  index : Z;
}.

(** A block as [provider.getBlock] returns it.  [transactions] are the
    hashes of its transactions: [Block.transactions] of ethers v6 is an array
    of strings, also for a block fetched with its transactions. *)
Record Block := {
  number : Z;
  timestamp : Z;
  transactions : list string;
}.

(** An event of a token contract, as [queryFilter] returns it: [args]
    holds the recipient (the outcome of [ethers.getAddress] on it) and the
    amount when the log has its three arguments. *)
Record TransferEvent := {
  ev_args : option (result string * string);
  ev_blockNumber : Z;
  ev_transactionHash : string;
  ev_index : Z;
}.

(** The answers of the provider. *)
Record Provider := {
  getBlockNumber : result Z;
  getBlock : Z -> result (option Block);
  getLatestBlock : result (option Block);
  getLogs : Z -> list string -> result (list Log);
  queryFilter : string -> Z -> result (list TransferEvent);
}.

Definition ZERO_ADDRESS : string :=
  "0x0000000000000000000000000000000000000000".

(** [ethers.id('Transfer(address,address,uint256)')] *)
Definition TRANSFER_TOPIC : string :=
  "0xddf252ad1be2c89b69c2b068fc378daa952ba7f163c4a11628f55a4df523b3ef".

(** [ethers.zeroPadValue(a, 32)] for an address [a]. *)
Definition zeroPadValue32 (a : string) : string :=
  "0x000000000000000000000000" +:+ toLowerCase (String.substring 2 40 a).

Record t := {
  isWebSocket : bool;
  watchedAddress : string;
  isListening : bool;
  (** the tokens with an entry in [listeners] and [tokenContracts] *)
  listeners : list string;
  (** the tokens a [contract.on] listener is registered for, one entry for
      each registration *)
  subscriptions : list string;
  (** the polling timer, with the [lastCheckedBlock] of its closure *)
  pollInterval : option Z;
}.

Definition new (ws : bool) (watched : string) : t :=
  {| isWebSocket := ws; watchedAddress := watched; isListening := false;
     listeners := []; subscriptions := []; pollInterval := None |}.

(** [x || y] on numbers used as timestamps and block numbers. *)
Definition or_else (x : option Z) (y : Z) : Z :=
  match x with
  | Some v => if decide (v = 0) then y else v
  | None => y
  end.

Definition block_timestamp (b : option Block) (now : Z) : Z :=
  or_else (timestamp <$> b) (now / 1000).

(** The body of the loop of [getRecentMints] for one log; [None] when
    decoding or fetching the block throws. *)
Definition parse_log (p : Provider) (now : Z) (w : t) (log : Log)
  : option Mint.t :=
  match decoded log, getBlock p (blockNumber log) with
  | Ok amount, Ok block =>
      Some {| Mint.token := address log;
              Mint.to := watchedAddress w;
              Mint.amount := amount;
              Mint.blockNumber := blockNumber log;
              Mint.transactionHash := transactionHash log;
              Mint.timestamp := block_timestamp block now;
              Mint.logIndex := index log |}
  | _, _ => None
  end.

(** [mints.sort((a, b) => b.blockNumber - a.blockNumber)]: a stable sort,
    newest first. *)
Fixpoint insert_newest_first (x : Mint.t) (l : list Mint.t) : list Mint.t :=
  match l with
  | [] => [x]
  | y :: l' =>
      if Mint.blockNumber y <=? Mint.blockNumber x then x :: l
      else y :: insert_newest_first x l'
  end.

Fixpoint sort_newest_first (l : list Mint.t) : list Mint.t :=
  match l with
  | [] => []
  | x :: l' => insert_newest_first x (sort_newest_first l')
  end.

Definition mint_topics (w : t) : list string :=
  [TRANSFER_TOPIC; zeroPadValue32 ZERO_ADDRESS;
   zeroPadValue32 (watchedAddress w)].

(** The array [mints] of [getRecentMints] before it is sorted: the logs
    from [fromBlock] on that parse, in the order of the provider; none when
    the query throws. *)
Definition found (p : Provider) (now : Z) (w : t) (fromBlock : Z)
  : list Mint.t :=
  match getLogs p fromBlock (mint_topics w) with
  | Ok logs => omap (parse_log p now w) logs
  | Throw _ => []
  end.

(** [getRecentMints] *)
Definition getRecentMints (p : Provider) (now : Z) (w : t) (blockRange : Z)
  : result (list Mint.t) :=
  currentBlock ← getBlockNumber p;
  let fromBlock := Z.max 0 (currentBlock - blockRange) in
  Ok (sort_newest_first (found p now w fromBlock)).

(** [parseTransferEvent] *)
Definition parseTransferEvent (p : Provider) (now : Z) (ev : TransferEvent)
    (tokenAddress : string) : result Mint.t :=
  match ev_args ev with
  | None => Throw "Invalid Transfer event: missing arguments"
  | Some (to, amount) =>
      block ← getBlock p (ev_blockNumber ev);
      to ← to;
      Ok {| Mint.token := tokenAddress;
            Mint.to := to;
            Mint.amount := amount;
            Mint.blockNumber := ev_blockNumber ev;
            Mint.transactionHash := ev_transactionHash ev;
            Mint.timestamp := block_timestamp block now;
            Mint.logIndex := ev_index ev |}
  end.

(** The historical loop of [watchToken]: events are handed over in the
    order of the query until one fails to parse; the [catch] then ends the
    loop. *)
Fixpoint replay (p : Provider) (now : Z) (tokenAddress : string)
    (events : list TransferEvent) : list Mint.t :=
  match events with
  | [] => []
  | ev :: rest =>
      match ev_args ev with
      | None => replay p now tokenAddress rest
      | Some _ =>
          match parseTransferEvent p now ev tokenAddress with
          | Ok m => m :: replay p now tokenAddress rest
          | Throw _ => []
          end
      end
  end.

(** [watchToken]: the watcher afterwards and the events handed to the
    callback. *)
Definition watchToken (p : Provider) (now : Z) (w : t) (tokenAddress : string)
    (fromBlock : option Z) (includeHistorical : bool) : t * list Mint.t :=
  let delivered :=
    match includeHistorical, fromBlock with
    | true, Some b =>
        match queryFilter p tokenAddress b with
        | Ok events => replay p now tokenAddress events
        | Throw _ => []
        end
    | _, _ => []
    end in
  ({| isWebSocket := isWebSocket w;
      watchedAddress := watchedAddress w;
      isListening := isListening w;
      listeners :=
        if decide (tokenAddress ∈ listeners w) then listeners w
        else listeners w ++ [tokenAddress];
      subscriptions :=
        if isWebSocket w then subscriptions w ++ [tokenAddress]
        else subscriptions w;
      pollInterval := pollInterval w |},
   delivered).

(** [setupNetworkWideListener]: the timer starts with
    [lastCheckedBlock = 0]. *)
Definition setupNetworkWideListener (w : t) : t :=
  {| isWebSocket := isWebSocket w; watchedAddress := watchedAddress w;
     isListening := isListening w; listeners := listeners w;
     subscriptions := subscriptions w; pollInterval := Some 0 |}.

Definition set_isListening (b : bool) (w : t) : t :=
  {| isWebSocket := isWebSocket w; watchedAddress := watchedAddress w;
     isListening := b; listeners := listeners w;
     subscriptions := subscriptions w; pollInterval := pollInterval w |}.

(** The live half of [startListening]. *)
Definition go_live (p : Provider) (now : Z) (w : t)
    (tokenAddress : option string) : t :=
  match truthy_string tokenAddress with
  | Some token => (watchToken p now w token None false).1
  | None => setupNetworkWideListener w
  end.

(** [fromBlock || (await getBlockNumber()) - 1000] *)
Definition start_block (p : Provider) (fromBlock : option Z) : result Z :=
  match fromBlock with
  | Some b => if decide (b = 0) then n ← getBlockNumber p; Ok (n - 1000)
              else Ok b
  | None => n ← getBlockNumber p; Ok (n - 1000)
  end.

(** [startListening]: the watcher afterwards, the events handed to the
    callback before it returns, and whether it returned or threw. *)
Definition startListening (p : Provider) (now : Z) (w : t)
    (fromBlock : option Z) (includeHistorical : bool)
    (tokenAddress : option string) : t * list Mint.t * result unit :=
  if isListening w then (w, [], Ok tt) else
  let w1 := set_isListening true w in
  if negb includeHistorical then (go_live p now w1 tokenAddress, [], Ok tt)
  else
    match start_block p fromBlock with
    | Throw msg => (w1, [], Throw msg)
    | Ok startBlock =>
        match truthy_string tokenAddress with
        | Some token =>
            let r := watchToken p now w1 token (Some startBlock) true in
            (go_live p now r.1 tokenAddress, r.2, Ok tt)
        | None =>
            match getRecentMints p now w1 startBlock with
            | Throw msg => (w1, [], Throw msg)
            | Ok recentMints =>
                (go_live p now w1 tokenAddress, recentMints, Ok tt)
            end
        end
    end.

(** One registration of [a] taken out of [l]. *)
Fixpoint unsubscribe (a : string) (l : list string) : list string :=
  match l with
  | [] => []
  | b :: l' => if decide (a = b) then l' else b :: unsubscribe a l'
  end.

(** [stopListening].  [tokenContracts] holds, for a token, the contract of
    its last [watchToken] only, and each contract carries the listener of
    its own [watchToken]: [removeAllListeners] takes out one registration
    for each token of the map. *)
Definition stopListening (w : t) : t :=
  if negb (isListening w) then w else
  {| isWebSocket := isWebSocket w; watchedAddress := watchedAddress w;
     isListening := false; listeners := [];
     subscriptions := foldr unsubscribe (subscriptions w) (listeners w);
     pollInterval := None |}.

(** *** Live events *)

Definition is_mint_log (w : t) (log : Log) : bool :=
  match topics log with
  | t0 :: t1 :: t2 :: _ =>
      bool_decide (t0 = TRANSFER_TOPIC)
      && bool_decide (t1 = zeroPadValue32 ZERO_ADDRESS)
      && bool_decide (t2 = zeroPadValue32 (watchedAddress w))
  | _ => false
  end.

(** [typeof tx === 'object' && tx.logs] for a transaction of a block: the
    logs the loop of [checkNewBlocks] goes through.  A transaction of a
    block is its hash, a string, so the test fails and there are none. *)
Definition tx_logs (tx : string) : list Log := [].

(** The mints [checkNewBlocks] finds in one block. *)
Definition mints_of_block (p : Provider) (w : t) (blockNum : Z)
  : list Mint.t :=
  match getBlock p blockNum with
  | Ok (Some block) =>
      tx ← transactions block;
      log ← tx_logs tx;
      if is_mint_log w log then
        [{| Mint.token := address log;
            Mint.to := watchedAddress w;
            Mint.amount := try_catch (decoded log) (fun _ => data log);
            Mint.blockNumber := blockNum;
            Mint.transactionHash := tx;
            Mint.timestamp := timestamp block;
            Mint.logIndex := index log |}]
      else []
  | _ => []
  end.

(** [checkNewBlocks], one run of the polling timer. *)
Definition checkNewBlocks (p : Provider) (w : t) (lastCheckedBlock : Z)
  : Z * list Mint.t :=
  match getBlockNumber p with
  | Throw _ => (lastCheckedBlock, [])
  | Ok currentBlock =>
      let last :=
        if decide (lastCheckedBlock = 0) then currentBlock - 1
        else lastCheckedBlock in
      if last <? currentBlock then
        (currentBlock,
         blockNum ← seqZ (last + 1) (currentBlock - last);
         mints_of_block p w blockNum)
      else (last, [])
  end.

(** The parameters [(from, to, value, eventLog)] of the listener of
    [watchToken] as it is called: [la_to] is the outcome of
    [ethers.getAddress] on [to], [la_value] the digits of [value],
    [la_eventLog] the log; [None] where the parameter is undefined. *)
Record ListenerArgs := {
  la_to : option (result string);
  la_value : option string;
  la_eventLog : option TransferEvent;
}.

(** How [contract.on(filter, listener)] calls the listener for a log.  The
    [filter] of [watchToken] is a prepared topic filter,
    [tokenContract.filters.Transfer(ZERO_ADDRESS, watchedAddress)]: for such
    a filter ethers v6 does not decode the log and calls the listener with
    the event payload as its only argument.  So [from] is that payload and
    [to], [value] and [eventLog] are undefined. *)
Definition emitted (ev : TransferEvent) : ListenerArgs :=
  {| la_to := None; la_value := None; la_eventLog := None |}.

(** The listener [watchToken] registers with [contract.on]: what it hands
    to the callback.  [ethers.getAddress(to)] and [value.toString()] throw
    on what is undefined, and the [catch] of the listener only logs. *)
Definition on_transfer (p : Provider) (now : Z) (tokenAddress : string)
    (args : ListenerArgs) : list Mint.t :=
  match getLatestBlock p, la_to args, la_value args with
  | Ok block, Some (Ok to), Some amount =>
      let event := la_eventLog args in
      let n := or_else (ev_blockNumber <$> event)
                       (or_else (number <$> block) 0) in
      let ts := block_timestamp block now in
      let ts' :=
        if 0 <? n then
          match getBlock p n with
          | Ok (Some eventBlock) => timestamp eventBlock
          | _ => ts
          end
        else ts in
      [{| Mint.token := tokenAddress;
          Mint.to := to;
          Mint.amount := amount;
          Mint.blockNumber := n;
          Mint.transactionHash :=
            default "" (ev_transactionHash <$> event);
          Mint.timestamp := ts';
          Mint.logIndex := or_else (ev_index <$> event) 0 |}]
  | _, _, _ => []
  end.

(** What reaches a watcher from outside once it may be live: its polling
    timer runs, or a token contract emits a transfer to the watched
    address, a log that matches the filter of the listeners. *)
Inductive stimulus :=
| Poll (p : Provider)
| Transfer (p : Provider) (now : Z) (tokenAddress : string)
    (ev : TransferEvent).

(** The watcher afterwards and the events handed to the callback. *)
Definition live (w : t) (s : stimulus) : t * list Mint.t :=
  match s with
  | Poll p =>
      match pollInterval w with
      | Some last =>
          let r := checkNewBlocks p w last in
          ({| isWebSocket := isWebSocket w;
              watchedAddress := watchedAddress w;
              isListening := isListening w; listeners := listeners w;
              subscriptions := subscriptions w;
              pollInterval := Some r.1 |}, r.2)
      | None => (w, [])
      end
  | Transfer p now tokenAddress ev =>
      (w,
       token ← subscriptions w;
       if decide (token = tokenAddress)
       then on_transfer p now tokenAddress (emitted ev) else [])
  end.

Fixpoint live_all (w : t) (ss : list stimulus) : list Mint.t :=
  match ss with
  | [] => []
  | s :: ss' => let r := live w s in r.2 ++ live_all r.1 ss'
  end.

(** A watcher with nothing registered, as it is when constructed. *)
Definition idle (w : t) : Prop :=
  isListening w = false /\ subscriptions w = [] /\ pollInterval w = None.

(** Newest first: block numbers do not go up. *)
Definition newest_first (a b : Mint.t) : Prop :=
  Mint.blockNumber b <= Mint.blockNumber a.

(** Oldest first: block numbers do not go down. *)
Definition oldest_first (a b : Mint.t) : Prop :=
  Mint.blockNumber a <= Mint.blockNumber b.

End MintWatcher.

(** ** [lib/utils/async.ts] *)

Module Async.

(** [withRetry(fn, retries, baseDelayMs)], for a whole number of retries.
    The calls of [fn] are answered by [outcome]: call number [i], from 0,
    ends as [outcome i].  [left] is [retries - attempt], counted down.  The
    result comes with the delays waited between the calls, in
    milliseconds: [baseDelayMs * Math.pow(2, attempt)]. *)
Fixpoint retry {R} (outcome : nat -> result R) (baseDelayMs : float)
    (attempt left : nat) : result R * list float :=
  match outcome attempt with
  | Ok r => (Ok r, [])
  | Throw err =>
      match left with
      | O => (Throw err, [])
      | S left' =>
          let delay :=
            (baseDelayMs * Number_of_bigint (2 ^ Z.of_nat attempt))%float in
          let r := retry outcome baseDelayMs (S attempt) left' in
          (r.1, delay :: r.2)
      end
  end.

Definition withRetry {R} (outcome : nat -> result R) (retries : Z)
    (baseDelayMs : float) : result R * list float :=
  retry outcome baseDelayMs 0 (Z.to_nat retries).

End Async.

(** ** [BigInt] and the string methods [formatAmount] uses *)

Module JsBigInt.

(** [StrWhiteSpaceChar], within ASCII: tab, line feed, vertical tab, form
    feed, carriage return, space. *)
Definition is_white (c : ascii) : bool :=
  let n := N_of_ascii c in (((9 <=? n) && (n <=? 13)) || (n =? 32))%N.

Fixpoint trimStart (s : string) : string :=
  match s with
  | EmptyString => EmptyString
  | String c s' => if is_white c then trimStart s' else s
  end.

Fixpoint trimEnd (s : string) : string :=
  match s with
  | EmptyString => EmptyString
  | String c s' =>
      match trimEnd s' with
      | EmptyString => if is_white c then EmptyString else String c EmptyString
      | t => String c t
      end
  end.

Definition trim (s : string) : string := trimEnd (trimStart s).

(** The value of a digit in a base up to 36. *)
Definition digit (base : Z) (c : ascii) : option Z :=
  let n := Z.of_N (N_of_ascii c) in
  let v :=
    if (48 <=? n) && (n <=? 57) then Some (n - 48)
    else if (97 <=? n) && (n <=? 122) then Some (n - 87)
    else if (65 <=? n) && (n <=? 90) then Some (n - 55)
    else None in
  d ← v; if d <? base then Some d else None.

Fixpoint digits (base : Z) (s : string) (acc : Z) : option Z :=
  match s with
  | EmptyString => Some acc
  | String c s' => d ← digit base c; digits base s' (base * acc + d)
  end.

(** One digit at least. *)
Definition numeral (base : Z) (s : string) : option Z :=
  match s with
  | EmptyString => None
  | _ => digits base s 0
  end.

(** The base a prefix [0x], [0o], [0b] announces (either case). *)
Definition prefix_base (c : ascii) : option Z :=
  let n := N_of_ascii c in
  if ((n =? 120) || (n =? 88))%N then Some 16
  else if ((n =? 111) || (n =? 79))%N then Some 8
  else if ((n =? 98) || (n =? 66))%N then Some 2
  else None.

(** [StringToBigInt]: white space around is dropped; the empty text is 0;
    a decimal numeral may carry a sign; a numeral with a prefix may not. *)
Definition StringToBigInt (s : string) : option Z :=
  match trim s with
  | EmptyString => Some 0
  | String c rest as t =>
      let n := N_of_ascii c in
      if (n =? 43)%N then numeral 10 rest
      else if (n =? 45)%N then Z.opp <$> numeral 10 rest
      else
        match rest with
        | String c' rest' =>
            match (if (n =? 48)%N then prefix_base c' else None) with
            | Some base => numeral base rest'
            | None => numeral 10 t
            end
        | EmptyString => numeral 10 t
        end
  end.

(** [BigInt(s)] for a string. *)
Definition of_string (s : string) : result Z :=
  match StringToBigInt s with
  | Some z => Ok z
  | None => Throw "SyntaxError: Cannot convert to a BigInt"
  end.

(** [BigInt(x)] for a number: its value when it is an integer. *)
Definition of_number (x : float) : result Z :=
  match Prim2SF x with
  | S754_zero _ => Ok 0
  | S754_finite s m e =>
      if 0 <=? e then Ok (cond_Zopp s (Zpos m * 2 ^ e))
      else if Zpos m mod 2 ^ (- e) =? 0
           then Ok (cond_Zopp s (Zpos m / 2 ^ (- e)))
           else Throw "RangeError: The number is not an integer"
  | S754_infinity _ | S754_nan =>
      Throw "RangeError: The number is not an integer"
  end.

(** [a / b] and [a % b] on bigints: a zero divisor throws. *)
Definition divide (a b : Z) : result Z :=
  if b =? 0 then Throw "RangeError: Division by zero" else Ok (Z.quot a b).

Definition remainder (a b : Z) : result Z :=
  if b =? 0 then Throw "RangeError: Division by zero" else Ok (Z.rem a b).

(** [b.toString()] *)
Definition toString (b : Z) : string := pretty b.

(** [s.padStart(n, '0')] *)
Fixpoint zeros (n : nat) : string :=
  match n with
  | O => EmptyString
  | S n' => String (ascii_of_N 48) (zeros n')
  end.

Definition padStart (s : string) (n : Z) : string :=
  zeros (Z.to_nat n - String.length s) +:+ s.

(** [s.replace(/0+$/, '')] *)
Fixpoint strip_zeros (s : string) : string :=
  match s with
  | EmptyString => EmptyString
  | String c s' =>
      match strip_zeros s' with
      | EmptyString =>
          if (N_of_ascii c =? 48)%N then EmptyString else String c EmptyString
      | t => String c t
      end
  end.

(** [10 ** d] for a whole number [d].  The language leaves the precision
    of [**] to the implementation; the embedding is parametric in it. *)
Class Exponent := { pow10 : Z -> float }.

End JsBigInt.

(** ** [formatAmount] of [app/api/mints/route.ts] and
    [app/api/mints/stream/route.ts] *)

Module MintsRoute.
Import JsBigInt.

Section WithExponent.
Context `{Exponent}.

(** The [try] block of [formatAmount], for a whole number of decimals. *)
Definition format_attempt (amount : string) (decimals : Z) : result string :=
  num ← of_string amount;
  divisor ← of_number (pow10 decimals);
  whole ← divide num divisor;
  fraction ← remainder num divisor;
  if fraction =? 0 then Ok (toString whole)
  else
    let fractionStr := padStart (toString fraction) decimals in
    let trimmed := strip_zeros fractionStr in
    match trimmed with
    | EmptyString => Ok (toString whole)
    | _ => Ok (toString whole +:+ "." +:+ trimmed)
    end.

Definition formatAmount (amount : string) (decimals : Z) : string :=
  try_catch (format_attempt amount decimals) (fun _ => "0").

End WithExponent.

End MintsRoute.

(** ** Data for the examples *)

Module Examples.

(** A host that reads and prints non-negative whole numbers, as JavaScript
    does for them; the examples use no other numbers as strings. *)
Fixpoint digits (s : string) (acc : Z) : option Z :=
  match s with
  | EmptyString => Some acc
  | String c s' =>
      let n := Z.of_N (N_of_ascii c) in
      if (48 <=? n) && (n <=? 57) then digits s' (10 * acc + (n - 48))
      else None
  end.

Definition parseWhole (s : string) : float :=
  match s with
  | EmptyString => nan
  | _ =>
      match digits s 0 with
      | Some z => Number_of_bigint z
      | None => nan
      end
  end.

Definition printWhole (x : float) : string :=
  match floor_SF (Prim2SF x) with
  | Some z => pretty z
  | None => "NaN"
  end.

Definition whole_host : Host :=
  {| parseFloat := parseWhole; Number_toString := printWhole |}.

(** A chain that answers every call: a quote of [q] for any amount, a
    receipt with status [st] for any transaction. *)
Definition chain (q : Z) (st : Z) : Chain :=
  {| parseUnits := fun _ _ => Ok 1000;
     formatEther := fun z => pretty z;
     decimals := fun _ => Ok 18;
     getAmountsOut := fun _ _ => Ok q;
     estimateGas := fun _ => Ok 21000;
     sendTransaction := fun _ => Ok "0xtx";
     waitForTransaction := fun _ => Ok (Some {| Tx.status := Some st |});
     allowance := fun _ _ _ => Ok 0;
     approve := fun _ _ => Ok "0xapprove";
     tokenBalance := fun _ _ => Ok "5";
     getTokenInfo := fun _ => Ok {| ti_name := "Token"; ti_symbol := "TKN" |}
  |}.

(** A chain whose router has no quote. *)
Definition chain_without_quote : Chain :=
  {| parseUnits := fun _ _ => Ok 1000;
     formatEther := fun z => pretty z;
     decimals := fun _ => Ok 18;
     getAmountsOut := fun _ _ => Throw "execution reverted";
     estimateGas := fun _ => Ok 21000;
     sendTransaction := fun _ => Ok "0xtx";
     waitForTransaction := fun _ => Ok (Some {| Tx.status := Some 1 |});
     allowance := fun _ _ _ => Ok 0;
     approve := fun _ _ => Ok "0xapprove";
     tokenBalance := fun _ _ => Ok "5";
     getTokenInfo := fun _ => Ok {| ti_name := "Token"; ti_symbol := "TKN" |}
  |}.

(** A chain whose wallet rejects every transaction. *)
Definition chain_rejecting : Chain :=
  {| parseUnits := fun _ _ => Ok 1000;
     formatEther := fun z => pretty z;
     decimals := fun _ => Ok 18;
     getAmountsOut := fun _ _ => Ok 200;
     estimateGas := fun _ => Ok 21000;
     sendTransaction := fun _ => Throw "insufficient funds";
     waitForTransaction := fun _ => Ok (Some {| Tx.status := Some 1 |});
     allowance := fun _ _ _ => Ok 0;
     approve := fun _ _ => Ok "0xapprove";
     tokenBalance := fun _ _ => Ok "5";
     getTokenInfo := fun _ => Ok {| ti_name := "Token"; ti_symbol := "TKN" |}
  |}.

Definition token : string := "0xabc".

(** A provider at block 2000 whose history holds two mints to the watched
    address, at blocks 1500 and 1600, returned oldest first. *)
Definition mint_log (b : Z) : MintWatcher.Log :=
  {| MintWatcher.address := token;
     MintWatcher.topics := [];
     MintWatcher.data := "0x01";
     MintWatcher.decoded := Ok "1";
     MintWatcher.blockNumber := b;
     MintWatcher.transactionHash := "0xmint";
     MintWatcher.index := 0 |}.

Definition provider : MintWatcher.Provider :=
  {| MintWatcher.getBlockNumber := Ok 2000;
     MintWatcher.getBlock := fun n =>
       Ok (Some {| MintWatcher.number := n;
                   MintWatcher.timestamp := 1700000000 + n;
                   MintWatcher.transactions := ["0xmint"] |});
     MintWatcher.getLatestBlock :=
       Ok (Some {| MintWatcher.number := 2000;
                   MintWatcher.timestamp := 1700002000;
                   MintWatcher.transactions := ["0xmint"] |});
     MintWatcher.getLogs := fun _ _ => Ok [mint_log 1500; mint_log 1600];
     MintWatcher.queryFilter := fun _ _ => Ok [] |}.

Definition watcher : MintWatcher.t :=
  MintWatcher.new false PUMP_TIRES_CONTRACT.

(** An event of the history of [token]: a mint to the watched address in
    block [b]. *)
Definition transfer_event (b : Z) : MintWatcher.TransferEvent :=
  {| MintWatcher.ev_args := Some (Ok PUMP_TIRES_CONTRACT, "1");
     MintWatcher.ev_blockNumber := b;
     MintWatcher.ev_transactionHash := "0xmint";
     MintWatcher.ev_index := 0 |}.

(** A provider that answers the query for the history of a token with
    [events], and that cannot fetch block 1550. *)
Definition provider_with_history (events : list MintWatcher.TransferEvent)
  : MintWatcher.Provider :=
  {| MintWatcher.getBlockNumber := Ok 2000;
     MintWatcher.getBlock := fun n =>
       if n =? 1550 then Throw "timeout"
       else Ok (Some {| MintWatcher.number := n;
                        MintWatcher.timestamp := 1700000000 + n;
                        MintWatcher.transactions := ["0xmint"] |});
     MintWatcher.getLatestBlock :=
       Ok (Some {| MintWatcher.number := 2000;
                   MintWatcher.timestamp := 1700002000;
                   MintWatcher.transactions := ["0xmint"] |});
     MintWatcher.getLogs := fun _ _ => Ok [];
     MintWatcher.queryFilter := fun _ _ => Ok events |}.

(** The position a snipe of [token] for 100 PLS leaves. *)
Definition position : Position.t :=
  {| Position.tokenAddress := token;
     Position.tokenSymbol := "TKN";
     Position.tokenName := "Token";
     Position.buyTransactionHash := "0xbuy";
     Position.buyTimestamp := 0;
     Position.buyPricePLS := "100";
     Position.amountTokens := "5";
     Position.currentPricePLS := None;
     Position.profitLossPercent := None;
     Position.sellTransactionHash := None;
     Position.sellTimestamp := None;
     Position.sellPricePLS := None;
     Position.status := Position.holding |}.

Definition config : Config.t :=
  Config.spread Config.DEFAULT_SNIPER_CONFIG
    {| Config.p_autoBuyEnabled := None; Config.p_buyAmountPLS := None;
       Config.p_slippagePercent := None; Config.p_gasLimitMultiplier := None;
       Config.p_gasPriceGwei := None; Config.p_autoSellEnabled := Some true;
       Config.p_takeProfitPercent := None; Config.p_stopLossPercent := None;
       Config.p_minBuyEnabled := None; Config.p_minBuyCount := None |}.

(** An initialized engine that holds [position]. *)
Definition engine : SniperEngine.t :=
  {| SniperEngine.walletService := Some "0xwallet";
     SniperEngine.swapService :=
       Some {| SwapService.routerAddress := PULSEX_CONFIG.routerV2 |};
     SniperEngine.config := config;
     SniperEngine.isRunning := true;
     SniperEngine.positions := {[ token := position ]} |}.

(** The bot with [position] in the portfolio and no order yet. *)
Definition bot : AutoSellEngine.t :=
  AutoSellEngine.new engine PriceMonitor.new
    (PortfolioService.addPosition position ∅).

(** The bot once the automatic orders of [position] are registered. *)
Definition bot_with_orders : AutoSellEngine.t :=
  (AutoSellEngine.createAutoLimitOrders (H := whole_host) bot 7 position).1.

(** The same bot when the portfolio has lost the position. *)
Definition bot_without_position : AutoSellEngine.t :=
  {| AutoSellEngine.sniperEngine :=
       AutoSellEngine.sniperEngine bot_with_orders;
     AutoSellEngine.priceMonitor :=
       AutoSellEngine.priceMonitor bot_with_orders;
     AutoSellEngine.portfolioService := ∅;
     AutoSellEngine.isRunning := AutoSellEngine.isRunning bot_with_orders;
     AutoSellEngine.inflight := [] |}.

(** The status of the order with id [k] in the monitor of [a]. *)
Definition order_status (k : string) (a : AutoSellEngine.t)
  : option Order.status_t :=
  Order.status <$>
    InsertionMap.get k
      (PriceMonitor.limitOrders (AutoSellEngine.priceMonitor a)).

Definition take_profit_order : Order.t :=
  {| Order.id := "0xabc-take_profit-7";
     Order.tokenAddress := token;
     Order.orderType := Order.take_profit;
     Order.targetPricePLS := "200";
     Order.amountTokens := "5";
     Order.slippagePercent := 10%float;
     Order.createdAt := 7;
     Order.executedAt := None;
     Order.transactionHash := None;
     Order.status := Order.pending |}.

Definition stop_loss_order : Order.t :=
  {| Order.id := "0xabc-stop_loss-7";
     Order.tokenAddress := token;
     Order.orderType := Order.stop_loss;
     Order.targetPricePLS := "50";
     Order.amountTokens := "5";
     Order.slippagePercent := 10%float;
     Order.createdAt := 7;
     Order.executedAt := None;
     Order.transactionHash := None;
     Order.status := Order.pending |}.

(** A [**] that is exact where the power of ten is a binary64, and the
    nearest binary64 elsewhere. *)
Definition nearest_pow10 : JsBigInt.Exponent :=
  {| JsBigInt.pow10 := fun d => Number_of_bigint (10 ^ d) |}.

End Examples.

(** * Properties *)

(** ** Sanity of the example data *)

Example bot_with_orders_limitOrders :
  PriceMonitor.limitOrders (AutoSellEngine.priceMonitor Examples.bot_with_orders)
  = [(Order.id Examples.take_profit_order, Examples.take_profit_order);
     (Order.id Examples.stop_loss_order, Examples.stop_loss_order)].
Proof. vm_compute. reflexivity. Qed.

(** ** Numbers *)

Lemma Prim2SF_zero : Prim2SF 0%float = S754_zero false.
Proof. reflexivity. Qed.

(** A number above zero is not at or below it. *)
Lemma float_pos_not_le_zero (t : float) :
  (0 <? t)%float = true -> (t <=? 0)%float = false.
Proof.
  rewrite ltb_spec, leb_spec, Prim2SF_zero.
  unfold SFltb, SFleb.
  destruct (Prim2SF t) as [s|s| |s m e]; simpl; try discriminate;
    destruct s; simpl; congruence.
Qed.

(** ** Rounding to the nearest binary64 *)

Section Binary64Facts.
Import Binary64.

Lemma digits2_pos_bounds (p : positive) :
  2 ^ (Zpos (digits2_pos p) - 1) <= Zpos p < 2 ^ Zpos (digits2_pos p).
Proof.
  induction p as [p IH|p IH|]; cbn [digits2_pos].
  - rewrite Pos2Z.inj_succ, (Pos2Z.inj_xI p).
    replace (Z.succ (Zpos (digits2_pos p)) - 1)
      with (Z.succ (Zpos (digits2_pos p) - 1)) by lia.
    rewrite !Z.pow_succ_r by lia. lia.
  - rewrite Pos2Z.inj_succ, (Pos2Z.inj_xO p).
    replace (Z.succ (Zpos (digits2_pos p)) - 1)
      with (Z.succ (Zpos (digits2_pos p) - 1)) by lia.
    rewrite !Z.pow_succ_r by lia. lia.
  - simpl. lia.
Qed.

Lemma shr_1_nonneg (m : Z) (r s : bool) :
  0 <= m ->
  shr_1 {| shr_m := m; shr_r := r; shr_s := s |}
  = {| shr_m := m / 2; shr_r := Z.odd m; shr_s := r || s |}.
Proof.
  intros Hm. rewrite <- Z.div2_div.
  destruct m as [|[p|p|]|]; try reflexivity. lia.
Qed.

Lemma iter_pos_nat {A : Type} (f : A -> A) (p : positive) (x : A) :
  SpecFloat.iter_pos f p x = Nat.iter (Pos.to_nat p) f x.
Proof.
  revert x. induction p as [p IH|p IH|]; intros x; cbn [SpecFloat.iter_pos].
  - rewrite !IH, Pos2Nat.inj_xI.
    replace (2 * Pos.to_nat p)%nat with (Pos.to_nat p + Pos.to_nat p)%nat
      by lia.
    rewrite Nat.iter_succ_r, Nat.iter_add. reflexivity.
  - rewrite !IH, Pos2Nat.inj_xO.
    replace (2 * Pos.to_nat p)%nat with (Pos.to_nat p + Pos.to_nat p)%nat
      by lia.
    rewrite Nat.iter_add. reflexivity.
  - reflexivity.
Qed.

Lemma sticky_bit_succ (M n : Z) :
  0 <= M -> 1 <= n ->
  sticky_bit M (n + 1) = round_bit M n || sticky_bit M n.
Proof.
  intros HM Hn. unfold sticky_bit, round_bit.
  replace (n + 1 - 1) with (Z.succ (n - 1)) by lia.
  rewrite Z.pow_succ_r by lia.
  set (a := 2 ^ (n - 1)). assert (Ha : 0 < a) by (apply Z.pow_pos_nonneg; lia).
  rewrite (Z.mul_comm 2 a), Z.rem_mul_r by lia.
  pose proof (Z.mod_pos_bound M a Ha) as Hr.
  pose proof (Z.mod_pos_bound (M / a) 2 ltac:(lia)) as Hb.
  rewrite Zodd_mod.
  destruct (Z.eqb_spec (M mod a) 0) as [H0|H0];
    destruct (Z.eqb_spec ((M / a) mod 2) 1) as [H1|H1]; cbn [negb orb].
  - rewrite H0, H1. destruct (Z.eqb_spec (0 + a * 1) 0); [lia|reflexivity].
  - assert ((M / a) mod 2 = 0) as -> by lia. rewrite H0.
    destruct (Z.eqb_spec (0 + a * 0) 0); [reflexivity|lia].
  - rewrite H1. destruct (Z.eqb_spec (M mod a + a * 1) 0); [lia|reflexivity].
  - assert ((M / a) mod 2 = 0) as -> by lia.
    destruct (Z.eqb_spec (M mod a + a * 0) 0); [lia|reflexivity].
Qed.

Lemma shr_1_iter (M : Z) (k : nat) :
  0 <= M ->
  Nat.iter (S k) shr_1 {| shr_m := M; shr_r := false; shr_s := false |}
  = {| shr_m := M / 2 ^ (Z.of_nat k + 1);
       shr_r := round_bit M (Z.of_nat k + 1);
       shr_s := sticky_bit M (Z.of_nat k + 1) |}.
Proof.
  intros HM. induction k as [|k IH].
  - cbn [Nat.iter]. rewrite shr_1_nonneg by exact HM.
    unfold round_bit, sticky_bit. cbn. rewrite Z.div_1_r, Z.mod_1_r.
    reflexivity.
  - rewrite Nat.iter_succ, IH.
    rewrite shr_1_nonneg by (apply Z.div_pos; [lia|apply Z.pow_pos_nonneg; lia]).
    f_equal.
    + rewrite Z.div_div by (try apply Z.pow_pos_nonneg; lia).
      f_equal. rewrite Nat2Z.inj_succ.
      replace (Z.succ (Z.of_nat k) + 1) with (Z.succ (Z.of_nat k + 1)) by lia.
      rewrite Z.pow_succ_r by lia. ring.
    + unfold round_bit. do 3 f_equal. lia.
    + rewrite Nat2Z.inj_succ.
      replace (Z.succ (Z.of_nat k) + 1) with ((Z.of_nat k + 1) + 1) by lia.
      rewrite (sticky_bit_succ M (Z.of_nat k + 1)) by lia. reflexivity.
Qed.

(** [shr] by [n] bits from an exact location. *)
Lemma shr_exact (M e n : Z) :
  0 <= M -> 1 <= n ->
  shr {| shr_m := M; shr_r := false; shr_s := false |} e n
  = ({| shr_m := M / 2 ^ n; shr_r := round_bit M n; shr_s := sticky_bit M n |},
     e + n).
Proof.
  intros HM Hn. unfold shr. destruct n as [|p|p]; try lia.
  rewrite iter_pos_nat.
  destruct (Pos.to_nat p) as [|k] eqn:Hk; [lia|].
  rewrite shr_1_iter by exact HM.
  replace (Z.of_nat k + 1) with (Zpos p) by lia. reflexivity.
Qed.

Lemma rne_arith_eq (M n : Z) : 0 <= M -> 1 <= n -> rne M n = rne_arith M n.
Proof.
  intros HM Hn. unfold rne, rne_arith, round_bit, sticky_bit.
  assert (Hpow : 2 ^ n = 2 ^ (n - 1) * 2).
  { replace n with (Z.succ (n - 1)) at 1 by lia.
    rewrite Z.pow_succ_r by lia. ring. }
  rewrite Hpow.
  set (a := 2 ^ (n - 1)). assert (Ha : 0 < a) by (apply Z.pow_pos_nonneg; lia).
  rewrite Z.rem_mul_r by lia.
  pose proof (Z.mod_pos_bound M a Ha) as Hr.
  pose proof (Z.mod_pos_bound (M / a) 2 ltac:(lia)) as Hb.
  rewrite Zodd_mod.
  destruct (Z.eqb_spec ((M / a) mod 2) 1) as [H1|H1].
  - rewrite H1.
    destruct (Z.eqb_spec (M mod a) 0) as [H0|H0]; cbn [negb].
    + rewrite H0.
      destruct (Z.ltb_spec (0 + a * 1) a); [lia|].
      destruct (Z.ltb_spec a (0 + a * 1)); [lia|]. reflexivity.
    + destruct (Z.ltb_spec (M mod a + a * 1) a); [lia|].
      destruct (Z.ltb_spec a (M mod a + a * 1)); [|lia]. reflexivity.
  - assert ((M / a) mod 2 = 0) as -> by lia.
    destruct (Z.ltb_spec (M mod a + a * 0) a); [|lia].
    destruct (negb (M mod a =? 0)); reflexivity.
Qed.

Lemma rne_arith_bounds (M n : Z) :
  M / 2 ^ n <= rne_arith M n <= M / 2 ^ n + 1.
Proof.
  unfold rne_arith.
  destruct (_ <? _); [lia|]. destruct (_ <? _); [lia|].
  destruct (Z.even _); lia.
Qed.

Lemma rne_arith_mono (M1 M2 n : Z) :
  0 <= M1 <= M2 -> 1 <= n -> rne_arith M1 n <= rne_arith M2 n.
Proof.
  intros HM Hn.
  assert (HD : 0 < 2 ^ n) by (apply Z.pow_pos_nonneg; lia).
  pose proof (Z.div_le_mono M1 M2 (2 ^ n) HD ltac:(lia)) as Hq.
  destruct (Z.eq_dec (M1 / 2 ^ n) (M2 / 2 ^ n)) as [Heq|Hne].
  - assert (HR : M1 mod 2 ^ n <= M2 mod 2 ^ n).
    { rewrite !Z.mod_eq by lia. rewrite Heq. lia. }
    unfold rne_arith. rewrite Heq.
    destruct (Z.ltb_spec (M1 mod 2 ^ n) (2 ^ (n - 1)));
      destruct (Z.ltb_spec (M2 mod 2 ^ n) (2 ^ (n - 1)));
      destruct (Z.ltb_spec (2 ^ (n - 1)) (M1 mod 2 ^ n));
      destruct (Z.ltb_spec (2 ^ (n - 1)) (M2 mod 2 ^ n));
      destruct (Z.even (M2 / 2 ^ n)); lia.
  - pose proof (rne_arith_bounds M1 n). pose proof (rne_arith_bounds M2 n).
    lia.
Qed.

(** Shifting the mantissa and the amount together changes nothing. *)
Lemma rne_arith_scale (M n k : Z) :
  0 <= M -> 1 <= n -> 0 <= k ->
  rne_arith (M * 2 ^ k) (n + k) = rne_arith M n.
Proof.
  intros HM Hn Hk. unfold rne_arith.
  assert (HK : 0 < 2 ^ k) by (apply Z.pow_pos_nonneg; lia).
  assert (HN : 0 < 2 ^ n) by (apply Z.pow_pos_nonneg; lia).
  rewrite Z.pow_add_r by lia.
  rewrite Z.div_mul_cancel_r by lia.
  rewrite Z.mul_mod_distr_r by lia.
  replace (n + k - 1) with ((n - 1) + k) by lia.
  rewrite Z.pow_add_r by lia.
  set (R := M mod 2 ^ n). set (H := 2 ^ (n - 1)).
  destruct (Z.ltb_spec (R * 2 ^ k) (H * 2 ^ k));
    destruct (Z.ltb_spec R H);
    destruct (Z.ltb_spec (H * 2 ^ k) (R * 2 ^ k));
    destruct (Z.ltb_spec H R); try reflexivity; nia.
Qed.

Lemma rne_arith_exact (M k : Z) :
  0 <= M -> 1 <= k -> rne_arith (M * 2 ^ k) k = M.
Proof.
  intros HM Hk. unfold rne_arith.
  assert (HK : 0 < 2 ^ k) by (apply Z.pow_pos_nonneg; lia).
  assert (HH : 0 < 2 ^ (k - 1)) by (apply Z.pow_pos_nonneg; lia).
  rewrite Z.div_mul, Z.mod_mul by lia.
  destruct (Z.ltb_spec 0 (2 ^ (k - 1))); [reflexivity|lia].
Qed.

Lemma nearest_mono (c u1 u2 : Z) :
  1 <= c <= 52 -> 2 ^ 52 <= u1 <= u2 -> nearest c u1 <= nearest c u2.
Proof.
  intros Hc Hu. unfold nearest.
  assert (H52 : 0 < 2 ^ 52) by (apply Z.pow_pos_nonneg; lia).
  assert (HL1 : 52 <= Z.log2 u1) by (apply Z.log2_le_pow2; lia).
  pose proof (Z.log2_le_mono u1 u2 ltac:(lia)) as HL.
  pose proof (Z.log2_spec u1 ltac:(lia)) as [_ Hup1].
  pose proof (Z.log2_spec u2 ltac:(lia)) as [Hlo2 _].
  set (L1 := Z.log2 u1) in *. set (L2 := Z.log2 u2) in *.
  set (g1 := grid c u1). set (g2 := grid c u2).
  assert (Hg1 : g1 = Z.max (L1 - 52) c) by reflexivity.
  assert (Hg2 : g2 = Z.max (L2 - 52) c) by reflexivity.
  assert (HG1 : 0 < 2 ^ g1) by (apply Z.pow_pos_nonneg; lia).
  assert (HG2 : 0 < 2 ^ g2) by (apply Z.pow_pos_nonneg; lia).
  destruct (Z.eq_dec g1 g2) as [Heq|Hne].
  - rewrite <- Heq. apply Z.mul_le_mono_nonneg_r; [lia|].
    apply rne_arith_mono; lia.
  - assert (Hlt : L1 < L2) by lia. assert (Hg2' : g2 = L2 - 52) by lia.
    transitivity (2 ^ (L1 + 1)); [|transitivity (2 ^ L2)].
    + replace (L1 + 1) with ((L1 + 1 - g1) + g1) by lia.
      rewrite Z.pow_add_r by lia.
      apply Z.mul_le_mono_nonneg_r; [lia|].
      pose proof (rne_arith_bounds u1 g1) as [_ Hb].
      assert (u1 / 2 ^ g1 < 2 ^ (L1 + 1 - g1)); [|lia].
      apply Z.div_lt_upper_bound; [lia|].
      rewrite <- Z.pow_add_r by lia.
      replace (g1 + (L1 + 1 - g1)) with (Z.succ L1) by lia. exact Hup1.
    + apply Z.pow_le_mono_r; lia.
    + pose proof (rne_arith_bounds u2 g2) as [Hb _].
      transitivity (u2 / 2 ^ g2 * 2 ^ g2);
        [|apply Z.mul_le_mono_nonneg_r; lia].
      replace L2 with ((L2 - g2) + g2) at 1 by lia.
      rewrite Z.pow_add_r by lia.
      apply Z.mul_le_mono_nonneg_r; [lia|].
      apply Z.div_le_lower_bound; [lia|].
      rewrite <- Z.pow_add_r by lia.
      replace (g2 + (L2 - g2)) with L2 by lia. exact Hlo2.
Qed.

Lemma nearest_nonneg (c u : Z) : 1 <= c -> 0 <= u -> 0 <= nearest c u.
Proof.
  intros Hc Hu. unfold nearest.
  assert (0 < 2 ^ grid c u) by (apply Z.pow_pos_nonneg; unfold grid; lia).
  pose proof (rne_arith_bounds u (grid c u)) as [Hb _].
  assert (0 <= u / 2 ^ grid c u) by (apply Z.div_pos; lia).
  apply Z.mul_nonneg_nonneg; lia.
Qed.

Lemma digits2_pos_log2 (p : positive) :
  Zpos (digits2_pos p) = Z.log2 (Zpos p) + 1.
Proof.
  pose proof (digits2_pos_bounds p) as Hb.
  assert (Z.log2 (Zpos p) = Zpos (digits2_pos p) - 1); [|lia].
  apply Z.log2_unique; [lia|].
  replace (Z.succ (Zpos (digits2_pos p) - 1)) with (Zpos (digits2_pos p))
    by lia.
  exact Hb.
Qed.

Lemma fexp_binary64 (x : Z) : fexp prec emax x = Z.max (x - 53) (-1074).
Proof. reflexivity. Qed.

(** [shr_fexp] from an exact location, for a positive mantissa. *)
Lemma shr_fexp_exact (M : positive) (E : Z) :
  let G := Z.max (Z.log2 (Zpos M) + 1 + E - 53) (-1074) in
  shr_fexp prec emax (Zpos M) E loc_Exact
  = if G - E <=? 0
    then ({| shr_m := Zpos M; shr_r := false; shr_s := false |}, E)
    else ({| shr_m := Zpos M / 2 ^ (G - E);
             shr_r := round_bit (Zpos M) (G - E);
             shr_s := sticky_bit (Zpos M) (G - E) |}, G).
Proof.
  intros G. unfold shr_fexp. rewrite fexp_binary64.
  cbn [Zdigits2 shr_record_of_loc]. rewrite digits2_pos_log2. fold G.
  destruct (Z.leb_spec (G - E) 0) as [Hn|Hn].
  - unfold shr. destruct (G - E) as [|p|p]; try reflexivity. lia.
  - rewrite shr_exact by lia. f_equal. lia.
Qed.

(** The product [M * 2^E] of two binary64 numbers rounded by
    [binary_round_aux], when it is below one and not below the least
    positive number. *)
Lemma binary_round_aux_exact (M : positive) (E : Z) :
  let G := Z.max (Z.log2 (Zpos M) + 1 + E - 53) (-1074) in
  E <= G -> -1074 <= Z.log2 (Zpos M) + E -> G < 0 ->
  exists m e,
    binary_round_aux prec emax false (Zpos M) E loc_Exact
    = S754_finite false m e
    /\ G <= e <= G + 1
    /\ Zpos m * 2 ^ (e - G)
       = if G - E <=? 0 then Zpos M else rne_arith (Zpos M) (G - E).
Proof.
  intros G HE Hmin Hneg. unfold binary_round_aux.
  rewrite shr_fexp_exact. fold G.
  destruct (Z.leb_spec (G - E) 0) as [Hn|Hn].
  - assert (G = E) by lia.
    cbn [shr_m loc_of_shr_record round_nearest_even].
    rewrite shr_fexp_exact. fold G.
    destruct (Z.leb_spec (G - E) 0); [|lia]. cbn [shr_m].
    destruct (Z.leb_spec E (emax - prec)); [|unfold emax, prec in *; lia].
    exists M, E. split; [reflexivity|]. split; [lia|].
    replace (E - G) with 0 by lia. rewrite Z.pow_0_r. lia.
  - cbn [shr_m]. fold (rne (Zpos M) (G - E)).
    rewrite rne_arith_eq by lia.
    pose proof (rne_arith_bounds (Zpos M) (G - E)) as [Hlo Hhi].
    pose proof (Z.log2_spec (Zpos M) ltac:(lia)) as [HMlo HMhi].
    set (L := Z.log2 (Zpos M)) in *. set (n := G - E) in *.
    assert (HN : 0 < 2 ^ n) by (apply Z.pow_pos_nonneg; lia).
    assert (Hq1 : 1 <= Zpos M / 2 ^ n).
    { apply Z.div_le_lower_bound; [lia|]. rewrite Z.mul_1_r.
      transitivity (2 ^ L); [apply Z.pow_le_mono_r; lia|exact HMlo]. }
    assert (Hq2 : Zpos M / 2 ^ n < 2 ^ 53).
    { apply Z.div_lt_upper_bound; [lia|].
      rewrite <- Z.pow_add_r by lia.
      eapply Z.lt_le_trans; [exact HMhi|]. apply Z.pow_le_mono_r; lia. }
    destruct (rne_arith (Zpos M) n) as [|p2|p2] eqn:Hp2; try lia.
    rewrite shr_fexp_exact.
    set (G2 := Z.max (Z.log2 (Zpos p2) + 1 + G - 53) (-1074)).
    pose proof (Z.log2_spec (Zpos p2) ltac:(lia)) as [Hp2lo Hp2hi].
    destruct (Z.leb_spec (G2 - G) 0) as [Hn2|Hn2].
    + cbn [shr_m].
      destruct (Z.leb_spec G (emax - prec)); [|unfold emax, prec in *; lia].
      exists p2, G. split; [reflexivity|]. split; [lia|].
      replace (G - G) with 0 by lia. rewrite Z.pow_0_r. lia.
    + assert (HL2 : 53 <= Z.log2 (Zpos p2)) by lia.
      assert (Hp2eq : Zpos p2 = 2 ^ 53).
      { apply Z.le_antisymm; [lia|].
        transitivity (2 ^ Z.log2 (Zpos p2)); [|exact Hp2lo].
        apply Z.pow_le_mono_r; lia. }
      assert (HG2 : G2 - G = 1).
      { unfold G2. rewrite Hp2eq, Z.log2_pow2 by lia. lia. }
      rewrite HG2, Hp2eq. cbn [shr_m].
      change (2 ^ 53 / 2 ^ 1) with (Zpos (2 ^ 52)).
      replace G2 with (G + 1) by lia.
      destruct (Z.leb_spec (G + 1) (emax - prec));
        [|unfold emax, prec in *; lia].
      exists (2 ^ 52)%positive, (G + 1). split; [reflexivity|].
      split; [lia|]. replace (G + 1 - G) with 1 by lia. reflexivity.
Qed.

Lemma Prim2SF_100 : Prim2SF 100%float = S754_finite false m100 (-46).
Proof. reflexivity. Qed.

Lemma valid_finite (s : bool) (m : positive) (e : Z) :
  valid_binary (S754_finite s m e) = true ->
  -1074 <= e <= 971
  /\ Z.log2 (Zpos m) <= 52
  /\ (e = -1074 \/ Z.log2 (Zpos m) = 52).
Proof.
  cbn [SpecFloat.valid_binary]. unfold bounded, canonical_mantissa.
  rewrite fexp_binary64, digits2_pos_log2.
  intros [Hc He]%andb_prop.
  apply Z.eqb_eq in Hc. apply Z.leb_le in He. unfold emax, prec in He. lia.
Qed.

Lemma units_finite_pos (m : positive) (e : Z) :
  -1074 <= e -> 1 <= units (S754_finite false m e).
Proof.
  intros He. cbn [units].
  assert (0 < 2 ^ (e + 1074)) by (apply Z.pow_pos_nonneg; lia). nia.
Qed.

Lemma units_nonneg (x : spec_float) : 0 <= units x.
Proof.
  destruct x as [| | |[] m e]; cbn [units]; try lia.
  all: assert (0 <= 2 ^ (e + 1074)) by (apply Z.pow_nonneg; lia); nia.
Qed.

(** On valid numbers the order of [SFcompare] is the order of the values. *)
Lemma SFcompare_units (m1 m2 : positive) (e1 e2 : Z) :
  valid_binary (S754_finite false m1 e1) = true ->
  valid_binary (S754_finite false m2 e2) = true ->
  match SFcompare (S754_finite false m1 e1) (S754_finite false m2 e2) with
  | Some Lt => Zpos m1 * 2 ^ (e1 + 1074) < Zpos m2 * 2 ^ (e2 + 1074)
  | Some Eq => Zpos m1 * 2 ^ (e1 + 1074) = Zpos m2 * 2 ^ (e2 + 1074)
  | Some Gt => Zpos m2 * 2 ^ (e2 + 1074) < Zpos m1 * 2 ^ (e1 + 1074)
  | None => False
  end.
Proof.
  intros (He1 & Hd1 & Hn1)%valid_finite (He2 & Hd2 & Hn2)%valid_finite.
  pose proof (Z.log2_spec (Zpos m1) ltac:(lia)) as [Hlo1 Hhi1].
  pose proof (Z.log2_spec (Zpos m2) ltac:(lia)) as [Hlo2 Hhi2].
  assert (Hup1 : Zpos m1 < 2 ^ 53).
  { eapply Z.lt_le_trans; [exact Hhi1|]. apply Z.pow_le_mono_r; lia. }
  assert (Hup2 : Zpos m2 < 2 ^ 53).
  { eapply Z.lt_le_trans; [exact Hhi2|]. apply Z.pow_le_mono_r; lia. }
  cbn [SFcompare]. destruct (Z.compare_spec e1 e2) as [Heq|Hlt|Hgt].
  - subst e2. rewrite Pos.compare_cont_spec. cbn [Pos.switch_Eq].
    assert (0 < 2 ^ (e1 + 1074)) by (apply Z.pow_pos_nonneg; lia).
    destruct (Pos.compare_spec m1 m2) as [->|Hm|Hm];
      [reflexivity|apply Z.mul_lt_mono_pos_r; lia..].
  - assert (Hm2 : 2 ^ 52 <= Zpos m2).
    { destruct Hn2 as [?|Hl]; [lia|]. rewrite <- Hl. exact Hlo2. }
    assert (Hp : 2 * 2 ^ (e1 + 1074) <= 2 ^ (e2 + 1074)).
    { rewrite <- Z.pow_succ_r by lia. apply Z.pow_le_mono_r; lia. }
    assert (0 < 2 ^ (e1 + 1074)) by (apply Z.pow_pos_nonneg; lia).
    change (2 ^ 53) with (2 * 2 ^ 52) in Hup1. nia.
  - assert (Hm1 : 2 ^ 52 <= Zpos m1).
    { destruct Hn1 as [?|Hl]; [lia|]. rewrite <- Hl. exact Hlo1. }
    assert (Hp : 2 * 2 ^ (e2 + 1074) <= 2 ^ (e1 + 1074)).
    { rewrite <- Z.pow_succ_r by lia. apply Z.pow_le_mono_r; lia. }
    assert (0 < 2 ^ (e2 + 1074)) by (apply Z.pow_pos_nonneg; lia).
    change (2 ^ 53) with (2 * 2 ^ 52) in Hup2. nia.
Qed.

Lemma log2_m100 : Z.log2 (Zpos m100) = 52.
Proof. reflexivity. Qed.

Lemma floor_mul_100 (m : positive) (e : Z) :
  valid_binary (S754_finite false m e) = true ->
  Z.log2 (Zpos m) + e <= 6 ->
  floor_SF (SFmul prec emax (S754_finite false m e)
              (S754_finite false m100 (-46)))
  = Some (floor_times_100 (units (S754_finite false m e))).
Proof.
  intros (He & Hd & Hn)%valid_finite Hlt.
  cbn [SFmul xorb].
  pose proof (Z.log2_mul_below (Zpos m) (Zpos m100) ltac:(lia) ltac:(lia))
    as Hbelow.
  pose proof (Z.log2_mul_above (Zpos m) (Zpos m100) ltac:(lia) ltac:(lia))
    as Habove.
  pose proof (Z.log2_nonneg (Zpos m)) as Hl0.
  rewrite log2_m100, <- Pos2Z.inj_mul in Hbelow, Habove.
  destruct (binary_round_aux_exact (m * m100) (e + -46))
    as (m' & e' & Hbra & He' & Hval); try lia.
  rewrite Hbra. cbn [floor_SF cond_Zopp]. f_equal.
  unfold floor_times_100.
  pose proof (units_finite_pos m e ltac:(lia)) as Hu.
  destruct (Z.eqb_spec (units (S754_finite false m e)) 0) as [|_]; [lia|].
  cbn [units].
  set (M := Zpos (m * m100)) in *.
  set (G := Z.max (Z.log2 M + 1 + (e + -46) - 53) (-1074)) in *.
  replace (Zpos m * 2 ^ (e + 1074) * Zpos m100) with (M * 2 ^ (e + 1074))
    by (unfold M; rewrite Pos2Z.inj_mul; ring).
  unfold nearest, grid.
  rewrite Z.log2_mul_pow2 by lia.
  replace (Z.max (e + 1074 + Z.log2 M - 52) 46) with (G + 1120) by lia.
  assert (Hr : rne_arith (M * 2 ^ (e + 1074)) (G + 1120)
               = Zpos m' * 2 ^ (e' - G)).
  { rewrite Hval. destruct (Z.leb_spec (G - (e + -46)) 0) as [Hn0|Hn1].
    - replace (G + 1120) with (e + 1074) by lia.
      apply rne_arith_exact; lia.
    - replace (G + 1120) with ((G - (e + -46)) + (e + 1074)) by lia.
      apply rne_arith_scale; lia. }
  rewrite Hr, <- Z.mul_assoc, <- Z.pow_add_r by lia.
  replace (e' - G + (G + 1120)) with (e' + 1120) by lia.
  rewrite Z.shiftl_div_pow2 by lia.
  replace 1120 with (- e' + (e' + 1120)) at 2 by lia.
  rewrite (Z.pow_add_r 2 (- e') (e' + 1120)) by lia.
  rewrite Z.div_mul_cancel_r; [reflexivity| |];
    apply Z.pow_nonzero; lia.
Qed.

Lemma floor_times_100_mono (x1 x2 : Z) :
  0 <= x1 <= x2 -> floor_times_100 x1 <= floor_times_100 x2.
Proof.
  intros Hx. unfold floor_times_100.
  assert (H0 : 0 < 2 ^ 1120) by (apply Z.pow_pos_nonneg; lia).
  assert (Hm : 2 ^ 52 <= Zpos m100) by (vm_compute; discriminate).
  destruct (Z.eqb_spec x1 0) as [->|Hx1]; destruct (Z.eqb_spec x2 0) as [->|Hx2];
    try lia.
  - apply Z.div_pos; [|lia]. apply nearest_nonneg; lia.
  - apply Z.div_le_mono; [lia|]. apply nearest_mono; [lia|]. nia.
Qed.

Lemma floor_times_100_max : floor_times_100 units_below_100 = 9999.
Proof. vm_compute. reflexivity. Qed.

(** The shape of a float in [[0, 100)]. *)
Lemma slippage_range (s : float) :
  (0 <=? s)%float = true -> (s <? 100)%float = true ->
  valid_binary (Prim2SF s) = true
  /\ nonneg_finite (Prim2SF s)
  /\ 0 <= units (Prim2SF s) <= units_below_100.
Proof.
  rewrite leb_spec, ltb_spec, Prim2SF_100.
  change (Prim2SF 0) with (S754_zero false).
  pose proof (Prim2SF_valid s) as Hv. unfold SFleb, SFltb.
  destruct (Prim2SF s) as [b|b| |b m e] eqn:Hs; cbn [SFcompare];
    try discriminate.
  - intros _ _. split; [exact Hv|]. split; [exact I|]. split; [reflexivity|]. vm_compute. discriminate.
  - destruct b; discriminate.
  - destruct b; [discriminate|]. intros _ Hlt.
    split; [exact Hv|]. split; [exact I|].
    split; [apply units_nonneg|].
    apply valid_finite in Hv as (He & Hd & _).
    pose proof (Z.log2_spec (Zpos m) ltac:(lia)) as [_ Hhi].
    assert (Hup : Zpos m < 2 ^ 53).
    { eapply Z.lt_le_trans; [exact Hhi|]. apply Z.pow_le_mono_r; lia. }
    assert (Hup' : Zpos m <= 2 ^ 53 - 1) by (clear - Hup; lia).
    assert (He' : 0 <= 2 ^ (e + 1074)) by (apply Z.pow_nonneg; lia).
    cbn [units]. unfold units_below_100.
    destruct (Z.compare_spec e (-46)) as [->|Hlt'|Hgt]; [| |discriminate].
    + rewrite Pos.compare_cont_spec in Hlt. cbn [Pos.switch_Eq] in Hlt.
      destruct (Pos.compare_spec m m100) as [|Hm|]; try discriminate.
      apply Z.mul_le_mono_nonneg_r; [exact He'|].
      apply Pos2Z.pos_lt_pos in Hm. apply Z.lt_le_pred in Hm. exact Hm.
    + transitivity ((2 ^ 53 - 1) * 2 ^ 1027).
      * apply Z.mul_le_mono_nonneg.
        -- apply Pos2Z.is_nonneg.
        -- exact Hup'.
        -- exact He'.
        -- apply Z.pow_le_mono_r; lia.
      * vm_compute. discriminate.
Qed.

Lemma log2_below_100 (m : positive) (e : Z) :
  units (S754_finite false m e) <= units_below_100 ->
  -1074 <= e -> Z.log2 (Zpos m) + e <= 6.
Proof.
  cbn [units]. intros Hlt He.
  destruct (Z.le_gt_cases (Z.log2 (Zpos m) + e) 6) as [|Hgt]; [assumption|].
  exfalso.
  pose proof (Z.log2_spec (Zpos m) ltac:(lia)) as [Hlo _].
  pose proof (Z.log2_nonneg (Zpos m)) as Hl0.
  assert (H1 : 2 ^ 1081 <= Zpos m * 2 ^ (e + 1074)).
  { transitivity (2 ^ Z.log2 (Zpos m) * 2 ^ (e + 1074)).
    - rewrite <- Z.pow_add_r by lia. apply Z.pow_le_mono_r; lia.
    - apply Z.mul_le_mono_nonneg_r; [apply Z.pow_nonneg; lia|exact Hlo]. }
  assert (H2 : units_below_100 < 2 ^ 1081) by (vm_compute; reflexivity).
  apply (Z.lt_irrefl (2 ^ 1081)).
  eapply Z.le_lt_trans; [exact H1|]. eapply Z.le_lt_trans; [exact Hlt|exact H2].
Qed.

(** [Math.floor (s * 100)] for [s] in [[0, 100)]. *)
Lemma floor_slippage (s : float) :
  (0 <=? s)%float = true -> (s <? 100)%float = true ->
  floor_SF (Prim2SF (s * 100)%float)
  = Some (floor_times_100 (units (Prim2SF s)))
  /\ 0 <= floor_times_100 (units (Prim2SF s)) <= 9999.
Proof.
  intros H0 H100.
  destruct (slippage_range s H0 H100) as (Hv & Hshape & Hu).
  split.
  - rewrite mul_spec, Prim2SF_100. unfold SF64mul.
    destruct (Prim2SF s) as [b|b| |b m e] eqn:Hs; try contradiction.
    + reflexivity.
    + destruct b; [contradiction|].
      apply floor_mul_100; [exact Hv|].
      apply log2_below_100; [lia|]. apply valid_finite in Hv. lia.
  - split.
    + change 0 with (floor_times_100 0) at 1.
      apply floor_times_100_mono. lia.
    + rewrite <- floor_times_100_max.
      apply floor_times_100_mono. lia.
Qed.

(** The order of two floats in [[0, 100)] is the order of their values. *)
Lemma slippage_le_units (s1 s2 : float) :
  (0 <=? s1)%float = true -> (s1 <? 100)%float = true ->
  (0 <=? s2)%float = true -> (s2 <? 100)%float = true ->
  (s1 <=? s2)%float = true ->
  units (Prim2SF s1) <= units (Prim2SF s2).
Proof.
  intros H1 H1' H2 H2' Hle.
  destruct (slippage_range s1 H1 H1') as (Hv1 & Hshape1 & Hu1).
  destruct (slippage_range s2 H2 H2') as (Hv2 & Hshape2 & Hu2).
  rewrite leb_spec in Hle. unfold SFleb in Hle.
  destruct (Prim2SF s1) as [b1|b1| |[] m1 e1]; try contradiction;
    destruct (Prim2SF s2) as [b2|b2| |[] m2 e2]; try contradiction.
  - reflexivity.
  - apply units_nonneg.
  - cbn [SFcompare] in Hle. discriminate.
  - pose proof (SFcompare_units m1 m2 e1 e2 Hv1 Hv2) as Hc.
    cbn [units].
    destruct (SFcompare _ _) as [[]|]; try discriminate.
    + rewrite Hc. reflexivity.
    + apply Z.lt_le_incl, Hc.
Qed.

End Binary64Facts.

(** ** The configuration ([updateConfig]) *)

Section ConfigFacts.

Lemma spread_empty (c : Config.t) : Config.spread c Config.empty_partial = c.
Proof. destruct c; reflexivity. Qed.

Lemma DEFAULT_SNIPER_CONFIG_ok : Config.ok Config.DEFAULT_SNIPER_CONFIG = true.
Proof. reflexivity. Qed.

(** C9, as the code has it: the default configuration satisfies the
    invariant, and [updateConfig], which checks nothing, keeps it for the
    updates whose own [slippagePercent] and [gasLimitMultiplier], when they
    carry them, are within the bounds. *)
Theorem updateConfig_keeps_ok_for_bounded_updates
    (e : SniperEngine.t) (u : Config.partial) :
  Config.ok (SniperEngine.config e) = true ->
  Config.partial_ok u = true ->
  Config.ok Config.DEFAULT_SNIPER_CONFIG = true
  /\ Config.ok (SniperEngine.config (SniperEngine.updateConfig u e)) = true
  /\ SniperEngine.positions (SniperEngine.updateConfig u e)
     = SniperEngine.positions e.
Proof.
  intros Hc Hu. split; [reflexivity|]. split; [|reflexivity].
  unfold SniperEngine.updateConfig, Config.ok, Config.partial_ok in *.
  simpl.
  destruct (Config.p_slippagePercent u) as [s|],
           (Config.p_gasLimitMultiplier u) as [g|]; simpl in *;
    repeat (apply andb_prop in Hc as [Hc ?]);
    repeat (apply andb_prop in Hu as [Hu ?]);
    repeat (apply andb_true_intro; split); assumption.
Qed.

Lemma updateConfig_keeps_ok_for_bounded_updates_witness :
  Config.ok (SniperEngine.config
               (SniperEngine.updateConfig
                  {| Config.p_autoBuyEnabled := Some true;
                     Config.p_buyAmountPLS := None;
                     Config.p_slippagePercent := Some 25%float;
                     Config.p_gasLimitMultiplier := Some 1.5%float;
                     Config.p_gasPriceGwei := None;
                     Config.p_autoSellEnabled := None;
                     Config.p_takeProfitPercent := None;
                     Config.p_stopLossPercent := None;
                     Config.p_minBuyEnabled := None;
                     Config.p_minBuyCount := None |}
                  Examples.engine)) = true.
Proof.
  refine (proj1 (proj2 (updateConfig_keeps_ok_for_bounded_updates
                          Examples.engine _ _ _)));
    reflexivity.
Defined.

(** C9 as stated fails: an update to a slippage of 150 percent, or to a
    gas multiplier of one half, is taken as it is. *)
Lemma updateConfig_breaks_ok :
  let e := SniperEngine.new Config.DEFAULT_SNIPER_CONFIG in
  let u :=
    {| Config.p_autoBuyEnabled := None; Config.p_buyAmountPLS := None;
       Config.p_slippagePercent := Some 150%float;
       Config.p_gasLimitMultiplier := Some 0.5%float;
       Config.p_gasPriceGwei := None; Config.p_autoSellEnabled := None;
       Config.p_takeProfitPercent := None; Config.p_stopLossPercent := None;
       Config.p_minBuyEnabled := None; Config.p_minBuyCount := None |} in
  Config.ok (SniperEngine.config e) = true
  /\ Config.ok (SniperEngine.config (SniperEngine.updateConfig u e)) = false
  /\ Config.slippagePercent (SniperEngine.config (SniperEngine.updateConfig u e))
     = 150%float
  /\ Config.gasLimitMultiplier
       (SniperEngine.config (SniperEngine.updateConfig u e)) = 0.5%float.
Proof. repeat split. Qed.

End ConfigFacts.

(** ** The mint watcher ([startListening], [getRecentMints]) *)

Section MintWatcherFacts.
Import MintWatcher.

Lemma insert_newest_first_perm (x : Mint.t) (l : list Mint.t) :
  insert_newest_first x l ≡ₚ x :: l.
Proof.
  induction l as [|y l IH]; simpl; [reflexivity|].
  destruct (Mint.blockNumber y <=? Mint.blockNumber x); [reflexivity|].
  rewrite IH. apply Permutation_swap.
Qed.

Lemma sort_newest_first_perm (l : list Mint.t) : sort_newest_first l ≡ₚ l.
Proof.
  induction l as [|x l IH]; simpl; [reflexivity|].
  rewrite insert_newest_first_perm, IH. reflexivity.
Qed.

Lemma insert_newest_first_sorted (x : Mint.t) (l : list Mint.t) :
  StronglySorted newest_first l ->
  StronglySorted newest_first (insert_newest_first x l).
Proof.
  induction 1 as [|y l Hl IH Hy]; simpl.
  - repeat constructor.
  - destruct (Z.leb_spec (Mint.blockNumber y) (Mint.blockNumber x)) as [Hle|Hlt].
    + constructor; [constructor; assumption|].
      constructor; [exact Hle|].
      eapply Forall_impl; [exact Hy|].
      unfold newest_first. intros z Hz. lia.
    + constructor; [exact IH|].
      rewrite insert_newest_first_perm.
      constructor; [unfold newest_first; lia | exact Hy].
Qed.

Lemma sort_newest_first_sorted (l : list Mint.t) :
  StronglySorted newest_first (sort_newest_first l).
Proof.
  induction l as [|x l IH]; simpl; [constructor|].
  apply insert_newest_first_sorted, IH.
Qed.

(** An idle watcher hands nothing over, whatever reaches it. *)
Lemma idle_live (w : t) (s : stimulus) : idle w -> live w s = (w, []).
Proof.
  intros (_ & Hs & Hp). destruct s; simpl; rewrite ?Hp, ?Hs; reflexivity.
Qed.

Lemma go_live_isListening (p : Provider) (now : Z) (w : t)
    (tokenAddress : option string) :
  isListening (go_live p now w tokenAddress) = isListening w.
Proof. unfold go_live. destruct (truthy_string tokenAddress); reflexivity. Qed.

(** Whatever [startListening] does, and even when it throws, the watcher
    is listening afterwards. *)
Lemma startListening_listens (p : Provider) (now : Z) (w : t)
    (fromBlock : option Z) (includeHistorical : bool)
    (tokenAddress : option string) :
  isListening
    (startListening p now w fromBlock includeHistorical tokenAddress).1.1
  = true.
Proof.
  unfold startListening. destruct (isListening w) eqn:Hw; [exact Hw|].
  destruct includeHistorical; cbn [negb];
    [|cbn [fst]; rewrite go_live_isListening; reflexivity].
  destruct (start_block p fromBlock) as [startBlock|]; [|reflexivity].
  destruct (truthy_string tokenAddress) eqn:Htok.
  - cbn [fst]. rewrite go_live_isListening. reflexivity.
  - destruct (getRecentMints p now (set_isListening true w) startBlock);
      [|reflexivity].
    cbn [fst]. rewrite go_live_isListening. reflexivity.
Qed.

(** C8, as the code has it: a second [startListening] without a
    [stopListening] in between returns without an error (it only logs a
    warning); the watcher is as before, so no second set of listeners or
    polling loops is registered, and nothing is handed to the callback. *)
Theorem startListening_twice_returns_silently
    (p : Provider) (now : Z) (w : t) (fromBlock : option Z)
    (includeHistorical : bool) (tokenAddress : option string) :
  (isListening w = true ->
   startListening p now w fromBlock includeHistorical tokenAddress
   = (w, [], Ok tt))
  /\ forall p' now' fromBlock' includeHistorical' tokenAddress',
       let w1 :=
         (startListening p now w fromBlock includeHistorical
            tokenAddress).1.1 in
       startListening p' now' w1 fromBlock' includeHistorical' tokenAddress'
       = (w1, [], Ok tt).
Proof.
  split.
  - intros Hw. unfold startListening. rewrite Hw. reflexivity.
  - intros p' now' fromBlock' includeHistorical' tokenAddress' w1.
    pose proof (startListening_listens p now w fromBlock includeHistorical
                  tokenAddress) as Hw1.
    fold w1 in Hw1. unfold startListening at 1. rewrite Hw1. reflexivity.
Qed.

Lemma startListening_twice_returns_silently_witness :
  let w1 :=
    (startListening Examples.provider 0 Examples.watcher None true None).1.1 in
  isListening w1 = true
  /\ startListening Examples.provider 0 w1 None true None = (w1, [], Ok tt).
Proof.
  split; [reflexivity|].
  apply (proj1 (startListening_twice_returns_silently Examples.provider 0 _
                  None true None)).
  reflexivity.
Defined.

(** C8 as stated fails: the second call is no [AlreadyListening] error, nor
    any other. *)
Lemma startListening_twice_is_no_error :
  let w1 :=
    (startListening Examples.provider 0 Examples.watcher None true None).1.1 in
  isListening w1 = true
  /\ (startListening Examples.provider 0 w1 None true None).2 = Ok tt
  /\ forall msg,
       (startListening Examples.provider 0 w1 None true None).2 <> Throw msg.
Proof. repeat split. intros msg. discriminate. Qed.

(** The polling never finds a mint: the transactions of a block are
    strings, and the loop looks for logs on objects. *)
Lemma mints_of_block_nil (p : Provider) (w : t) (blockNum : Z) :
  mints_of_block p w blockNum = [].
Proof.
  unfold mints_of_block.
  destruct (getBlock p blockNum) as [[block|]|]; try reflexivity.
  induction (transactions block) as [|tx txs IH]; [reflexivity|exact IH].
Qed.

Lemma checkNewBlocks_nil (p : Provider) (w : t) (lastCheckedBlock : Z) :
  (checkNewBlocks p w lastCheckedBlock).2 = [].
Proof.
  unfold checkNewBlocks. destruct (getBlockNumber p) as [c|]; [|reflexivity].
  destruct (_ <? c); [|reflexivity]. cbn [snd].
  induction (seqZ _ _) as [|b bs IH]; [reflexivity|].
  cbn [mbind list_bind]. rewrite mints_of_block_nil. exact IH.
Qed.

(** The listener of [watchToken], called as ethers calls it, hands nothing
    to the callback. *)
Lemma on_transfer_emitted (p : Provider) (now : Z) (tokenAddress : string)
    (ev : TransferEvent) :
  on_transfer p now tokenAddress (emitted ev) = [].
Proof. unfold on_transfer. destruct (getLatestBlock p); reflexivity. Qed.

Lemma live_nil (w : t) (s : stimulus) : (live w s).2 = [].
Proof.
  destruct s as [p|p now tokenAddress ev]; cbn [live].
  - destruct (pollInterval w); [apply checkNewBlocks_nil|reflexivity].
  - cbn [snd]. induction (subscriptions w) as [|token l IH]; [reflexivity|].
    cbn [mbind list_bind]. rewrite IH.
    destruct (decide (token = tokenAddress)); [|reflexivity].
    rewrite on_transfer_emitted. reflexivity.
Qed.

Lemma live_all_nil (w : t) (ss : list stimulus) : live_all w ss = [].
Proof.
  revert w. induction ss as [|s ss IH]; intros w; [reflexivity|].
  cbn [live_all]. rewrite live_nil, IH. reflexivity.
Qed.

(** A mint of the replay is an event of the query, with its block. *)
Lemma replay_blocks (p : Provider) (now : Z) (token : string)
    (events : list TransferEvent) (m : Mint.t) :
  m ∈ replay p now token events ->
  exists ev, ev ∈ events /\ Mint.blockNumber m = ev_blockNumber ev.
Proof.
  induction events as [|ev rest IH]; cbn [replay]; [intros Hin; inversion Hin|].
  destruct (ev_args ev) as [[to amount]|] eqn:Hargs.
  - unfold parseTransferEvent. rewrite Hargs.
    destruct (getBlock p (ev_blockNumber ev)) as [block|];
      cbn [mbind result_bind]; [|intros Hin; inversion Hin].
    destruct to as [to|]; cbn [mbind result_bind];
      [|intros Hin; inversion Hin].
    intros [->|Hin]%elem_of_cons.
    + exists ev. split; [apply list_elem_of_here|reflexivity].
    + destruct (IH Hin) as (ev' & Hev' & Hb). exists ev'.
      split; [apply list_elem_of_further, Hev'|exact Hb].
  - intros Hin. destruct (IH Hin) as (ev' & Hev' & Hb). exists ev'.
    split; [apply list_elem_of_further, Hev'|exact Hb].
Qed.

(** The replay keeps the order of the query. *)
Lemma replay_sorted (p : Provider) (now : Z) (token : string)
    (events : list TransferEvent) :
  StronglySorted (fun a b => ev_blockNumber a <= ev_blockNumber b) events ->
  StronglySorted oldest_first (replay p now token events).
Proof.
  induction 1 as [|ev rest Hrest IH Hev]; cbn [replay]; [constructor|].
  destruct (ev_args ev) as [[to amount]|] eqn:Hargs; [|exact IH].
  destruct (parseTransferEvent p now ev token) as [m|] eqn:Hm; [|constructor].
  assert (Hb : Mint.blockNumber m = ev_blockNumber ev).
  { revert Hm. unfold parseTransferEvent. rewrite Hargs.
    destruct (getBlock p (ev_blockNumber ev)); cbn [mbind result_bind];
      [|discriminate].
    destruct to; cbn [mbind result_bind]; [|discriminate].
    intros [= <-]. reflexivity. }
  constructor; [exact IH|]. apply Forall_forall. intros m' Hin.
  destruct (replay_blocks _ _ _ _ _ Hin) as (ev' & Hev' & Hb').
  rewrite Forall_forall in Hev. unfold oldest_first. rewrite Hb, Hb'.
  apply Hev, Hev'.
Qed.

(** C4, as the code has it.  For a watcher that is not listening and
    [includeHistorical = true], the historical events are handed over
    during the call.  Without a token address they are those
    [getRecentMints] found, all that parse, newest first (block numbers do
    not go up).  With a token address they are the events of the query in
    the order of the provider, up to the first that cannot be parsed: in
    ascending block order when the provider answers in that order.  After
    the call nothing more is handed over, whatever reaches the watcher: so
    every historical event comes before any live one. *)
Theorem startListening_history_first_newest_first
    (p : Provider) (now : Z) (w : t) (fromBlock : option Z)
    (tokenAddress : option string) :
  isListening w = false ->
  let r := startListening p now w fromBlock true tokenAddress in
  (truthy_string tokenAddress = None ->
   StronglySorted newest_first r.1.2
   /\ (r.2 = Ok tt ->
       exists startBlock currentBlock,
         start_block p fromBlock = Ok startBlock
         /\ getBlockNumber p = Ok currentBlock
         /\ r.1.2 ≡ₚ found p now (set_isListening true w)
                       (Z.max 0 (currentBlock - startBlock))))
  /\ (forall token startBlock,
        truthy_string tokenAddress = Some token ->
        start_block p fromBlock = Ok startBlock ->
        r.1.2 = match queryFilter p token startBlock with
                | Ok events => replay p now token events
                | Throw _ => []
                end
        /\ forall events,
             queryFilter p token startBlock = Ok events ->
             StronglySorted
               (fun a b => ev_blockNumber a <= ev_blockNumber b) events ->
             StronglySorted oldest_first r.1.2)
  /\ (forall ss, live_all r.1.1 ss = []).
Proof.
  intros Hl r. split; [|split; [|intros ss; apply live_all_nil]].
  - subst r. unfold startListening. rewrite Hl. simpl.
    intros Htok. rewrite Htok.
    destruct (start_block p fromBlock) as [b|msg] eqn:Hb; simpl;
      [|split; [constructor|discriminate]].
    unfold getRecentMints.
    destruct (getBlockNumber p) as [c|msg] eqn:Hc; simpl;
      [|split; [constructor|discriminate]].
    split; [apply sort_newest_first_sorted|].
    intros _. exists b, c. repeat split.
    apply sort_newest_first_perm.
  - intros token b Htok Hb.
    assert (Hr : r.1.2 = match queryFilter p token b with
                         | Ok events => replay p now token events
                         | Throw _ => []
                         end).
    { subst r. unfold startListening. rewrite Hl. simpl.
      rewrite Htok, Hb. simpl. reflexivity. }
    split; [exact Hr|]. intros events Hq Hsorted. rewrite Hr, Hq.
    apply replay_sorted, Hsorted.
Qed.

Lemma startListening_history_first_newest_first_witness :
  let r := startListening Examples.provider 0 Examples.watcher None true None in
  StronglySorted newest_first r.1.2 /\ length r.1.2 = 2%nat
  /\ live_all r.1.1 [Poll Examples.provider; Poll Examples.provider] = [].
Proof.
  destruct (startListening_history_first_newest_first Examples.provider 0
              Examples.watcher None None eq_refl)
    as (Hnet & _ & Hlive).
  split; [exact (proj1 (Hnet eq_refl))|]. split; [reflexivity|].
  apply Hlive.
Defined.

(** C4 as stated fails.  Without a token address the provider returns the
    mints of blocks 1500 and 1600 oldest first, and the callback receives
    block 1600 before block 1500.  With a token address the callback
    receives the events as the query returned them, here block 1600 before
    block 1500; and of the events of blocks 1500, 1550 and 1600, where
    block 1550 cannot be fetched, it receives the first only. *)
Lemma startListening_history_not_oldest_first :
  let delivered p token :=
    Mint.blockNumber <$>
      (startListening p 0 Examples.watcher None true token).1.2 in
  (startListening Examples.provider 0 Examples.watcher None true None).2
  = Ok tt
  /\ delivered Examples.provider None = [1600; 1500]
  /\ ~ StronglySorted oldest_first
         (startListening Examples.provider 0 Examples.watcher None true
            None).1.2
  /\ delivered
       (Examples.provider_with_history
          [Examples.transfer_event 1600; Examples.transfer_event 1500])
       (Some Examples.token)
     = [1600; 1500]
  /\ delivered
       (Examples.provider_with_history
          [Examples.transfer_event 1500; Examples.transfer_event 1550;
           Examples.transfer_event 1600])
       (Some Examples.token)
     = [1500].
Proof.
  repeat split. intros Hs. vm_compute in Hs.
  inversion Hs as [|? ? _ Hall]; subst.
  inversion Hall as [|? ? Hle _]; subst.
  vm_compute in Hle. apply Hle. reflexivity.
Qed.

End MintWatcherFacts.

(** ** The sniper engine ([executeSnipe], [sellToken]) *)

Section SniperEngineFacts.
Import SniperEngine.

(** C2: when a stage of [executeSnipe] after the metadata lookup fails (the
    swap service is missing, the buy throws, the wait for the receipt
    throws, the receipt of the submitted buy is missing or reports a
    failure, or reading the balance throws), the call returns a result with
    [success = false] and the error, and the engine, its map of positions
    included, is exactly as before. *)
Theorem executeSnipe_failure_leaves_positions
    (ch : Chain) (e : t) (timestamp now_tx : Z) (tokenAddress msg : string) :
  stage_fails ch e now_tx tokenAddress msg ->
  executeSnipe ch e timestamp now_tx tokenAddress
  = (e, failed_snipe tokenAddress msg timestamp,
     [SnipeNotice (failed_snipe tokenAddress msg timestamp)])
  /\ positions (executeSnipe ch e timestamp now_tx tokenAddress).1.1
     = positions e
  /\ Snipe.success (executeSnipe ch e timestamp now_tx tokenAddress).1.2
     = false
  /\ Snipe.error (executeSnipe ch e timestamp now_tx tokenAddress).1.2
     = Some msg.
Proof.
  intros Hfail.
  assert (Hattempt :
            snipe_attempt ch e timestamp now_tx tokenAddress = Throw msg).
  { unfold snipe_attempt.
    destruct Hfail as [Hsv | sv m Hsv Hbuy | sv h m Hsv Hbuy Hwait
                      | sv h r Hsv Hbuy Hwait Hr
                      | sv h r m Hsv Hbuy Hwait Hr Hbal];
      rewrite Hsv; try reflexivity; rewrite Hbuy; simpl; try reflexivity;
      rewrite Hwait; simpl; try reflexivity; rewrite Hr; simpl;
      try reflexivity.
    rewrite Hbal. reflexivity. }
  unfold executeSnipe. rewrite Hattempt. repeat split.
Qed.

Lemma executeSnipe_failure_leaves_positions_witness :
  let ch := Examples.chain 1000 0 in
  executeSnipe ch Examples.engine 1 2 "0xdef"
  = (Examples.engine, failed_snipe "0xdef" "Transaction failed" 1,
     [SnipeNotice (failed_snipe "0xdef" "Transaction failed" 1)]).
Proof.
  intros ch.
  refine (proj1 (executeSnipe_failure_leaves_positions ch Examples.engine 1 2
                   "0xdef" "Transaction failed" _)).
  eapply receipt_fails with (txHash := "0xtx"); reflexivity.
Defined.

(** Every unsuccessful snipe is the failure of one of the stages, and a
    successful one records a position that is held. *)
Lemma executeSnipe_outcomes
    (ch : Chain) (e : t) (timestamp now_tx : Z) (tokenAddress : string) :
  let r := executeSnipe ch e timestamp now_tx tokenAddress in
  (Snipe.success r.1.2 = false /\
   exists msg, stage_fails ch e now_tx tokenAddress msg)
  \/ (Snipe.success r.1.2 = true /\
      exists p, positions r.1.1 !! tokenAddress = Some p
                /\ Position.status p = Position.holding).
Proof.
  unfold executeSnipe, snipe_attempt.
  destruct (swapService e) as [sv|] eqn:Hsv;
    [|left; split; [reflexivity|eexists; apply not_initialized, Hsv]].
  destruct (SwapService.buyTokenWithPLS _ _ _ _ _ _ _ _ _) as [h|m] eqn:Hbuy;
    simpl; [|left; split; [reflexivity|eexists; eapply buy_fails; eauto]].
  destruct (WalletService.waitForTransaction ch h) as [r|m] eqn:Hwait; simpl;
    [|left; split; [reflexivity|eexists; eapply confirmation_fails; eauto]].
  destruct (confirmed r) eqn:Hr; simpl;
    [|left; split; [reflexivity|eexists; eapply receipt_fails; eauto]].
  destruct (WalletService.getTokenBalance _ _ _) as [b|m] eqn:Hbal; simpl;
    [|left; split; [reflexivity|eexists; eapply balance_fails; eauto]].
  right. split; [reflexivity|]. eexists. split.
  - apply lookup_insert_eq.
  - reflexivity.
Qed.

(** ** A sale never gets past the approval *)

(** [ERC20_ABI] has no [allowance]: with a wallet, [approveTokenIfNeeded]
    throws before it asks the chain anything. *)
Lemma approveTokenIfNeeded_throws
    (ch : Chain) (sv : SwapService.t) (wallet tokenAddress : string)
    (amount : Z) :
  SwapService.approveTokenIfNeeded ch sv (Some wallet) tokenAddress amount
  = Throw "TypeError: tokenContract.allowance is not a function".
Proof.
  unfold SwapService.approveTokenIfNeeded, Contract_call.
  destruct (decide ("allowance" ∈ ERC20_ABI)) as [Hin|_]; [|reflexivity].
  exfalso. unfold ERC20_ABI in Hin.
  repeat (apply elem_of_cons in Hin as [Hin|Hin]; [discriminate Hin|]).
  inversion Hin.
Qed.

Lemma sellRequest_throws
    (ch : Chain) (sv : SwapService.t) (w : WalletService.t) (now : Z)
    (tokenAddress tokenAmount : string) (s g : float) (gp : option string) :
  is_ok (SwapService.sellRequest ch sv w now tokenAddress tokenAmount s g gp)
  = false.
Proof.
  unfold SwapService.sellRequest. destruct w as [wallet|]; [|reflexivity].
  destruct (decimals ch tokenAddress) as [dec|];
    cbn [mbind result_bind]; [|reflexivity].
  destruct (parseUnits ch tokenAmount dec) as [amountIn|];
    cbn [mbind result_bind]; [|reflexivity].
  destruct (getAmountsOut ch amountIn _) as [out|];
    cbn [mbind result_bind]; [|reflexivity].
  destruct (BigInt_floor (s * 100)) as [bp|];
    cbn [mbind result_bind]; [|reflexivity].
  rewrite approveTokenIfNeeded_throws. reflexivity.
Qed.

Lemma sellTokenForPLS_throws
    (ch : Chain) (sv : SwapService.t) (w : WalletService.t) (now : Z)
    (tokenAddress tokenAmount : string) (s g : float) (gp : option string) :
  is_ok (SwapService.sellTokenForPLS ch sv w now tokenAddress tokenAmount s g
           gp)
  = false.
Proof.
  unfold SwapService.sellTokenForPLS.
  pose proof (sellRequest_throws ch sv w now tokenAddress tokenAmount s g gp)
    as Hreq.
  destruct (SwapService.sellRequest _ _ _ _ _ _ _ _ _);
    [discriminate Hreq|reflexivity].
Qed.

(** A sale is its part up to the log of the expected output, and then the
    [TypeError]: what throws before the log throws as it did, and once the
    expected output is logged the approval throws. *)
Lemma sellTokenForPLS_expected
    (ch : Chain) (sv : SwapService.t) (w : WalletService.t) (now : Z)
    (tokenAddress tokenAmount : string) (s g : float) (gp : option string) :
  SwapService.sellTokenForPLS ch sv w now tokenAddress tokenAmount s g gp
  = (_ ← SwapService.sellExpected ch w tokenAddress tokenAmount s;
     Throw "TypeError: tokenContract.allowance is not a function").
Proof.
  unfold SwapService.sellExpected, SwapService.sellTokenForPLS,
    SwapService.sellRequest.
  destruct w as [wallet|]; [|reflexivity].
  destruct (decimals ch tokenAddress) as [dec|];
    cbn [mbind result_bind]; [|reflexivity].
  destruct (parseUnits ch tokenAmount dec) as [amountIn|];
    cbn [mbind result_bind]; [|reflexivity].
  destruct (getAmountsOut ch amountIn _) as [out|];
    cbn [mbind result_bind]; [|reflexivity].
  destruct (BigInt_floor (s * 100)) as [bp|];
    cbn [mbind result_bind]; [|reflexivity].
  rewrite approveTokenIfNeeded_throws. reflexivity.
Qed.

Lemma sellTokenForPLS_after_expected
    (ch : Chain) (sv : SwapService.t) (w : WalletService.t) (now : Z)
    (tokenAddress tokenAmount : string) (s g : float) (gp : option string)
    (x : Z * Z * Z) :
  SwapService.sellExpected ch w tokenAddress tokenAmount s = Ok x ->
  SwapService.sellTokenForPLS ch sv w now tokenAddress tokenAmount s g gp
  = Throw "TypeError: tokenContract.allowance is not a function".
Proof. intros Hx. rewrite sellTokenForPLS_expected, Hx. reflexivity. Qed.

Lemma sellToken_throws
    (ch : Chain) (e : t) (now_tx now : Z) (tokenAddress : string)
    (amount : option string) :
  is_ok (sellToken ch e now_tx now tokenAddress amount) = false.
Proof.
  unfold sellToken. destruct (swapService e) as [sv|]; [|reflexivity].
  destruct (amountToSell amount _) as [a|]; [|reflexivity].
  pose proof (sellTokenForPLS_throws ch sv (walletService e) now_tx
                tokenAddress a (Config.slippagePercent (config e))
                (Config.gasLimitMultiplier (config e))
                (Config.gasPriceGwei (config e))) as Hsale.
  destruct (SwapService.sellTokenForPLS _ _ _ _ _ _ _ _ _);
    [discriminate Hsale|reflexivity].
Qed.

(** C7, where the code falls short of it.  [sellToken] never returns:
    whatever the chain, the engine, the token and the amount, it throws,
    so no position is ever marked sold by it and no profit or loss is
    recorded.  With a swap service, a wallet and an amount to sell, on a
    chain that gives the decimals and the quote, the error is the
    [TypeError] of [approveTokenIfNeeded], raised after the expected output
    is logged and before a transaction is estimated or sent. *)
Theorem sellToken_throws_before_any_sale
    (ch : Chain) (e : t) (now_tx now : Z) (tokenAddress : string)
    (amount : option string) :
  is_ok (sellToken ch e now_tx now tokenAddress amount) = false
  /\ (forall sv a x,
        swapService e = Some sv ->
        amountToSell amount (positions e !! tokenAddress) = Some a ->
        SwapService.sellExpected ch (walletService e) tokenAddress a
          (Config.slippagePercent (config e)) = Ok x ->
        sellToken ch e now_tx now tokenAddress amount
        = Throw "TypeError: tokenContract.allowance is not a function").
Proof.
  split; [apply sellToken_throws|].
  intros sv a x Hsv Ha Hx. unfold sellToken. rewrite Hsv, Ha.
  rewrite (sellTokenForPLS_after_expected _ _ _ _ _ _ _ _ _ x Hx).
  reflexivity.
Qed.

Lemma sellToken_throws_before_any_sale_witness :
  positions Examples.engine !! Examples.token = Some Examples.position
  /\ Position.status Examples.position = Position.holding
  /\ SwapService.sellExpected (Examples.chain 200 1) (Some "0xwallet")
       Examples.token "5" 10%float
     = Ok (1000, 200, 180)
  /\ sellToken (Examples.chain 200 1) Examples.engine 3 5 Examples.token None
     = Throw "TypeError: tokenContract.allowance is not a function".
Proof.
  split; [reflexivity|]. split; [reflexivity|]. split; [reflexivity|].
  apply (proj2 (sellToken_throws_before_any_sale (Examples.chain 200 1)
                  Examples.engine 3 5 Examples.token None)
           {| SwapService.routerAddress := PULSEX_CONFIG.routerV2 |} "5"
           (1000, 200, 180));
    reflexivity.
Defined.

End SniperEngineFacts.

(** ** Insertion-ordered maps *)

Section InsertionMapFacts.
Context {V : Type}.
Implicit Types (m : InsertionMap.t V) (k : string) (v : V).

Lemma get_set_eq k v m : InsertionMap.get k (InsertionMap.set k v m) = Some v.
Proof.
  induction m as [|[k' v'] m IH]; simpl.
  - rewrite decide_True; reflexivity.
  - destruct (decide (k = k')); simpl.
    + rewrite decide_True; reflexivity.
    + rewrite decide_False by assumption. exact IH.
Qed.

Lemma get_set_ne k k' v m :
  k <> k' -> InsertionMap.get k' (InsertionMap.set k v m) = InsertionMap.get k' m.
Proof.
  intros Hne. induction m as [|[k0 v0] m IH]; simpl.
  - rewrite decide_False by congruence. reflexivity.
  - destruct (decide (k = k0)) as [->|]; simpl.
    + rewrite !decide_False by congruence. reflexivity.
    + destruct (decide (k' = k0)); [reflexivity|exact IH].
Qed.

Lemma keys_set k v m :
  InsertionMap.keys (InsertionMap.set k v m)
  = if decide (k ∈ InsertionMap.keys m) then InsertionMap.keys m
    else InsertionMap.keys m ++ [k].
Proof.
  unfold InsertionMap.keys.
  induction m as [|[k' v'] m IH].
  - destruct (decide (k ∈ [].*1)) as [Hin|_]; [inversion Hin|reflexivity].
  - cbn [InsertionMap.set fmap list_fmap fst].
    destruct (decide (k = k')) as [->|Hne].
    + destruct (decide (k' ∈ k' :: m.*1)) as [_|Hout]; [reflexivity|].
      exfalso. apply Hout, list_elem_of_here.
    + cbn [fmap list_fmap fst]. rewrite IH.
      destruct (decide (k ∈ m.*1)) as [Hin|Hout];
        destruct (decide (k ∈ k' :: m.*1)) as [Hin'|Hout'];
        try reflexivity; exfalso.
      * apply Hout', list_elem_of_further, Hin.
      * apply elem_of_cons in Hin' as [?|?]; congruence.
Qed.

Lemma NoDup_keys_set k v m :
  NoDup (InsertionMap.keys m) -> NoDup (InsertionMap.keys (InsertionMap.set k v m)).
Proof.
  intros Hm. rewrite keys_set. destruct (decide _) as [|Hout]; [exact Hm|].
  apply NoDup_app. repeat split; [exact Hm| |apply NoDup_singleton].
  intros x Hx ->%list_elem_of_singleton. contradiction.
Qed.

Lemma elem_of_set kv k v m :
  kv ∈ InsertionMap.set k v m -> kv = (k, v) \/ kv ∈ m.
Proof.
  induction m as [|[k' v'] m IH]; simpl.
  - intros ->%list_elem_of_singleton. left; reflexivity.
  - destruct (decide (k = k')) as [->|].
    + intros [->|Hin]%elem_of_cons; [left; reflexivity|].
      right. apply list_elem_of_further, Hin.
    + intros [->|Hin]%elem_of_cons; [right; apply list_elem_of_here|].
      destruct (IH Hin) as [->|Hin']; [left; reflexivity|].
      right. apply list_elem_of_further, Hin'.
Qed.

Lemma get_Some_elem_of k v m : InsertionMap.get k m = Some v -> (k, v) ∈ m.
Proof.
  induction m as [|[k' v'] m IH]; simpl; [discriminate|].
  destruct (decide (k = k')) as [->|].
  - intros [= ->]. apply list_elem_of_here.
  - intros Hg. apply list_elem_of_further, IH, Hg.
Qed.

Lemma elem_of_get_Some k v m :
  NoDup (InsertionMap.keys m) -> (k, v) ∈ m -> InsertionMap.get k m = Some v.
Proof.
  unfold InsertionMap.keys.
  induction m as [|[k' v'] m IH]; simpl; [intros _ Hin; inversion Hin|].
  intros [Hout Hm]%NoDup_cons [[= -> ->]|Hin]%elem_of_cons.
  - rewrite decide_True; reflexivity.
  - destruct (decide (k = k')) as [->|]; [|apply IH; assumption].
    exfalso. apply Hout. apply list_elem_of_fmap. exists (k', v). split; [reflexivity|assumption].
Qed.

Lemma get_mutate k k' (f : V -> V) m :
  InsertionMap.get k' (InsertionMap.mutate k f m)
  = if decide (k = k') then f <$> InsertionMap.get k m else InsertionMap.get k' m.
Proof.
  induction m as [|[k0 v0] m IH]; simpl.
  - destruct (decide (k = k')); reflexivity.
  - destruct (decide (k = k0)) as [->|Hne]; simpl.
    + destruct (decide (k0 = k')) as [->|Hne'].
      * rewrite decide_True; reflexivity.
      * destruct (decide (k' = k0)); [congruence|reflexivity].
    + destruct (decide (k' = k0)) as [->|Hne'].
      * rewrite decide_False by assumption. reflexivity.
      * exact IH.
Qed.

End InsertionMapFacts.

(** ** The price monitor ([getPrice], [checkLimitOrders], [checkPrices]) *)

Lemma toLowerAscii_idemp (c : ascii) :
  toLowerAscii (toLowerAscii c) = toLowerAscii c.
Proof. destruct c as [[] [] [] [] [] [] [] []]; reflexivity. Qed.

Lemma toLowerCase_idemp (s : string) :
  toLowerCase (toLowerCase s) = toLowerCase s.
Proof.
  induction s as [|c s IH]; simpl; [reflexivity|].
  rewrite toLowerAscii_idemp, IH. reflexivity.
Qed.

Section PriceMonitorFacts.
Import PriceMonitor.
Context `{Host}.

(** Orders stored under their ids are told apart by their ids. *)
Lemma stored_get (os : InsertionMap.t Order.t) (o : Order.t) :
  orders_wf os ->
  o ∈ InsertionMap.values os -> InsertionMap.get (Order.id o) os = Some o.
Proof.
  intros [Hnd Hid] Hin.
  apply list_elem_of_fmap in Hin as ([k o'] & -> & Hin).
  rewrite Forall_forall in Hid. specialize (Hid _ Hin). simpl in *. subst k.
  apply elem_of_get_Some; assumption.
Qed.

Lemma get_stored (os : InsertionMap.t Order.t) (k : string) (o : Order.t) :
  orders_wf os ->
  InsertionMap.get k os = Some o ->
  o ∈ InsertionMap.values os /\ k = Order.id o.
Proof.
  intros [Hnd Hid] Hg. apply get_Some_elem_of in Hg.
  rewrite Forall_forall in Hid. split.
  - apply list_elem_of_fmap. exists (k, o). split; [reflexivity|assumption].
  - exact (Hid _ Hg).
Qed.

Lemma orders_wf_ids (os : InsertionMap.t Order.t) :
  orders_wf os -> NoDup (Order.id <$> InsertionMap.values os).
Proof.
  intros [Hnd Hid].
  replace (Order.id <$> InsertionMap.values os) with (InsertionMap.keys os);
    [exact Hnd|].
  unfold InsertionMap.keys, InsertionMap.values.
  induction os as [|[k o] os IH]; [reflexivity|].
  apply Forall_cons in Hid as [Hk Hid]. apply NoDup_cons in Hnd as [_ Hnd].
  simpl in *. rewrite Hk. f_equal. apply IH; assumption.
Qed.

Lemma orders_wf_set (os : InsertionMap.t Order.t) (o : Order.t) :
  orders_wf os -> orders_wf (InsertionMap.set (Order.id o) o os).
Proof.
  intros [Hnd Hid]. split; [apply NoDup_keys_set, Hnd|].
  apply Forall_forall. intros kv [->|Hin]%elem_of_set; [reflexivity|].
  rewrite Forall_forall in Hid. apply Hid, Hin.
Qed.

Lemma elem_of_candidates (pm : t) (tokenAddress : string) (o : Order.t) :
  o ∈ candidates pm tokenAddress
  <-> o ∈ getLimitOrders pm
      /\ toLowerCase (Order.tokenAddress o) = toLowerCase tokenAddress
      /\ Order.status o = Order.pending.
Proof. unfold candidates. rewrite list_elem_of_filter. tauto. Qed.

Lemma candidates_ids (pm : t) (tokenAddress : string) :
  orders_wf (limitOrders pm) ->
  NoDup (Order.id <$> candidates pm tokenAddress).
Proof.
  intros Hwf. eapply sublist_NoDup; [apply orders_wf_ids, Hwf|].
  apply fmap_sublist, sublist_filter.
Qed.

Section Loop.
Variables (cb : option callback) (price : string) (now : Z).
Hypothesis Hcb : keeps_id cb.

Lemma marked_id (o : Order.t) : Order.id (marked cb price now o) = Order.id o.
Proof.
  unfold marked. simpl. destruct cb as [f|] eqn:Hf; [|reflexivity].
  apply (Hcb f eq_refl).
Qed.

Lemma marked_status (o : Order.t) :
  Order.status (marked cb price now o) = Order.executed.
Proof. reflexivity. Qed.

Lemma check_loop_fired (l : list Order.t) m f :
  (foldl (check_one cb price now) (m, f) l).2
  = f ++ ((fun o => (o, price)) <$>
          filter (fun o => shouldTrigger o price = true) l).
Proof.
  revert m f. induction l as [|o l IH]; intros m f; cbn [foldl].
  - rewrite app_nil_r. reflexivity.
  - unfold check_one at 2.
    destruct (shouldTrigger o price) eqn:Ht.
    + rewrite filter_cons_True by exact Ht. cbn [fst snd].
      rewrite IH, <- app_assoc. reflexivity.
    + rewrite filter_cons_False by (rewrite Ht; discriminate). apply IH.
Qed.

Lemma check_loop_untouched (k : string) (l : list Order.t) m f :
  (forall o, o ∈ l -> shouldTrigger o price = true -> Order.id o <> k) ->
  InsertionMap.get k (foldl (check_one cb price now) (m, f) l).1
  = InsertionMap.get k m.
Proof.
  revert m f. induction l as [|o l IH]; intros m f Hk; cbn [foldl];
    [reflexivity|].
  unfold check_one at 2.
  destruct (shouldTrigger o price) eqn:Ht; cbn [fst snd].
  - rewrite IH by (intros o' Ho'; apply Hk, list_elem_of_further, Ho').
    apply get_set_ne. rewrite marked_id.
    apply Hk; [apply list_elem_of_here|exact Ht].
  - apply IH. intros o' Ho'. apply Hk, list_elem_of_further, Ho'.
Qed.

Lemma check_loop_marked (o : Order.t) (l : list Order.t) m f :
  NoDup (Order.id <$> l) -> o ∈ l -> shouldTrigger o price = true ->
  InsertionMap.get (Order.id o) (foldl (check_one cb price now) (m, f) l).1
  = Some (marked cb price now o).
Proof.
  revert m f. induction l as [|x l IH]; intros m f Hnd Hin Ht;
    [inversion Hin|].
  rewrite fmap_cons in Hnd. apply NoDup_cons in Hnd as [Hx Hnd].
  apply elem_of_cons in Hin as [->|Hin]; cbn [foldl].
  - unfold check_one at 2. rewrite Ht. cbn [fst snd].
    rewrite check_loop_untouched.
    + rewrite marked_id. apply get_set_eq.
    + intros o' Ho' _ Heq. apply Hx. rewrite <- Heq.
      apply list_elem_of_fmap_2, Ho'.
  - destruct (check_one cb price now (m, f) x) as [m' f'].
    apply IH; assumption.
Qed.

Lemma check_loop_wf (l : list Order.t) m f :
  orders_wf m -> orders_wf (foldl (check_one cb price now) (m, f) l).1.
Proof.
  revert m f. induction l as [|o l IH]; intros m f Hm; cbn [foldl];
    [exact Hm|].
  assert (Hstep : orders_wf (check_one cb price now (m, f) o).1).
  { unfold check_one. destruct (shouldTrigger o price); [|exact Hm].
    cbn [fst snd]. apply orders_wf_set, Hm. }
  destruct (check_one cb price now (m, f) o) as [m' f']. apply IH, Hstep.
Qed.

(** [checkLimitOrders] on the orders it looks at and on the others. *)
Lemma checkLimitOrders_fired (pm : t) (tokenAddress : string) (o : Order.t)
    (p : string) :
  (o, p) ∈ (checkLimitOrders cb pm tokenAddress price now).2
  <-> p = price /\ o ∈ candidates pm tokenAddress
      /\ shouldTrigger o price = true.
Proof.
  unfold checkLimitOrders. simpl. rewrite check_loop_fired. simpl.
  rewrite list_elem_of_fmap. split.
  - intros (o' & [= -> ->] & Hin). apply list_elem_of_filter in Hin. tauto.
  - intros (-> & Hin & Ht). exists o. split; [reflexivity|].
    apply list_elem_of_filter. tauto.
Qed.

Lemma checkLimitOrders_triggered (pm : t) (tokenAddress : string)
    (o : Order.t) :
  orders_wf (limitOrders pm) ->
  o ∈ candidates pm tokenAddress -> shouldTrigger o price = true ->
  InsertionMap.get (Order.id o)
    (limitOrders (checkLimitOrders cb pm tokenAddress price now).1)
  = Some (marked cb price now o).
Proof.
  intros Hwf Hin Ht. unfold checkLimitOrders. simpl.
  apply check_loop_marked; [apply candidates_ids, Hwf|exact Hin|exact Ht].
Qed.

Lemma checkLimitOrders_untouched (pm : t) (tokenAddress : string)
    (o : Order.t) :
  orders_wf (limitOrders pm) ->
  InsertionMap.get (Order.id o) (limitOrders pm) = Some o ->
  ~ (o ∈ candidates pm tokenAddress /\ shouldTrigger o price = true) ->
  InsertionMap.get (Order.id o)
    (limitOrders (checkLimitOrders cb pm tokenAddress price now).1)
  = Some o.
Proof.
  intros Hwf Hget Hnot. unfold checkLimitOrders. simpl.
  rewrite check_loop_untouched; [exact Hget|].
  intros o' Hin' Ht' Heq. apply Hnot.
  assert (o' = o) as ->; [|tauto].
  apply elem_of_candidates in Hin' as (Hin' & _).
  apply (stored_get _ _ Hwf) in Hin'. congruence.
Qed.

Lemma checkLimitOrders_wf (pm : t) (tokenAddress : string) :
  wf pm -> wf (checkLimitOrders cb pm tokenAddress price now).1.
Proof.
  intros (Ho & Hnd & Hlow). unfold checkLimitOrders. simpl.
  split; [apply check_loop_wf, Ho|split; assumption].
Qed.

End Loop.

(** *** A whole pass, [checkPrices] *)

Section Pass.
Variables (ch : Chain) (cb : option callback) (now : Z).
Hypothesis Hcb : keeps_id cb.

Lemma check_token_orders (pm : t) f (tokenAddress : string) :
  check_token ch cb now (pm, f) tokenAddress
  = ((checkLimitOrders cb
        {| monitoredTokens := monitoredTokens pm;
           priceCache :=
             <[toLowerCase tokenAddress :=
                 {| pu_tokenAddress := tokenAddress;
                    pu_pricePLS := getPrice ch tokenAddress;
                    pu_timestamp := now; pu_reserveToken := "0";
                    pu_reservePLS := "0" |}]> (priceCache pm);
           limitOrders := limitOrders pm; isRunning := isRunning pm |}
        tokenAddress (getPrice ch tokenAddress) now).1,
     f ++ (checkLimitOrders cb
             {| monitoredTokens := monitoredTokens pm;
                priceCache :=
                  <[toLowerCase tokenAddress :=
                      {| pu_tokenAddress := tokenAddress;
                         pu_pricePLS := getPrice ch tokenAddress;
                         pu_timestamp := now; pu_reserveToken := "0";
                         pu_reservePLS := "0" |}]> (priceCache pm);
                limitOrders := limitOrders pm; isRunning := isRunning pm |}
             tokenAddress (getPrice ch tokenAddress) now).2).
Proof. reflexivity. Qed.

(** An order that no token of the pass triggers is left as it is and is
    not among the orders fired. *)
Lemma pass_untouched (o : Order.t) (ts : list string) (pm : t) f :
  orders_wf (limitOrders pm) ->
  InsertionMap.get (Order.id o) (limitOrders pm) = Some o ->
  (forall a, a ∈ ts ->
     toLowerCase (Order.tokenAddress o) = toLowerCase a ->
     Order.status o = Order.pending ->
     shouldTrigger o (getPrice ch a) = false) ->
  let r := foldl (check_token ch cb now) (pm, f) ts in
  InsertionMap.get (Order.id o) (limitOrders r.1) = Some o
  /\ forall p, (o, p) ∈ r.2 -> (o, p) ∈ f.
Proof.
  revert pm f. induction ts as [|a ts IH]; intros pm f Hwf Hget Hno;
    cbn [foldl]; [split; [exact Hget|tauto]|].
  rewrite check_token_orders.
  set (pm1 := {| monitoredTokens := monitoredTokens pm;
                 priceCache := _; limitOrders := limitOrders pm;
                 isRunning := isRunning pm |}).
  assert (Hquiet : ~ (o ∈ candidates pm1 a
                      /\ shouldTrigger o (getPrice ch a) = true)).
  { intros [(_ & Htok & Hst)%elem_of_candidates Ht].
    rewrite (Hno a) in Ht;
      [discriminate|apply list_elem_of_here|exact Htok|exact Hst]. }
  destruct (IH (checkLimitOrders cb pm1 a (getPrice ch a) now).1
               (f ++ (checkLimitOrders cb pm1 a (getPrice ch a) now).2))
    as [Hfinal Hfired].
  - apply check_loop_wf, Hwf.
  - apply checkLimitOrders_untouched; assumption.
  - intros a' Ha'. apply Hno, list_elem_of_further, Ha'.
  - split; [exact Hfinal|]. intros p Hp.
    apply Hfired, elem_of_app in Hp as [Hp|Hp]; [exact Hp|].
    apply (checkLimitOrders_fired cb) in Hp as (_ & Hc & Ht). tauto.
Qed.

Lemma pass_fired_grows (ts : list string) (pm : t) f x :
  x ∈ f -> x ∈ (foldl (check_token ch cb now) (pm, f) ts).2.
Proof.
  revert pm f. induction ts as [|a ts IH]; intros pm f Hx; cbn [foldl];
    [exact Hx|].
  rewrite check_token_orders. apply IH, elem_of_app. left. exact Hx.
Qed.

(** A pending order whose token is in the pass, and which the price of
    its token triggers, fires at that price and ends up executed. *)
Lemma pass_fires (o : Order.t) (ts : list string) (pm : t) f :
  orders_wf (limitOrders pm) ->
  Forall (fun a => toLowerCase a = a) ts ->
  InsertionMap.get (Order.id o) (limitOrders pm) = Some o ->
  Order.status o = Order.pending ->
  toLowerCase (Order.tokenAddress o) ∈ ts ->
  shouldTrigger o (getPrice ch (toLowerCase (Order.tokenAddress o))) = true ->
  let r := foldl (check_token ch cb now) (pm, f) ts in
  (o, getPrice ch (toLowerCase (Order.tokenAddress o))) ∈ r.2
  /\ InsertionMap.get (Order.id o) (limitOrders r.1)
     = Some (marked cb (getPrice ch (toLowerCase (Order.tokenAddress o)))
               now o).
Proof.
  set (tok := toLowerCase (Order.tokenAddress o)).
  revert pm f. induction ts as [|a ts IH];
    intros pm f Hwf Hlow Hget Hst Hin Ht; [inversion Hin|].
  apply Forall_cons in Hlow as [Ha Hlow]. cbn [foldl].
  rewrite check_token_orders.
  set (pm1 := {| monitoredTokens := monitoredTokens pm;
                 priceCache := _; limitOrders := limitOrders pm;
                 isRunning := isRunning pm |}).
  destruct (decide (a = tok)) as [->|Hne].
  - assert (Hcand : o ∈ candidates pm1 tok).
    { apply elem_of_candidates. split; [apply (get_stored _ _ _ Hwf Hget)|].
      split; [|exact Hst]. subst tok. symmetry. apply toLowerCase_idemp. }
    pose proof (checkLimitOrders_triggered cb (getPrice ch tok) now Hcb
                  pm1 tok o Hwf Hcand Ht) as Hmarked.
    rewrite <- (marked_id cb (getPrice ch tok) now Hcb o) in Hmarked.
    destruct (pass_untouched (marked cb (getPrice ch tok) now o) ts
                (checkLimitOrders cb pm1 tok (getPrice ch tok) now).1
                (f ++ (checkLimitOrders cb pm1 tok (getPrice ch tok) now).2))
      as [Hfinal _].
    + apply check_loop_wf, Hwf.
    + exact Hmarked.
    + intros a' _ _ Hpending. discriminate Hpending.
    + split.
      * apply pass_fired_grows, elem_of_app. right.
        apply (checkLimitOrders_fired cb). tauto.
      * rewrite (marked_id cb (getPrice ch tok) now Hcb o) in Hfinal.
        exact Hfinal.
  - apply elem_of_cons in Hin as [Heq|Hin]; [congruence|].
    apply IH; try assumption.
    + apply check_loop_wf, Hwf.
    + apply checkLimitOrders_untouched; try assumption.
      intros [(_ & Htok & _)%elem_of_candidates _].
      apply Hne. fold tok in Htok. rewrite Ha in Htok. congruence.
Qed.

End Pass.

Section PassSound.
Variables (ch : Chain) (cb : option callback) (now : Z).

Lemma check_loop_values (price : string) (l : list Order.t) m f o' :
  o' ∈ InsertionMap.values (foldl (check_one cb price now) (m, f) l).1 ->
  o' ∈ InsertionMap.values m \/ Order.status o' = Order.executed.
Proof.
  revert m f. induction l as [|o l IH]; intros m f; cbn [foldl];
    [tauto|].
  unfold check_one at 2. destruct (shouldTrigger o price); [|apply IH].
  cbn [fst snd]. intros [Hin|Hex]%IH; [|right; exact Hex].
  unfold InsertionMap.values in Hin.
  apply list_elem_of_fmap in Hin as (kv & -> & [->|Hin]%elem_of_set).
  - right. reflexivity.
  - left. apply list_elem_of_fmap. exists kv. split; [reflexivity|exact Hin].
Qed.

Lemma pass_values (ts : list string) (pm : t) f o' :
  o' ∈ getLimitOrders (foldl (check_token ch cb now) (pm, f) ts).1 ->
  o' ∈ getLimitOrders pm \/ Order.status o' = Order.executed.
Proof.
  revert pm f. induction ts as [|a ts IH]; intros pm f; cbn [foldl];
    [tauto|].
  rewrite check_token_orders. intros [Hin|Hex]%IH; [|right; exact Hex].
  unfold getLimitOrders, checkLimitOrders in Hin. cbn in Hin.
  apply check_loop_values in Hin. exact Hin.
Qed.

Lemma pass_monitoredTokens (ts : list string) (pm : t) f :
  monitoredTokens (foldl (check_token ch cb now) (pm, f) ts).1
  = monitoredTokens pm.
Proof.
  revert pm f. induction ts as [|a ts IH]; intros pm f; cbn [foldl];
    [reflexivity|].
  rewrite check_token_orders, IH. reflexivity.
Qed.

(** What a pass fires was stored and pending before the pass, and the
    price of its token triggers it. *)
Lemma pass_fired_sound (ts : list string) (pm : t) f o p :
  (o, p) ∈ (foldl (check_token ch cb now) (pm, f) ts).2 ->
  (o, p) ∈ f
  \/ (o ∈ getLimitOrders pm /\ Order.status o = Order.pending
      /\ exists a, a ∈ ts
           /\ toLowerCase (Order.tokenAddress o) = toLowerCase a
           /\ p = getPrice ch a /\ shouldTrigger o p = true).
Proof.
  revert pm f. induction ts as [|a ts IH]; intros pm f; cbn [foldl];
    [tauto|].
  rewrite check_token_orders.
  intros [[Hf|Hfired]%elem_of_app|(Hin & Hst & a' & Ha' & Htok & Hp & Ht)]%IH.
  - left. exact Hf.
  - right. apply (checkLimitOrders_fired cb) in Hfired as (-> & Hc & Ht).
    apply elem_of_candidates in Hc as (Hin & Htok & Hst).
    split; [exact Hin|]. split; [exact Hst|].
    exists a. split; [apply list_elem_of_here|tauto].
  - right. split.
    + unfold getLimitOrders, checkLimitOrders in Hin. cbn in Hin.
      apply check_loop_values in Hin as [Hin|Hex]; [exact Hin|congruence].
    + split; [exact Hst|]. exists a'.
      split; [apply list_elem_of_further, Ha'|tauto].
Qed.

Lemma checkPrices_fired_sound (pm : t) (o : Order.t) (p : string) :
  (o, p) ∈ (checkPrices ch cb now pm).2 ->
  o ∈ getLimitOrders pm
  /\ Order.status o = Order.pending
  /\ (exists a, a ∈ monitoredTokens pm
        /\ toLowerCase (Order.tokenAddress o) = toLowerCase a
        /\ p = getPrice ch a)
  /\ shouldTrigger o p = true.
Proof.
  intros [Hnil|(Hin & Hst & a & Ha & Htok & Hp & Ht)]%pass_fired_sound;
    [inversion Hnil|].
  split; [exact Hin|]. split; [exact Hst|].
  split; [exists a; tauto|exact Ht].
Qed.

End PassSound.

End PriceMonitorFacts.

(** ** The automatic orders and their thresholds *)

Lemma append_inv_head (s x y : string) : s +:+ x = s +:+ y -> x = y.
Proof.
  induction s as [|c s IH]; simpl; [tauto|]. intros [= Heq]. apply IH, Heq.
Qed.

Lemma order_id_kinds_differ (tokenAddress : string) (now : Z) :
  AutoSellEngine.order_id tokenAddress Order.stop_loss now
  <> AutoSellEngine.order_id tokenAddress Order.take_profit now.
Proof.
  unfold AutoSellEngine.order_id. intros Heq.
  apply append_inv_head in Heq. discriminate Heq.
Qed.

Section ThresholdFacts.
Import PriceMonitor AutoSellEngine.
Context `{Host}.

Lemma createLimitOrder_ok
    (a : AutoSellEngine.t) (now : Z) (tokenAddress : string)
    (ty : Order.orderType_t) (target : string) (amount : option string)
    (q : Position.t) :
  PortfolioService.getPosition (portfolioService a) tokenAddress = Some q ->
  let order :=
    {| Order.id := order_id tokenAddress ty now;
       Order.tokenAddress := tokenAddress;
       Order.orderType := ty;
       Order.targetPricePLS := target;
       Order.amountTokens :=
         default (Position.amountTokens q) (truthy_string amount);
       Order.slippagePercent :=
         Config.slippagePercent (SniperEngine.getConfig (sniperEngine a));
       Order.createdAt := now;
       Order.executedAt := None;
       Order.transactionHash := None;
       Order.status := Order.pending |} in
  createLimitOrder a now tokenAddress ty target amount
  = Ok (set_priceMonitor (addLimitOrder order (priceMonitor a)) a, order).
Proof. intros Hq order. unfold createLimitOrder. rewrite Hq. reflexivity. Qed.

(** [addLimitOrder] has the token of the order monitored. *)
Lemma addLimitOrder_monitors (order : Order.t) (pm : PriceMonitor.t)
    (a : string) :
  a = toLowerCase (Order.tokenAddress order) ->
  a ∈ monitoredTokens (addLimitOrder order pm).
Proof.
  intros ->. unfold addLimitOrder, addToken.
  cbn [monitoredTokens set_limitOrders].
  destruct (decide (_ ∈ _)) as [Hin|_]; [exact Hin|].
  apply elem_of_app. right. apply list_elem_of_here.
Qed.

(** The orders [createAutoLimitOrders] registers for a position of the
    portfolio: one for each percentage that is configured, whatever the
    other is. *)
Lemma createAutoLimitOrders_registers
    (a : AutoSellEngine.t) (now : Z) (position q : Position.t) :
  let config := SniperEngine.getConfig (sniperEngine a) in
  let token := Position.tokenAddress position in
  let buyPrice := parseFloat (Position.buyPricePLS position) in
  Config.autoSellEnabled config = true ->
  PortfolioService.getPosition (portfolioService a) token = Some q ->
  let r := createAutoLimitOrders a now position in
  let order ty target :=
    {| Order.id := order_id token ty now;
       Order.tokenAddress := token;
       Order.orderType := ty;
       Order.targetPricePLS := Number_toString target;
       Order.amountTokens :=
         default (Position.amountTokens q)
                 (truthy_string (Some (Position.amountTokens position)));
       Order.slippagePercent := Config.slippagePercent config;
       Order.createdAt := now;
       Order.executedAt := None;
       Order.transactionHash := None;
       Order.status := Order.pending |} in
  r.2 = Ok tt
  /\ (forall tp,
        truthy_number (Config.takeProfitPercent config) = Some tp ->
        InsertionMap.get (order_id token Order.take_profit now)
          (limitOrders (priceMonitor r.1))
        = Some (order Order.take_profit (buyPrice * (1 + tp / 100))%float)
        /\ toLowerCase token ∈ monitoredTokens (priceMonitor r.1))
  /\ (forall sl,
        truthy_number (Config.stopLossPercent config) = Some sl ->
        InsertionMap.get (order_id token Order.stop_loss now)
          (limitOrders (priceMonitor r.1))
        = Some (order Order.stop_loss (buyPrice * (1 - sl / 100))%float)
        /\ toLowerCase token ∈ monitoredTokens (priceMonitor r.1)).
Proof.
  intros config token buyPrice Hauto Hq r order.
  subst r. unfold createAutoLimitOrders.
  fold config. rewrite Hauto. cbn [negb].
  destruct (truthy_number (Config.takeProfitPercent config)) as [tp|];
    destruct (truthy_number (Config.stopLossPercent config)) as [sl|].
  - rewrite (createLimitOrder_ok a now _ Order.take_profit _ _ q Hq).
    cbn [fst snd].
    rewrite (createLimitOrder_ok (set_priceMonitor _ a) now _ Order.stop_loss
               _ _ q Hq).
    cbn [fst snd priceMonitor set_priceMonitor sniperEngine].
    split; [reflexivity|]. split.
    + intros tp' [= <-]. split.
      * unfold addLimitOrder. cbn.
        rewrite get_set_ne by apply order_id_kinds_differ.
        rewrite get_set_eq. reflexivity.
      * apply addLimitOrder_monitors. reflexivity.
    + intros sl' [= <-]. split.
      * unfold addLimitOrder. cbn. rewrite get_set_eq. reflexivity.
      * apply addLimitOrder_monitors. reflexivity.
  - rewrite (createLimitOrder_ok a now _ Order.take_profit _ _ q Hq).
    cbn [fst snd priceMonitor set_priceMonitor sniperEngine].
    split; [reflexivity|]. split; [|intros sl' Hsl; discriminate Hsl].
    intros tp' [= <-]. split.
    + unfold addLimitOrder. cbn. rewrite get_set_eq. reflexivity.
    + apply addLimitOrder_monitors. reflexivity.
  - cbn [fst snd].
    rewrite (createLimitOrder_ok a now _ Order.stop_loss _ _ q Hq).
    cbn [fst snd priceMonitor set_priceMonitor sniperEngine].
    split; [reflexivity|]. split; [intros tp' Htp; discriminate Htp|].
    intros sl' [= <-]. split.
    + unfold addLimitOrder. cbn. rewrite get_set_eq. reflexivity.
    + apply addLimitOrder_monitors. reflexivity.
  - cbn [fst snd]. split; [reflexivity|].
    split; [intros tp' Htp; discriminate Htp|intros sl' Hsl; discriminate Hsl].
Qed.

Lemma on_triggered_keeps_id (pf : PortfolioService.t) (now : Z) :
  keeps_id (Some (on_triggered pf now)).
Proof.
  intros f [= <-] o p. unfold on_triggered.
  destruct (PortfolioService.getPosition pf (Order.tokenAddress o));
    reflexivity.
Qed.

(** A tick and one pending order of a monitored token: the order is handed
    to the callback at most at the price of its token, and exactly when
    that price triggers it; it is then stored as marked, and otherwise left
    as it was. *)
Lemma checkPrices_fires_when_triggered
    (ch : Chain) (cb : option callback) (now : Z) (pm : PriceMonitor.t)
    (o : Order.t) :
  wf pm ->
  keeps_id cb ->
  InsertionMap.get (Order.id o) (limitOrders pm) = Some o ->
  Order.status o = Order.pending ->
  toLowerCase (Order.tokenAddress o) ∈ monitoredTokens pm ->
  let r := checkPrices ch cb now pm in
  let price := getPrice ch (toLowerCase (Order.tokenAddress o)) in
  (forall price', (o, price') ∈ r.2 -> price' = price)
  /\ ((o, price) ∈ r.2 <-> shouldTrigger o price = true)
  /\ ((o, price) ∈ r.2 ->
      InsertionMap.get (Order.id o) (limitOrders r.1)
      = Some (marked cb price now o))
  /\ ((o, price) ∉ r.2 ->
      InsertionMap.get (Order.id o) (limitOrders r.1) = Some o).
Proof.
  intros (Hwf & Hnd & Hlow) Hcb Hget Hst Hin r price.
  assert (Hsame : forall a, a ∈ monitoredTokens pm ->
            toLowerCase (Order.tokenAddress o) = toLowerCase a ->
            a = toLowerCase (Order.tokenAddress o)).
  { intros a Ha Htok. rewrite Forall_forall in Hlow.
    rewrite (Hlow a Ha) in Htok. symmetry. exact Htok. }
  assert (Hprice : forall price', (o, price') ∈ r.2 ->
            price' = price /\ shouldTrigger o price = true).
  { intros price' (_ & _ & (a & Ha & Htok & ->) & Ht)%checkPrices_fired_sound.
    rewrite (Hsame a Ha Htok) in Ht |- *. split; [reflexivity|exact Ht]. }
  assert (Hfires : shouldTrigger o price = true ->
            (o, price) ∈ r.2
            /\ InsertionMap.get (Order.id o) (limitOrders r.1)
               = Some (marked cb price now o)).
  { intros Ht.
    exact (pass_fires ch cb now Hcb o (monitoredTokens pm) pm []
             Hwf Hlow Hget Hst Hin Ht). }
  split; [intros price' Hf; apply (Hprice price' Hf)|].
  split; [split; [intros Hf; apply (Hprice price Hf)|intros Ht; apply Hfires, Ht]|].
  split; [intros Hf; apply Hfires, (Hprice price Hf)|].
  intros Hnot.
  apply (pass_untouched ch cb now Hcb o (monitoredTokens pm) pm [] Hwf Hget).
  intros a Ha Htok _. rewrite (Hsame a Ha Htok). fold price.
  destruct (shouldTrigger o price) eqn:Ht; [|reflexivity].
  exfalso. apply Hnot, Hfires. reflexivity.
Qed.

(** C5.  In a tick of the monitor, [checkPrices], the price [p] of a
    monitored token is the one [getPrice] reads in that tick.  A pending
    take-profit order of the token with target [t] fires in the tick
    exactly when [p >= t], a pending stop-loss order exactly when
    [p <= t], and at no other price; an order that fires is marked
    executed, one that does not stays as it was, pending.  The orders
    [createAutoLimitOrders] registers, one for each percentage that is
    configured, have the targets
    [buyPrice * (1 + takeProfitPercent / 100)] and
    [buyPrice * (1 - stopLossPercent / 100)], are pending, and their token
    is monitored.  So a buy price of 100 with a take profit of 100 percent
    gives the target 200, which a tick at 199 does not fire and a tick at
    200 fires. *)
Theorem limit_orders_fire_at_their_targets :
  (forall (ch : Chain) (cb : option callback) (now : Z)
          (pm : PriceMonitor.t) (o : Order.t),
      wf pm ->
      keeps_id cb ->
      InsertionMap.get (Order.id o) (limitOrders pm) = Some o ->
      Order.status o = Order.pending ->
      toLowerCase (Order.tokenAddress o) ∈ monitoredTokens pm ->
      let r := checkPrices ch cb now pm in
      let price := getPrice ch (toLowerCase (Order.tokenAddress o)) in
      let p := parseFloat price in
      let t := parseFloat (Order.targetPricePLS o) in
      (forall price', (o, price') ∈ r.2 -> price' = price)
      /\ (Order.orderType o = Order.take_profit ->
          ((o, price) ∈ r.2 <-> Js.ge p t = true))
      /\ (Order.orderType o = Order.stop_loss ->
          ((o, price) ∈ r.2 <-> Js.le p t = true))
      /\ ((o, price) ∈ r.2 ->
          exists o', InsertionMap.get (Order.id o) (limitOrders r.1) = Some o'
                     /\ Order.status o' = Order.executed)
      /\ ((o, price) ∉ r.2 ->
          InsertionMap.get (Order.id o) (limitOrders r.1) = Some o))
  /\ (forall (a : AutoSellEngine.t) (now : Z) (position q : Position.t),
        let config := SniperEngine.getConfig (sniperEngine a) in
        let token := Position.tokenAddress position in
        let buyPrice := parseFloat (Position.buyPricePLS position) in
        Config.autoSellEnabled config = true ->
        PortfolioService.getPosition (portfolioService a) token = Some q ->
        let r := createAutoLimitOrders a now position in
        let pm := priceMonitor r.1 in
        r.2 = Ok tt
        /\ (forall tp,
              truthy_number (Config.takeProfitPercent config) = Some tp ->
              exists take,
                InsertionMap.get (order_id token Order.take_profit now)
                  (limitOrders pm) = Some take
                /\ Order.id take = order_id token Order.take_profit now
                /\ Order.tokenAddress take = token
                /\ Order.orderType take = Order.take_profit
                /\ Order.status take = Order.pending
                /\ Order.targetPricePLS take
                   = Number_toString (buyPrice * (1 + tp / 100))%float
                /\ toLowerCase token ∈ monitoredTokens pm)
        /\ (forall sl,
              truthy_number (Config.stopLossPercent config) = Some sl ->
              exists stop,
                InsertionMap.get (order_id token Order.stop_loss now)
                  (limitOrders pm) = Some stop
                /\ Order.id stop = order_id token Order.stop_loss now
                /\ Order.tokenAddress stop = token
                /\ Order.orderType stop = Order.stop_loss
                /\ Order.status stop = Order.pending
                /\ Order.targetPricePLS stop
                   = Number_toString (buyPrice * (1 - sl / 100))%float
                /\ toLowerCase token ∈ monitoredTokens pm))
  /\ (parseFloat "100" = 100%float ->
      parseFloat "199" = 199%float ->
      parseFloat "200" = 200%float ->
      Number_toString 200%float = "200" ->
      Number_toString (takeProfitTarget (parseFloat "100") 100) = "200"
      /\ forall (ch : Chain) (cb : option callback) (now : Z)
                (pm : PriceMonitor.t) (o : Order.t),
           wf pm ->
           keeps_id cb ->
           InsertionMap.get (Order.id o) (limitOrders pm) = Some o ->
           Order.status o = Order.pending ->
           toLowerCase (Order.tokenAddress o) ∈ monitoredTokens pm ->
           Order.orderType o = Order.take_profit ->
           Order.targetPricePLS o = "200" ->
           let r := checkPrices ch cb now pm in
           let price := getPrice ch (toLowerCase (Order.tokenAddress o)) in
           (price = "199" ->
            (forall price', (o, price') ∉ r.2)
            /\ InsertionMap.get (Order.id o) (limitOrders r.1) = Some o)
           /\ (price = "200" ->
               (o, "200") ∈ r.2
               /\ Order.status <$>
                    InsertionMap.get (Order.id o) (limitOrders r.1)
                  = Some Order.executed)).
Proof.
  split; [|split].
  - intros ch cb now pm o Hwf Hcb Hget Hst Hin r price p t.
    destruct (checkPrices_fires_when_triggered ch cb now pm o
                Hwf Hcb Hget Hst Hin)
      as (Honly & Hiff & Hmarked & Hleft).
    fold r price in Honly, Hiff, Hmarked, Hleft.
    split; [exact Honly|]. split; [|split; [|split]].
    + intros Hty. rewrite Hiff. unfold shouldTrigger. rewrite Hty. tauto.
    + intros Hty. rewrite Hiff. unfold shouldTrigger. rewrite Hty. tauto.
    + intros Hf. exists (marked cb price now o).
      split; [exact (Hmarked Hf)|reflexivity].
    + exact Hleft.
  - intros a now position q config token buyPrice Hauto Hq r pm.
    destruct (createAutoLimitOrders_registers a now position q Hauto Hq)
      as (Hok & Htake & Hstop).
    split; [exact Hok|]. split.
    + intros tp Htp. destruct (Htake tp Htp) as [Hget Hmon].
      eexists. split; [exact Hget|]. repeat split. exact Hmon.
    + intros sl Hsl. destruct (Hstop sl Hsl) as [Hget Hmon].
      eexists. split; [exact Hget|]. repeat split. exact Hmon.
  - intros H100 H199 H200 Hs200. split.
    + rewrite H100. exact Hs200.
    + intros ch cb now pm o Hwf Hcb Hget Hst Hin Hty Htarget r price.
      destruct (checkPrices_fires_when_triggered ch cb now pm o
                  Hwf Hcb Hget Hst Hin)
        as (Honly & Hiff & Hmarked & Hleft).
      fold r price in Honly, Hiff, Hmarked, Hleft.
      assert (Ht199 : shouldTrigger o "199" = false).
      { unfold shouldTrigger. rewrite Hty, Htarget, H199, H200. reflexivity. }
      assert (Ht200 : shouldTrigger o "200" = true).
      { unfold shouldTrigger. rewrite Hty, Htarget, H200. reflexivity. }
      split.
      * intros Hp. rewrite Hp in Honly, Hiff, Hleft.
        assert (Hnot : (o, "199") ∉ r.2).
        { intros Hf%Hiff. rewrite Ht199 in Hf. discriminate Hf. }
        split; [|exact (Hleft Hnot)].
        intros price' Hf. apply Hnot. rewrite <- (Honly price' Hf). exact Hf.
      * intros Hp. rewrite Hp in Hiff, Hmarked.
        assert (Hf : (o, "200") ∈ r.2) by (apply Hiff, Ht200).
        split; [exact Hf|]. rewrite (Hmarked Hf). reflexivity.
Qed.

End ThresholdFacts.

Lemma limit_orders_fire_at_their_targets_witness :
  let H := Examples.whole_host in
  let pm := AutoSellEngine.priceMonitor Examples.bot_with_orders in
  let cb :=
    Some (AutoSellEngine.on_triggered
            (AutoSellEngine.portfolioService Examples.bot_with_orders) 9) in
  let o := Examples.take_profit_order in
  ((o, "200") ∈ (PriceMonitor.checkPrices (Examples.chain 200 1) cb 9 pm).2)
  /\ (forall price',
        (o, price') ∉ (PriceMonitor.checkPrices (Examples.chain 199 1) cb 9 pm).2)
  /\ Number_toString (AutoSellEngine.takeProfitTarget (parseFloat "100") 100)
     = "200".
Proof.
  intros H pm cb o.
  destruct (limit_orders_fire_at_their_targets (H := H))
    as (_ & _ & Hscenario).
  destruct (Hscenario eq_refl eq_refl eq_refl eq_refl) as [Htarget Htick].
  assert (Hwf : PriceMonitor.wf pm).
  { split; [split|split].
    - refine (bool_decide_unpack (NoDup _) _). vm_compute. exact I.
    - repeat constructor.
    - refine (bool_decide_unpack (NoDup _) _). vm_compute. exact I.
    - repeat constructor. }
  destruct (Htick (Examples.chain 200 1) cb 9 pm o Hwf
              (on_triggered_keeps_id _ _) eq_refl eq_refl
              (list_elem_of_here _ _) eq_refl eq_refl)
    as [_ Hat200].
  destruct (Htick (Examples.chain 199 1) cb 9 pm o Hwf
              (on_triggered_keeps_id _ _) eq_refl eq_refl
              (list_elem_of_here _ _) eq_refl eq_refl)
    as [Hat199 _].
  split; [|split].
  - apply Hat200. reflexivity.
  - apply Hat199. reflexivity.
  - exact Htarget.
Defined.

(** ** A tick whose quote fails *)

Section QuoteFailureFacts.
Import PriceMonitor.
Context `{Host}.

Lemma getPrice_of_failed_quote (ch : Chain) (tokenAddress : string) :
  is_ok (quote ch tokenAddress) = false -> getPrice ch tokenAddress = "0".
Proof.
  unfold getPrice. destruct (quote ch tokenAddress); [discriminate|reflexivity].
Qed.

(** C10.  [getPrice] returns the string ["0"] whenever a call of its quote
    throws (reading the decimals, converting one token, asking the router)
    and never throws itself.  So in a pass of [checkPrices] where the quote
    of a monitored token fails, each pending stop-loss order of the token
    whose target is not negative fires, at the price ["0"], and ends up
    executed, while each pending take-profit order of the token whose
    target is positive does not fire and stays as it was. *)
Theorem failed_quote_fires_stop_losses :
  (forall (ch : Chain) (tokenAddress : string),
      ((exists msg, decimals ch tokenAddress = Throw msg)
       \/ (exists d msg,
             decimals ch tokenAddress = Ok d
             /\ parseUnits ch "1" d = Throw msg)
       \/ (exists d a msg,
             decimals ch tokenAddress = Ok d
             /\ parseUnits ch "1" d = Ok a
             /\ getAmountsOut ch a [tokenAddress; PULSEX_CONFIG.WPLS]
                = Throw msg)) ->
      is_ok (quote ch tokenAddress) = false
      /\ getPrice ch tokenAddress = "0")
  /\ (parseFloat "0" = 0%float ->
      forall (ch : Chain) (cb : option callback) (now : Z) (pm : t)
             (o : Order.t),
        wf pm ->
        keeps_id cb ->
        InsertionMap.get (Order.id o) (limitOrders pm) = Some o ->
        Order.status o = Order.pending ->
        toLowerCase (Order.tokenAddress o) ∈ monitoredTokens pm ->
        is_ok (quote ch (toLowerCase (Order.tokenAddress o))) = false ->
        let r := checkPrices ch cb now pm in
        let t := parseFloat (Order.targetPricePLS o) in
        (Order.orderType o = Order.stop_loss ->
         Js.le 0 t = true ->
         (o, "0") ∈ r.2
         /\ exists o', InsertionMap.get (Order.id o) (limitOrders r.1) = Some o'
                       /\ Order.status o' = Order.executed)
        /\ (Order.orderType o = Order.take_profit ->
            (0 <? t)%float = true ->
            (forall p, (o, p) ∉ r.2)
            /\ InsertionMap.get (Order.id o) (limitOrders r.1) = Some o)).
Proof.
  split.
  - intros ch tokenAddress Hfail.
    assert (Hq : is_ok (quote ch tokenAddress) = false).
    { unfold quote.
      destruct Hfail as [(m & Hd) | [(d & m & Hd & Hp)
                                    | (d & a & m & Hd & Hp & Ha)]];
        rewrite Hd; simpl; try reflexivity; rewrite Hp; simpl;
        try reflexivity.
      rewrite Ha. reflexivity. }
    split; [exact Hq|apply getPrice_of_failed_quote, Hq].
  - intros Hzero ch cb now pm o (Hwf & _ & Hlow) Hcb Hget Hst Hin Hq r t.
    pose proof (getPrice_of_failed_quote _ _ Hq) as Hprice.
    split.
    + intros Hty Ht.
      destruct (pass_fires ch cb now Hcb o (monitoredTokens pm) pm [])
        as [Hfired Hfinal]; try assumption.
      { rewrite Hprice. unfold shouldTrigger. rewrite Hty, Hzero. exact Ht. }
      rewrite Hprice in Hfired, Hfinal.
      split; [exact Hfired|]. eexists. split; [exact Hfinal|reflexivity].
    + intros Hty Ht.
      destruct (pass_untouched ch cb now Hcb o (monitoredTokens pm) pm [])
        as [Hfinal Hfired]; try assumption.
      { intros a Ha Htok _. rewrite Forall_forall in Hlow.
        rewrite (Hlow a Ha) in Htok. subst a. rewrite Hprice.
        unfold shouldTrigger. rewrite Hty, Hzero.
        apply float_pos_not_le_zero, Ht. }
      split; [|exact Hfinal].
      intros p Hp. apply Hfired in Hp. inversion Hp.
Qed.

End QuoteFailureFacts.

Lemma failed_quote_fires_stop_losses_witness :
  let H := Examples.whole_host in
  let pm := AutoSellEngine.priceMonitor Examples.bot_with_orders in
  let cb :=
    Some (AutoSellEngine.on_triggered
            (AutoSellEngine.portfolioService Examples.bot_with_orders) 9) in
  let r := PriceMonitor.checkPrices Examples.chain_without_quote cb 9 pm in
  PriceMonitor.getPrice Examples.chain_without_quote Examples.token = "0"
  /\ ((Examples.stop_loss_order, "0") ∈ r.2)
  /\ (forall p, (Examples.take_profit_order, p) ∉ r.2).
Proof.
  intros H pm cb r.
  destruct (failed_quote_fires_stop_losses (H := H)) as (Hquote & Hpass).
  assert (Hwf : PriceMonitor.wf pm).
  { split; [split|split].
    - refine (bool_decide_unpack (NoDup _) _). vm_compute. exact I.
    - repeat constructor.
    - refine (bool_decide_unpack (NoDup _) _). vm_compute. exact I.
    - repeat constructor. }
  split; [|split].
  - apply Hquote. right. right. exists 18, 1000, "execution reverted".
    repeat split.
  - apply (Hpass eq_refl Examples.chain_without_quote cb 9 pm
             Examples.stop_loss_order Hwf (on_triggered_keeps_id _ _)
             eq_refl eq_refl);
      [apply list_elem_of_here|reflexivity..].
  - apply (Hpass eq_refl Examples.chain_without_quote cb 9 pm
             Examples.take_profit_order Hwf (on_triggered_keeps_id _ _)
             eq_refl eq_refl);
      [apply list_elem_of_here|reflexivity..].
Defined.

(** ** The exit: from a fired order to the sale *)

Section ExitFacts.
Import AutoSellEngine.
Context `{Host}.

(** When [sellToken] throws, the [catch] block of [executeLimitOrder] marks
    the order failed and nothing else changes. *)
Lemma settle_thrown (ch : Chain) (now_tx now : Z) (s : sale)
    (a : AutoSellEngine.t) (msg : string) :
  SniperEngine.sellToken ch (sniperEngine a) now_tx now
    (Order.tokenAddress (s_order s)) (Some (Order.amountTokens (s_order s)))
  = Throw msg ->
  let a' := settle ch now_tx now s a in
  InsertionMap.get (Order.id (s_order s))
    (PriceMonitor.limitOrders (priceMonitor a'))
  = (fun o => Order.set_executedAt now (Order.set_status Order.failed o))
      <$> InsertionMap.get (Order.id (s_order s))
            (PriceMonitor.limitOrders (priceMonitor a))
  /\ portfolioService a' = portfolioService a
  /\ sniperEngine a' = sniperEngine a.
Proof.
  intros Hsell a'. subst a'. unfold settle. rewrite Hsell. cbn.
  rewrite get_mutate, decide_True by reflexivity. repeat split.
Qed.

End ExitFacts.

(** ** The order of a fired limit order and its sale *)

(** A run of the bot.  The take-profit order of the example fires at the
    price 200.  When the tick is over the order is already marked executed,
    while its sale is in flight: the engine and the portfolio are as
    before.  When the sale then throws, the order goes from executed to
    failed.  And when the portfolio holds no position for the token, no
    sale is even attempted and the order is executed all the same. *)
Example fired_order_run :
  let H := Examples.whole_host in
  let k := Order.id Examples.take_profit_order in
  let a0 := Examples.bot_with_orders in
  let a1 := AutoSellEngine.step a0 (AutoSellEngine.Tick (Examples.chain 200 1) 9) in
  let b1 :=
    AutoSellEngine.step Examples.bot_without_position
      (AutoSellEngine.Tick (Examples.chain 200 1) 9) in
  Examples.order_status k a0 = Some Order.pending
  /\ Examples.order_status k a1 = Some Order.executed
  /\ AutoSellEngine.inflight a1
     = [{| AutoSellEngine.s_order := Examples.take_profit_order;
           AutoSellEngine.s_currentPrice := "200" |}]
  /\ AutoSellEngine.sniperEngine a1 = AutoSellEngine.sniperEngine a0
  /\ AutoSellEngine.portfolioService a1 = AutoSellEngine.portfolioService a0
  /\ Examples.order_status k
       (AutoSellEngine.step a1
          (AutoSellEngine.Settle Examples.chain_rejecting 10 11))
     = Some Order.failed
  /\ Examples.order_status k b1 = Some Order.executed
  /\ AutoSellEngine.inflight b1 = [].
Proof. vm_compute. repeat split. Qed.

(** C1.  In a tick of the bot, a pending order whose token is monitored and
    which the price of the tick triggers is marked executed when the tick
    is over.  The tick only reads prices: it is the same on every chain
    that gives the same quotes, whatever that chain does with a
    transaction, and it leaves the engine and the portfolio as they were.
    So the order is executed before its sale is sent, let alone
    confirmed. *)
Theorem fired_order_is_executed_before_its_sale
    (H : Host) (a : AutoSellEngine.t) (ch : Chain) (now : Z) (o : Order.t) :
  let pm := AutoSellEngine.priceMonitor a in
  let token := toLowerCase (Order.tokenAddress o) in
  PriceMonitor.wf pm ->
  InsertionMap.get (Order.id o) (PriceMonitor.limitOrders pm) = Some o ->
  Order.status o = Order.pending ->
  token ∈ PriceMonitor.monitoredTokens pm ->
  PriceMonitor.shouldTrigger o (PriceMonitor.getPrice ch token) = true ->
  let a1 := AutoSellEngine.step a (AutoSellEngine.Tick ch now) in
  Order.status <$>
    InsertionMap.get (Order.id o)
      (PriceMonitor.limitOrders (AutoSellEngine.priceMonitor a1))
  = Some Order.executed
  /\ AutoSellEngine.sniperEngine a1 = AutoSellEngine.sniperEngine a
  /\ AutoSellEngine.portfolioService a1 = AutoSellEngine.portfolioService a
  /\ (forall ch',
        decimals ch' = decimals ch ->
        parseUnits ch' = parseUnits ch ->
        getAmountsOut ch' = getAmountsOut ch ->
        formatEther ch' = formatEther ch ->
        AutoSellEngine.step a (AutoSellEngine.Tick ch' now) = a1).
Proof.
  intros pm token (Hwf & Hnd & Hlow) Hget Hst Hin Ht a1.
  destruct (pass_fires ch
              (Some (AutoSellEngine.on_triggered
                       (AutoSellEngine.portfolioService a) now))
              now (on_triggered_keeps_id _ _) o
              (PriceMonitor.monitoredTokens pm) pm [])
    as [_ Hfinal]; try assumption.
  split.
  { subst a1. unfold AutoSellEngine.step, PriceMonitor.checkPrices.
    cbn [AutoSellEngine.priceMonitor]. fold pm. rewrite Hfinal. reflexivity. }
  split; [reflexivity|]. split; [reflexivity|].
  intros ch' Hd Hp Hg Hf. subst a1.
  unfold AutoSellEngine.step, PriceMonitor.checkPrices,
    PriceMonitor.check_token, PriceMonitor.getPrice, PriceMonitor.quote.
  rewrite Hd, Hp, Hg, Hf. reflexivity.
Qed.

Lemma fired_order_is_executed_before_its_sale_witness :
  let H := Examples.whole_host in
  let a1 :=
    AutoSellEngine.step Examples.bot_with_orders
      (AutoSellEngine.Tick (Examples.chain 200 1) 9) in
  Examples.order_status (Order.id Examples.take_profit_order) a1
  = Some Order.executed
  /\ AutoSellEngine.sniperEngine a1
     = AutoSellEngine.sniperEngine Examples.bot_with_orders
  /\ AutoSellEngine.step Examples.bot_with_orders
       (AutoSellEngine.Tick Examples.chain_rejecting 9) = a1.
Proof.
  intros H a1.
  assert (Hwf : PriceMonitor.wf
                  (AutoSellEngine.priceMonitor Examples.bot_with_orders)).
  { split; [split|split].
    - refine (bool_decide_unpack (NoDup _) _). vm_compute. exact I.
    - repeat constructor.
    - refine (bool_decide_unpack (NoDup _) _). vm_compute. exact I.
    - repeat constructor. }
  destruct (fired_order_is_executed_before_its_sale H
              Examples.bot_with_orders (Examples.chain 200 1) 9
              Examples.take_profit_order Hwf eq_refl eq_refl
              (list_elem_of_here _ _) eq_refl)
    as (Hexecuted & Hengine & _ & Hquotes).
  split; [exact Hexecuted|]. split; [exact Hengine|].
  apply Hquotes; reflexivity.
Defined.

(** ** The minimum output of a swap *)

Section SwapFacts.
Import SwapService Binary64.

Lemma buyRequest_minOut
    (ch : Chain) (sv : SwapService.t) (w : WalletService.t) (now : Z)
    (tokenAddress plsAmount : string) (s g : float) (gp : option string)
    (tx : Tx.request) :
  buyRequest ch sv w now tokenAddress plsAmount s g gp = Ok tx ->
  exists amountIn out,
    parseUnits ch plsAmount 18 = Ok amountIn
    /\ getAmountsOut ch amountIn [PULSEX_CONFIG.WPLS; tokenAddress] = Ok out
    /\ minOut_floored out s = Some (Tx.amountOutMin (Tx.data tx)).
Proof.
  unfold buyRequest, minOut_floored, BigInt_floor.
  destruct w as [a|]; [|discriminate].
  destruct (parseUnits ch plsAmount 18) as [amountIn|] eqn:Hin;
    [|discriminate].
  cbn [mbind result_bind].
  destruct (getAmountsOut ch amountIn _) as [out|] eqn:Hout; [|discriminate].
  destruct (floor_SF (Prim2SF (s * 100)%float)) as [bp|]; [|discriminate].
  cbn [mbind result_bind].
  destruct (estimateGas ch _) as [gas|]; [|discriminate].
  cbn [mbind result_bind].
  destruct (floor_SF (Prim2SF (Number_of_bigint gas * g)%float)) as [gl|];
    [|discriminate].
  destruct (gasPrice_of ch gp) as [price|]; [|discriminate].
  intros [= <-]. exists amountIn, out. repeat split. exact Hout.
Qed.

Lemma sellExpected_minOut
    (ch : Chain) (w : WalletService.t) (tokenAddress tokenAmount : string)
    (s : float) (x : Z * Z * Z) :
  sellExpected ch w tokenAddress tokenAmount s = Ok x ->
  exists dec,
    decimals ch tokenAddress = Ok dec
    /\ parseUnits ch tokenAmount dec = Ok x.1.1
    /\ getAmountsOut ch x.1.1 [tokenAddress; PULSEX_CONFIG.WPLS] = Ok x.1.2
    /\ minOut_floored x.1.2 s = Some x.2.
Proof.
  unfold sellExpected, minOut_floored, BigInt_floor.
  destruct w as [a|]; [|discriminate].
  destruct (decimals ch tokenAddress) as [dec|] eqn:Hdec; [|discriminate].
  cbn [mbind result_bind].
  destruct (parseUnits ch tokenAmount dec) as [amountIn|] eqn:Hin;
    [|discriminate].
  cbn [mbind result_bind].
  destruct (getAmountsOut ch amountIn _) as [out|] eqn:Hout; [|discriminate].
  destruct (floor_SF (Prim2SF (s * 100)%float)) as [bp|]; [|discriminate].
  cbn [mbind result_bind option_bind].
  intros [= <-]. exists dec. repeat split; assumption.
Qed.

(** C6, as the code has it.  For a slippage [s] in [[0, 100)] and a quoted
    output [q], the basis points are [bp = floor (s * 100)], between 0 and
    9999, and both swap paths compute [q * (10000 - bp) / 10000], in
    integers: the buy path puts it into its transaction, the sell path
    logs it as the minimum it expects.  This minimum does not go up when
    [s] goes up, and it is [q] at [s = 0]. *)
Theorem minOut_floors_the_basis_points (q : Z) (s : float) :
  0 <= q -> Js.le 0 s = true -> (s <? 100)%float = true ->
  exists bp,
    floor_SF (Prim2SF (s * 100)%float) = Some bp
    /\ 0 <= bp <= 9999
    /\ minOut_floored q s = Some (q * (10000 - bp) / 10000)
    /\ (forall ch sv w now tokenAddress plsAmount g gp tx,
          buyRequest ch sv w now tokenAddress plsAmount s g gp = Ok tx ->
          exists amountIn out,
            parseUnits ch plsAmount 18 = Ok amountIn
            /\ getAmountsOut ch amountIn [PULSEX_CONFIG.WPLS; tokenAddress]
               = Ok out
            /\ minOut_floored out s = Some (Tx.amountOutMin (Tx.data tx)))
    /\ (forall ch w tokenAddress tokenAmount amountIn out minAmountOut,
          sellExpected ch w tokenAddress tokenAmount s
          = Ok (amountIn, out, minAmountOut) ->
          exists dec,
            decimals ch tokenAddress = Ok dec
            /\ parseUnits ch tokenAmount dec = Ok amountIn
            /\ getAmountsOut ch amountIn [tokenAddress; PULSEX_CONFIG.WPLS]
               = Ok out
            /\ minOut_floored out s = Some minAmountOut)
    /\ minOut_floored q 0 = Some q
    /\ (forall s',
          Js.le 0 s' = true -> (s' <? 100)%float = true ->
          Js.le s s' = true ->
          exists m m',
            minOut_floored q s = Some m
            /\ minOut_floored q s' = Some m' /\ m' <= m).
Proof.
  intros Hq H0 H100. unfold Js.le in *.
  destruct (floor_slippage s H0 H100) as [Hbp Hrange].
  set (bp := floor_times_100 (units (Prim2SF s))) in *.
  assert (Hmin : minOut_floored q s = Some (q * (10000 - bp) / 10000)).
  { unfold minOut_floored. rewrite Hbp. cbn [mbind option_bind].
    rewrite Z.quot_div_nonneg; [reflexivity| |lia].
    apply Z.mul_nonneg_nonneg; lia. }
  exists bp. split; [exact Hbp|]. split; [exact Hrange|].
  split; [exact Hmin|].
  split; [intros; eapply buyRequest_minOut; eassumption|].
  split.
  { intros ch w tokenAddress tokenAmount amountIn out minAmountOut Hx.
    exact (sellExpected_minOut _ _ _ _ _ _ Hx). }
  split.
  - unfold minOut_floored. cbn. f_equal.
    rewrite Z.quot_div_nonneg by lia. apply Z.div_mul. discriminate.
  - intros s' H0' H100' Hle.
    destruct (floor_slippage s' H0' H100') as [Hbp' Hrange'].
    pose proof (slippage_le_units s s' H0 H100 H0' H100' Hle) as Hu.
    pose proof (floor_times_100_mono _ _
                  (conj (proj1 (proj2 (proj2 (slippage_range s H0 H100)))) Hu))
      as Hmono.
    fold bp in Hmono.
    set (bp' := floor_times_100 (units (Prim2SF s'))) in *.
    exists (q * (10000 - bp) / 10000), (q * (10000 - bp') / 10000).
    split; [exact Hmin|]. split.
    + unfold minOut_floored. rewrite Hbp'. cbn [mbind option_bind].
      rewrite Z.quot_div_nonneg; [reflexivity| |lia].
      apply Z.mul_nonneg_nonneg; lia.
    + apply Z.div_le_mono; [lia|].
      apply Z.mul_le_mono_nonneg_l; lia.
Qed.

End SwapFacts.

Lemma minOut_floors_the_basis_points_witness :
  exists bp,
    floor_SF (Prim2SF (10 * 100)%float) = Some bp
    /\ 0 <= bp <= 9999
    /\ SwapService.minOut_floored 12345 10%float
       = Some (12345 * (10000 - bp) / 10000)
    /\ SwapService.sellExpected (Examples.chain 12345 1) (Some "0xwallet")
         Examples.token "5" 10%float
       = Ok (1000, 12345, 12345 * (10000 - bp) / 10000).
Proof.
  destruct (minOut_floors_the_basis_points 12345 10%float)
    as (bp & Hbp & Hrange & Hmin & _ & Hsell & _);
    [lia|reflexivity|reflexivity|].
  exists bp. split; [exact Hbp|]. split; [exact Hrange|].
  split; [exact Hmin|].
  destruct (Hsell (Examples.chain 12345 1) (Some "0xwallet") Examples.token
              "5" 1000 12345 11110 eq_refl)
    as (_ & _ & _ & _ & Hfloor).
  rewrite Hmin in Hfloor. injection Hfloor as Heq. rewrite Heq. reflexivity.
Defined.

(** C6 as stated fails where [s * 100] has a fraction of a half or more:
    at a slippage of 0.1875 percent the code takes 18 basis points, the
    rounded formula 19, and for a quote of 10000 the buy path asks for 9982
    in its transaction and the sell path logs 9982, where the formula gives
    9981. *)
Lemma minOut_is_floored_not_rounded :
  let s := 0.1875%float in
  let sv := {| SwapService.routerAddress := PULSEX_CONFIG.routerV2 |} in
  let ch := Examples.chain 10000 1 in
  Js.le 0 s = true /\ (s <? 100)%float = true
  /\ round_SF (Prim2SF (s * 100)%float) = Some 19
  /\ floor_SF (Prim2SF (s * 100)%float) = Some 18
  /\ SwapService.minOut_rounded 10000 s = Some 9981
  /\ (exists tx,
        SwapService.buyRequest ch sv (Some "0xwallet") 0 Examples.token "100"
          s 1.2%float None = Ok tx
        /\ Tx.amountOutMin (Tx.data tx) = 9982)
  /\ SwapService.sellExpected ch (Some "0xwallet") Examples.token "5" s
     = Ok (1000, 10000, 9982).
Proof.
  repeat split; try (vm_compute; reflexivity).
  eexists; (split; [vm_compute; reflexivity|reflexivity]).
Qed.

(** * Further properties of the code *)

(** ** Insertion-ordered maps: removal *)

Section InsertionMapRemoval.
Context {V : Type}.
Implicit Types (m : InsertionMap.t V) (k : string) (v : V).

Lemma get_None_keys k m :
  InsertionMap.get k m = None <-> k ∉ InsertionMap.keys m.
Proof.
  unfold InsertionMap.keys. induction m as [|[k' v'] m IH]; simpl.
  - split; [intros _ Hin; inversion Hin|reflexivity].
  - destruct (decide (k = k')) as [->|Hne].
    + split; [discriminate|]. intros Hout. exfalso.
      apply Hout, list_elem_of_here.
    + rewrite IH, not_elem_of_cons. tauto.
Qed.

Lemma elem_of_delete kv k m : kv ∈ InsertionMap.delete k m -> kv ∈ m.
Proof.
  induction m as [|[k' v'] m IH]; simpl; [tauto|].
  destruct (decide (k = k')).
  - apply list_elem_of_further.
  - intros [->|Hin]%elem_of_cons; [apply list_elem_of_here|].
    apply list_elem_of_further, IH, Hin.
Qed.

Lemma keys_delete_sublist k m :
  InsertionMap.keys (InsertionMap.delete k m) `sublist_of` InsertionMap.keys m.
Proof.
  unfold InsertionMap.keys. induction m as [|[k' v'] m IH]; simpl;
    [reflexivity|].
  destruct (decide (k = k')); simpl.
  - apply sublist_cons. reflexivity.
  - apply sublist_skip, IH.
Qed.

Lemma get_delete_ne k k' m :
  k <> k' ->
  InsertionMap.get k' (InsertionMap.delete k m) = InsertionMap.get k' m.
Proof.
  intros Hne. induction m as [|[k0 v0] m IH]; simpl; [reflexivity|].
  destruct (decide (k = k0)) as [->|]; simpl.
  - rewrite decide_False by congruence. reflexivity.
  - destruct (decide (k' = k0)); [reflexivity|exact IH].
Qed.

Lemma get_delete_eq k m :
  NoDup (InsertionMap.keys m) ->
  InsertionMap.get k (InsertionMap.delete k m) = None.
Proof.
  unfold InsertionMap.keys. induction m as [|[k0 v0] m IH]; simpl;
    [reflexivity|].
  intros [Hout Hm]%NoDup_cons.
  destruct (decide (k = k0)) as [->|Hne]; simpl.
  - apply get_None_keys, Hout.
  - rewrite decide_False by assumption. apply IH, Hm.
Qed.

Lemma delete_set_fresh k v m :
  k ∉ InsertionMap.keys m ->
  InsertionMap.delete k (InsertionMap.set k v m) = m.
Proof.
  unfold InsertionMap.keys. induction m as [|[k0 v0] m IH]; simpl.
  - intros _. rewrite decide_True; reflexivity.
  - intros [Hne Hout]%not_elem_of_cons.
    rewrite decide_False by assumption. simpl.
    rewrite decide_False by assumption. f_equal. apply IH, Hout.
Qed.

End InsertionMapRemoval.

(** ** The price monitor: its shape *)

Section MonitorShape.
Import PriceMonitor.
Context `{Host}.

Lemma orders_wf_delete (os : InsertionMap.t Order.t) (k : string) :
  orders_wf os -> orders_wf (InsertionMap.delete k os).
Proof.
  intros [Hnd Hid]. split.
  - eapply sublist_NoDup; [exact Hnd|apply keys_delete_sublist].
  - apply Forall_forall. intros kv Hin%elem_of_delete.
    rewrite Forall_forall in Hid. apply Hid, Hin.
Qed.

Lemma addToken_wf (tokenAddress : string) (pm : t) :
  wf pm -> wf (addToken tokenAddress pm).
Proof.
  intros (Ho & Hnd & Hlow). unfold addToken, wf. cbn.
  split; [exact Ho|].
  destruct (decide (toLowerCase tokenAddress ∈ monitoredTokens pm))
    as [|Hout]; [split; assumption|].
  split.
  - apply NoDup_app. repeat split; [exact Hnd| |apply NoDup_singleton].
    intros x Hx ->%list_elem_of_singleton. contradiction.
  - apply Forall_app. split; [exact Hlow|].
    apply Forall_singleton, toLowerCase_idemp.
Qed.

Lemma removeToken_wf (tokenAddress : string) (pm : t) :
  wf pm -> wf (removeToken tokenAddress pm).
Proof.
  intros (Ho & Hnd & Hlow). unfold removeToken, wf. cbn.
  split; [exact Ho|]. split.
  - apply NoDup_filter, Hnd.
  - rewrite Forall_forall in *. intros a [_ Ha]%list_elem_of_filter.
    apply Hlow, Ha.
Qed.

Lemma addLimitOrder_wf (order : Order.t) (pm : t) :
  wf pm -> wf (addLimitOrder order pm).
Proof.
  intros (Ho & Hnd & Hlow). unfold addLimitOrder. apply addToken_wf.
  split; [apply orders_wf_set, Ho|split; assumption].
Qed.

Lemma removeLimitOrder_wf (orderId : string) (pm : t) :
  wf pm -> wf (removeLimitOrder orderId pm).
Proof.
  intros (Ho & Hnd & Hlow).
  split; [apply orders_wf_delete, Ho|split; assumption].
Qed.

Lemma pass_wf (ch : Chain) (cb : option callback) (now : Z)
    (ts : list string) (pm : t) f :
  wf pm -> wf (foldl (check_token ch cb now) (pm, f) ts).1.
Proof.
  revert pm f. induction ts as [|a ts IH]; intros pm f Hwf; cbn [foldl];
    [exact Hwf|].
  rewrite check_token_orders. apply IH.
  apply checkLimitOrders_wf. exact Hwf.
Qed.

(** X1.  The monitor keeps its shape: every order is stored under its own
    id, once, and the monitored tokens are lower-case and listed once.  A
    new monitor has this shape, and [addToken], [removeToken],
    [addLimitOrder], [removeLimitOrder] and a pass of [checkPrices], with a
    callback that leaves the id of an order alone, keep it. *)
Theorem monitor_keeps_its_shape (pm : t) :
  wf pm ->
  wf new
  /\ (forall tokenAddress, wf (addToken tokenAddress pm))
  /\ (forall tokenAddress, wf (removeToken tokenAddress pm))
  /\ (forall order, wf (addLimitOrder order pm))
  /\ (forall orderId, wf (removeLimitOrder orderId pm))
  /\ (forall ch cb now, keeps_id cb -> wf (checkPrices ch cb now pm).1).
Proof.
  intros Hwf. split.
  { repeat split; constructor. }
  split; [intros; apply addToken_wf, Hwf|].
  split; [intros; apply removeToken_wf, Hwf|].
  split; [intros; apply addLimitOrder_wf, Hwf|].
  split; [intros; apply removeLimitOrder_wf, Hwf|].
  intros ch cb now _. apply pass_wf, Hwf.
Qed.

End MonitorShape.

(** ** The price monitor: what a pass fires, and what it leaves *)

Section PassFacts.
Import PriceMonitor.
Context `{Host}.
Variables (ch : Chain) (cb : option callback) (now : Z).

(** X2.  A pass of [checkPrices] fires only what it should: every order
    handed to the callback was stored and pending when the pass began, its
    token is monitored, the price handed over is the price of that token in
    this pass, and that price triggers the order.  The pass leaves the list
    of monitored tokens as it was.  (For a callback that leaves the id of
    an order alone.) *)
Theorem checkPrices_fires_only_triggered_pending_orders
    (pm : t) (o : Order.t) (p : string) :
  keeps_id cb ->
  (o, p) ∈ (checkPrices ch cb now pm).2 ->
  o ∈ getLimitOrders pm
  /\ Order.status o = Order.pending
  /\ (exists a, a ∈ monitoredTokens pm
        /\ toLowerCase (Order.tokenAddress o) = toLowerCase a
        /\ p = getPrice ch a)
  /\ shouldTrigger o p = true
  /\ monitoredTokens (checkPrices ch cb now pm).1 = monitoredTokens pm.
Proof.
  intros _ (Hin & Hst & Ha & Ht)%checkPrices_fired_sound.
  repeat (split; [assumption|]). apply pass_monitoredTokens.
Qed.

End PassFacts.

Section FiringOnce.
Import PriceMonitor.
Context `{Host}.

Lemma passes_wf (ps : list (Chain * option callback * Z)) (pm : t) :
  wf pm -> wf (passes ps pm).1.
Proof.
  revert pm. induction ps as [|[[ch cb] now] ps IH]; intros pm Hwf;
    [exact Hwf|].
  cbn [passes fst]. apply IH, pass_wf, Hwf.
Qed.

(** A pass stores no order under an id that has none. *)
Lemma pass_absent (ch : Chain) (cb : option callback) (now : Z) (k : string)
    (ts : list string) (pm : t) f :
  keeps_id cb ->
  orders_wf (limitOrders pm) ->
  InsertionMap.get k (limitOrders pm) = None ->
  InsertionMap.get k (limitOrders (foldl (check_token ch cb now) (pm, f) ts).1)
  = None.
Proof.
  intros Hcb. revert pm f.
  induction ts as [|a ts IH]; intros pm f Ho Hnone; cbn [foldl];
    [exact Hnone|].
  rewrite check_token_orders. apply IH.
  - unfold checkLimitOrders. cbn. apply check_loop_wf, Ho.
  - unfold checkLimitOrders. cbn [fst limitOrders set_limitOrders].
    rewrite check_loop_untouched; [exact Hnone|exact Hcb|].
    intros o [Hin _]%elem_of_candidates _ Hid.
    apply (stored_get _ _ Ho) in Hin. congruence.
Qed.

(** An order that is not pending, or whose token is not monitored, is left
    as it is by a pass, and the pass fires no order with its id. *)
Lemma pass_quiet (ch : Chain) (cb : option callback) (now : Z) (pm : t)
    (o : Order.t) :
  wf pm ->
  keeps_id cb ->
  InsertionMap.get (Order.id o) (limitOrders pm) = Some o ->
  Order.status o <> Order.pending
  \/ toLowerCase (Order.tokenAddress o) ∉ monitoredTokens pm ->
  let r := checkPrices ch cb now pm in
  InsertionMap.get (Order.id o) (limitOrders r.1) = Some o
  /\ (forall o' p, (o', p) ∈ r.2 -> Order.id o' <> Order.id o)
  /\ (Order.status o <> Order.pending
      \/ toLowerCase (Order.tokenAddress o) ∉ monitoredTokens r.1).
Proof.
  intros Hwf Hcb Hget Hq r. pose proof Hwf as (Ho & Hnd & Hlow).
  assert (Hoff : forall a,
            a ∈ monitoredTokens pm ->
            toLowerCase (Order.tokenAddress o) = toLowerCase a ->
            Order.status o = Order.pending -> False).
  { intros a Ha Htok Hst. destruct Hq as [Hq|Hq]; [exact (Hq Hst)|].
    apply Hq. rewrite Htok. rewrite Forall_forall in Hlow.
    rewrite (Hlow a Ha). exact Ha. }
  destruct (pass_untouched ch cb now Hcb o (monitoredTokens pm) pm [])
    as [Hstay _]; [exact Ho|exact Hget| |].
  { intros a Ha Htok Hst. destruct (Hoff a Ha Htok Hst). }
  split; [exact Hstay|]. split.
  - intros o' p Hin Hid.
    apply checkPrices_fired_sound in Hin
      as (Hin & Hst & (a & Ha & Htok & _) & _).
    apply (stored_get _ _ Ho) in Hin. rewrite Hid, Hget in Hin.
    injection Hin as Heq. subst o'. exact (Hoff a Ha Htok Hst).
  - unfold r, checkPrices. rewrite pass_monitoredTokens. exact Hq.
Qed.

Lemma passes_quiet (o : Order.t) (ps : list (Chain * option callback * Z))
    (pm : t) :
  wf pm ->
  Forall (fun q : Chain * option callback * Z => keeps_id q.1.2) ps ->
  InsertionMap.get (Order.id o) (limitOrders pm) = Some o ->
  Order.status o <> Order.pending
  \/ toLowerCase (Order.tokenAddress o) ∉ monitoredTokens pm ->
  InsertionMap.get (Order.id o) (limitOrders (passes ps pm).1) = Some o
  /\ forall o' p, (o', p) ∈ (passes ps pm).2 -> Order.id o' <> Order.id o.
Proof.
  revert pm.
  induction ps as [|[[ch cb] now] ps IH]; intros pm Hwf Hk Hget Hq.
  - split; [exact Hget|]. intros o' p Hin. inversion Hin.
  - apply Forall_cons in Hk as [Hcb Hk]. cbn [fst snd] in Hcb.
    cbn [passes fst snd].
    destruct (pass_quiet ch cb now pm o Hwf Hcb Hget Hq)
      as (Hstay & Hnow & Hq').
    destruct (IH (checkPrices ch cb now pm).1 (pass_wf _ _ _ _ _ _ Hwf) Hk
                Hstay Hq')
      as [Hfinal Hlater].
    split; [exact Hfinal|].
    intros o' p [Hin|Hin]%elem_of_app;
      [exact (Hnow o' p Hin)|exact (Hlater o' p Hin)].
Qed.

Lemma passes_absent (k : string) (ps : list (Chain * option callback * Z))
    (pm : t) :
  wf pm ->
  Forall (fun q : Chain * option callback * Z => keeps_id q.1.2) ps ->
  InsertionMap.get k (limitOrders pm) = None ->
  InsertionMap.get k (limitOrders (passes ps pm).1) = None
  /\ forall o p, (o, p) ∈ (passes ps pm).2 -> Order.id o <> k.
Proof.
  revert pm.
  induction ps as [|[[ch cb] now] ps IH]; intros pm Hwf Hk Hnone.
  - split; [exact Hnone|]. intros o p Hin. inversion Hin.
  - apply Forall_cons in Hk as [Hcb Hk]. cbn [fst snd] in Hcb.
    cbn [passes fst snd].
    assert (Hnone' : InsertionMap.get k
                       (limitOrders (checkPrices ch cb now pm).1) = None).
    { apply pass_absent; [exact Hcb|exact (proj1 Hwf)|exact Hnone]. }
    destruct (IH (checkPrices ch cb now pm).1 (pass_wf _ _ _ _ _ _ Hwf) Hk
                Hnone')
      as [Hfinal Hlater].
    split; [exact Hfinal|].
    intros o p [Hin|Hin]%elem_of_app; [|exact (Hlater o p Hin)].
    intros Hid. apply checkPrices_fired_sound in Hin as (Hin & _).
    apply (stored_get _ _ (proj1 Hwf)) in Hin. congruence.
Qed.

(** X3.  An order fires at most once.  An order that is not pending
    (executed, failed, cancelled) is left as it is by every pass, and no
    pass hands an order with its id to the callback; and once a pass has
    fired an order, no later pass, however many there are and whatever the
    prices, fires an order with its id again.  (For callbacks that leave
    the id of an order alone.) *)
Theorem limit_order_fires_at_most_once
    (ch : Chain) (cb : option callback) (now : Z) (pm : t) (o : Order.t) :
  wf pm ->
  keeps_id cb ->
  InsertionMap.get (Order.id o) (limitOrders pm) = Some o ->
  (Order.status o <> Order.pending ->
   forall ps,
     Forall (fun q : Chain * option callback * Z => keeps_id q.1.2) ps ->
     InsertionMap.get (Order.id o) (limitOrders (passes ps pm).1) = Some o
     /\ forall o' p', (o', p') ∈ (passes ps pm).2 ->
          Order.id o' <> Order.id o)
  /\ (forall p, (o, p) ∈ (checkPrices ch cb now pm).2 ->
      forall ps,
        Forall (fun q : Chain * option callback * Z => keeps_id q.1.2) ps ->
        forall o' p',
          (o', p') ∈ (passes ps (checkPrices ch cb now pm).1).2 ->
          Order.id o' <> Order.id o).
Proof.
  intros Hwf Hcb Hget. pose proof Hwf as (Ho & Hnd & Hlow). split.
  - intros Hst ps Hps. apply passes_quiet; try assumption. left. exact Hst.
  - intros p Hp ps Hps o' p' Hp'.
    apply checkPrices_fired_sound in Hp
      as (_ & Hst & (a & Ha & Htok & ->) & Ht).
    assert (Hlower : toLowerCase (Order.tokenAddress o) = a).
    { rewrite Htok. rewrite Forall_forall in Hlow. apply Hlow, Ha. }
    destruct (pass_fires ch cb now Hcb o (monitoredTokens pm) pm [])
      as [_ Hfinal]; try assumption.
    { rewrite Hlower. exact Ha. }
    { rewrite Hlower. exact Ht. }
    set (o1 := marked cb (getPrice ch (toLowerCase (Order.tokenAddress o)))
                 now o) in *.
    assert (Hid : Order.id o1 = Order.id o) by (apply marked_id, Hcb).
    rewrite <- Hid in Hfinal |- *.
    refine (proj2 (passes_quiet o1 ps (checkPrices ch cb now pm).1
                     (pass_wf _ _ _ _ _ _ Hwf) Hps Hfinal _) o' p' Hp').
    left. unfold o1. rewrite marked_status. discriminate.
Qed.

(** X4.  A cancelled order is gone and stays quiet: after
    [removeLimitOrder] the id has no order, the other orders and the
    monitored tokens (that of the cancelled order included) are as before,
    and through any number of later passes the id has no order and no order
    with that id is fired. *)
Theorem removed_order_never_fires (pm : t) (orderId : string) :
  wf pm ->
  let pm' := removeLimitOrder orderId pm in
  InsertionMap.get orderId (limitOrders pm') = None
  /\ (forall k, k <> orderId ->
        InsertionMap.get k (limitOrders pm') = InsertionMap.get k (limitOrders pm))
  /\ monitoredTokens pm' = monitoredTokens pm
  /\ (forall ps,
        Forall (fun q : Chain * option callback * Z => keeps_id q.1.2) ps ->
        InsertionMap.get orderId (limitOrders (passes ps pm').1) = None
        /\ forall o p, (o, p) ∈ (passes ps pm').2 -> Order.id o <> orderId).
Proof.
  intros Hwf pm'. pose proof Hwf as (Ho & _).
  assert (Hnone : InsertionMap.get orderId (limitOrders pm') = None).
  { apply get_delete_eq, Ho. }
  split; [exact Hnone|].
  split; [intros k Hk; apply get_delete_ne; congruence|].
  split; [reflexivity|].
  intros ps Hps. apply passes_absent; [|exact Hps|exact Hnone].
  apply removeLimitOrder_wf, Hwf.
Qed.

(** X5.  [removeToken] stops the checks of a token and forgets its cached
    price, but keeps its orders: they stay stored as they are, and through
    any number of later passes, whatever the prices, they are neither
    changed nor fired. *)
Theorem removeToken_silences_the_orders_of_the_token
    (pm : t) (tokenAddress : string) (o : Order.t) :
  wf pm ->
  InsertionMap.get (Order.id o) (limitOrders pm) = Some o ->
  toLowerCase (Order.tokenAddress o) = toLowerCase tokenAddress ->
  let pm' := removeToken tokenAddress pm in
  limitOrders pm' = limitOrders pm
  /\ (toLowerCase tokenAddress ∉ monitoredTokens pm')
  /\ getCachedPrice pm' tokenAddress = None
  /\ (forall ps,
        Forall (fun q : Chain * option callback * Z => keeps_id q.1.2) ps ->
        InsertionMap.get (Order.id o) (limitOrders (passes ps pm').1) = Some o
        /\ forall o' p, (o', p) ∈ (passes ps pm').2 ->
             Order.id o' <> Order.id o).
Proof.
  intros Hwf Hget Htok pm'.
  assert (Hout : toLowerCase tokenAddress ∉ monitoredTokens pm').
  { intros [Hne _]%list_elem_of_filter. apply Hne. reflexivity. }
  split; [reflexivity|]. split; [exact Hout|].
  split; [apply lookup_delete_eq|].
  intros ps Hps. apply passes_quiet; [|exact Hps|exact Hget|].
  - apply removeToken_wf, Hwf.
  - right. rewrite Htok. exact Hout.
Qed.

End FiringOnce.

(** ** The exit engine: orders, sales and what follows them *)

Section MutateFacts.
Context {V : Type}.
Implicit Types (m : InsertionMap.t V) (k : string) (v : V).

Lemma keys_mutate k (f : V -> V) m :
  InsertionMap.keys (InsertionMap.mutate k f m) = InsertionMap.keys m.
Proof.
  unfold InsertionMap.keys. induction m as [|[k' v'] m IH]; simpl;
    [reflexivity|].
  destruct (decide (k = k')); simpl; [reflexivity|]. f_equal. exact IH.
Qed.

Lemma elem_of_mutate kv k (f : V -> V) m :
  kv ∈ InsertionMap.mutate k f m ->
  kv ∈ m \/ exists v, (k, v) ∈ m /\ kv = (k, f v).
Proof.
  induction m as [|[k' v'] m IH]; simpl; [tauto|].
  destruct (decide (k = k')) as [->|].
  - intros [->|Hin]%elem_of_cons.
    + right. exists v'. split; [apply list_elem_of_here|reflexivity].
    + left. apply list_elem_of_further, Hin.
  - intros [->|Hin]%elem_of_cons; [left; apply list_elem_of_here|].
    destruct (IH Hin) as [Hin'|(v & Hv & ->)].
    + left. apply list_elem_of_further, Hin'.
    + right. exists v. split; [apply list_elem_of_further, Hv|reflexivity].
Qed.

End MutateFacts.

Section SaleFacts.
Import PriceMonitor AutoSellEngine.
Context `{Host}.

Lemma orders_wf_mutate (os : InsertionMap.t Order.t) (k : string)
    (f : Order.t -> Order.t) :
  (forall o, Order.id (f o) = Order.id o) ->
  orders_wf os -> orders_wf (InsertionMap.mutate k f os).
Proof.
  intros Hf [Hnd Hid]. split; [rewrite keys_mutate; exact Hnd|].
  rewrite Forall_forall in *.
  intros kv [Hin|(v & Hv & ->)]%elem_of_mutate; [apply Hid, Hin|].
  cbn. rewrite Hf. apply (Hid _ Hv).
Qed.

(** The monitor after a sale has settled, either way, has its shape. *)
Lemma settle_wf (ch : Chain) (now_tx now : Z) (s : sale)
    (a : AutoSellEngine.t) :
  wf (priceMonitor a) -> wf (priceMonitor (settle ch now_tx now s a)).
Proof.
  intros (Ho & Hnd & Hlow). unfold settle.
  destruct (SniperEngine.sellToken _ _ _ _ _ _) as [[[e' txHash] ns]|msg];
    cbn [priceMonitor set_priceMonitor].
  - apply removeToken_wf. split; [|split; assumption].
    apply orders_wf_mutate; [reflexivity|exact Ho].
  - split; [|split; assumption].
    apply orders_wf_mutate; [reflexivity|exact Ho].
Qed.

(** The sales a tick starts are sales of orders the tick fired. *)
Lemma tick_inflight (a : AutoSellEngine.t) (ch : Chain) (now : Z) (s : sale) :
  s ∈ inflight (step a (Tick ch now)) ->
  s ∈ inflight a
  \/ (s_order s, s_currentPrice s)
     ∈ (checkPrices ch (Some (on_triggered (portfolioService a) now)) now
          (priceMonitor a)).2.
Proof.
  cbn [step inflight]. intros [Hin|Hin]%elem_of_app; [left; exact Hin|].
  right. unfold suspended in Hin.
  apply list_elem_of_omap in Hin as ([o p] & Hin & Hs).
  cbn in Hs. destruct (PortfolioService.getPosition _ _); [|discriminate].
  injection Hs as <-. exact Hin.
Qed.

(** An order that is not pending, or whose token is not monitored, and
    that has no sale in flight, stays as it is and without a sale through
    whatever happens to the bot. *)
Lemma step_quiet (o : Order.t) (ev : event) (a : AutoSellEngine.t) :
  wf (priceMonitor a) ->
  InsertionMap.get (Order.id o) (limitOrders (priceMonitor a)) = Some o ->
  Order.status o <> Order.pending
  \/ toLowerCase (Order.tokenAddress o) ∉ monitoredTokens (priceMonitor a) ->
  (forall s, s ∈ inflight a -> Order.id (s_order s) <> Order.id o) ->
  wf (priceMonitor (step a ev))
  /\ InsertionMap.get (Order.id o) (limitOrders (priceMonitor (step a ev)))
     = Some o
  /\ (Order.status o <> Order.pending
      \/ toLowerCase (Order.tokenAddress o)
         ∉ monitoredTokens (priceMonitor (step a ev)))
  /\ (forall s, s ∈ inflight (step a ev) ->
        Order.id (s_order s) <> Order.id o).
Proof.
  intros Hwf Hget Hq Hfl. destruct ev as [ch now|ch now_tx now].
  - destruct (pass_quiet ch (Some (on_triggered (portfolioService a) now)) now
                (priceMonitor a) o Hwf (on_triggered_keeps_id _ _) Hget Hq)
      as (Hstay & Hnow & Hq').
    split; [apply pass_wf, Hwf|]. split; [exact Hstay|]. split; [exact Hq'|].
    intros s [Hin|Hfired]%tick_inflight; [exact (Hfl s Hin)|].
    exact (Hnow _ _ Hfired).
  - cbn [step]. destruct (inflight a) as [|s rest] eqn:Hinflight.
    { split; [exact Hwf|]. split; [exact Hget|]. split; [exact Hq|].
      rewrite Hinflight. exact Hfl. }
    assert (Hs : Order.id (s_order s) <> Order.id o).
    { apply Hfl. apply list_elem_of_here. }
    assert (Hrest : forall s', s' ∈ rest ->
              Order.id (s_order s') <> Order.id o).
    { intros s' Hin. apply Hfl. apply list_elem_of_further, Hin. }
    split; [apply settle_wf; exact Hwf|].
    unfold settle. cbn [sniperEngine priceMonitor portfolioService inflight].
    destruct (SniperEngine.sellToken _ _ _ _ _ _) as [[[e' txHash] ns]|msg];
      cbn [priceMonitor set_priceMonitor inflight limitOrders
           set_limitOrders removeToken monitoredTokens].
    + split; [rewrite get_mutate, decide_False by exact Hs; exact Hget|].
      split; [|exact Hrest].
      destruct Hq as [Hq|Hq]; [left; exact Hq|right].
      intros [_ Hin]%list_elem_of_filter. exact (Hq Hin).
    + split; [rewrite get_mutate, decide_False by exact Hs; exact Hget|].
      split; [exact Hq|exact Hrest].
Qed.

Lemma run_quiet (o : Order.t) (evs : list event) (a : AutoSellEngine.t) :
  wf (priceMonitor a) ->
  InsertionMap.get (Order.id o) (limitOrders (priceMonitor a)) = Some o ->
  Order.status o <> Order.pending
  \/ toLowerCase (Order.tokenAddress o) ∉ monitoredTokens (priceMonitor a) ->
  (forall s, s ∈ inflight a -> Order.id (s_order s) <> Order.id o) ->
  InsertionMap.get (Order.id o) (limitOrders (priceMonitor (run a evs)))
  = Some o
  /\ (forall s, s ∈ inflight (run a evs) ->
        Order.id (s_order s) <> Order.id o).
Proof.
  revert a. induction evs as [|ev evs IH]; intros a Hwf Hget Hq Hfl;
    [split; assumption|].
  destruct (step_quiet o ev a Hwf Hget Hq Hfl) as (Hwf' & Hget' & Hq' & Hfl').
  exact (IH (step a ev) Hwf' Hget' Hq' Hfl').
Qed.

(** No event sells anything: a tick only reads prices, and a sale that
    settles has thrown.  So the portfolio and the engine stay as they are
    through whatever happens to the bot. *)
Lemma step_keeps_positions (ev : event) (a : AutoSellEngine.t) :
  portfolioService (step a ev) = portfolioService a
  /\ sniperEngine (step a ev) = sniperEngine a.
Proof.
  destruct ev as [ch now|ch now_tx now]; [split; reflexivity|].
  cbn [step]. destruct (inflight a) as [|s rest]; [split; reflexivity|].
  unfold settle. cbn [sniperEngine priceMonitor portfolioService].
  pose proof (sellToken_throws ch (sniperEngine a) now_tx now
                (Order.tokenAddress (s_order s))
                (Some (Order.amountTokens (s_order s)))) as Hsell.
  destruct (SniperEngine.sellToken _ _ _ _ _ _) as [x|msg];
    [discriminate Hsell|split; reflexivity].
Qed.

Lemma run_keeps_positions (evs : list event) (a : AutoSellEngine.t) :
  portfolioService (run a evs) = portfolioService a
  /\ sniperEngine (run a evs) = sniperEngine a.
Proof.
  revert a. induction evs as [|ev evs IH]; intros a; [split; reflexivity|].
  unfold run. cbn [foldl]. fold (run (step a ev) evs).
  destruct (IH (step a ev)) as [Hpf He].
  destruct (step_keeps_positions ev a) as [Hpf' He'].
  split; congruence.
Qed.

(** C3.  The sale of a fired limit order fails, and when it settles the
    order is stored as failed, with the time, while the portfolio and the
    engine are as before: a position that was holding is holding, not sold.
    Through whatever follows, ticks and other sales that settle, the order
    stays failed, no sale is started for it again, and the portfolio and
    the engine do not change.  (No other sale of the order is in flight
    when this one settles.) *)
Theorem failed_sale_ends_failed_and_held
    (ch : Chain) (now_tx now : Z) (s : sale) (a : AutoSellEngine.t)
    (o : Order.t) :
  let order := s_order s in
  wf (priceMonitor a) ->
  (forall s', s' ∈ inflight a -> Order.id (s_order s') <> Order.id order) ->
  InsertionMap.get (Order.id order) (limitOrders (priceMonitor a)) = Some o ->
  let a' := settle ch now_tx now s a in
  let failed := Order.set_executedAt now (Order.set_status Order.failed o) in
  is_ok (SniperEngine.sellToken ch (sniperEngine a) now_tx now
           (Order.tokenAddress order) (Some (Order.amountTokens order)))
  = false
  /\ InsertionMap.get (Order.id order) (limitOrders (priceMonitor a'))
     = Some failed
  /\ Order.status failed = Order.failed
  /\ portfolioService a' = portfolioService a
  /\ sniperEngine a' = sniperEngine a
  /\ (forall evs,
        InsertionMap.get (Order.id order)
          (limitOrders (priceMonitor (run a' evs)))
        = Some failed
        /\ (forall s', s' ∈ inflight (run a' evs) ->
              Order.id (s_order s') <> Order.id order)
        /\ portfolioService (run a' evs) = portfolioService a
        /\ sniperEngine (run a' evs) = sniperEngine a).
Proof.
  intros order Hwf Hfl Hget a' failed.
  pose proof (sellToken_throws ch (sniperEngine a) now_tx now
                (Order.tokenAddress order)
                (Some (Order.amountTokens order))) as Hthrows.
  destruct (SniperEngine.sellToken ch (sniperEngine a) now_tx now
              (Order.tokenAddress order) (Some (Order.amountTokens order)))
    as [x|msg] eqn:Hsell; [discriminate Hthrows|].
  destruct (settle_thrown ch now_tx now s a msg Hsell)
    as (Horder & Hpf & He).
  fold order a' in Horder, Hpf, He. rewrite Hget in Horder. cbn in Horder.
  assert (Hfl' : inflight a' = inflight a).
  { subst a'. unfold settle. fold order. rewrite Hsell. reflexivity. }
  split; [reflexivity|]. split; [exact Horder|]. split; [reflexivity|].
  split; [exact Hpf|]. split; [exact He|].
  intros evs.
  assert (Hwf' : wf (priceMonitor a')) by apply settle_wf, Hwf.
  assert (Hid : Order.id failed = Order.id order).
  { destruct (get_stored _ _ _ (proj1 Hwf) Hget) as [_ ->]. reflexivity. }
  destruct (run_keeps_positions evs a') as [Hpf' He'].
  rewrite <- Hid in Horder |- *.
  destruct (run_quiet failed evs a' Hwf' Horder) as [Hstays Hnone].
  - left. discriminate.
  - rewrite Hfl', Hid. exact Hfl.
  - split; [exact Hstays|]. split; [exact Hnone|].
    split; congruence.
Qed.

(** X6.  A sale that throws ends the order for good.  The order is marked
    failed, with the time; the portfolio, the engine and the monitored
    tokens are as before; and through whatever follows, ticks and other
    sales that settle, the order stays as it is and no sale is started for
    it again: the failure is not retried.  (No other sale of the order is
    in flight when this one settles.) *)
Theorem failed_sale_is_never_retried
    (ch : Chain) (now_tx now : Z) (s : sale) (a : AutoSellEngine.t)
    (msg : string) (o : Order.t) :
  let order := s_order s in
  wf (priceMonitor a) ->
  (forall s', s' ∈ inflight a -> Order.id (s_order s') <> Order.id order) ->
  SniperEngine.sellToken ch (sniperEngine a) now_tx now
    (Order.tokenAddress order) (Some (Order.amountTokens order))
  = Throw msg ->
  InsertionMap.get (Order.id order) (limitOrders (priceMonitor a)) = Some o ->
  let a' := settle ch now_tx now s a in
  let failed := Order.set_executedAt now (Order.set_status Order.failed o) in
  InsertionMap.get (Order.id order) (limitOrders (priceMonitor a'))
  = Some failed
  /\ portfolioService a' = portfolioService a
  /\ sniperEngine a' = sniperEngine a
  /\ monitoredTokens (priceMonitor a') = monitoredTokens (priceMonitor a)
  /\ (forall evs,
        InsertionMap.get (Order.id order)
          (limitOrders (priceMonitor (run a' evs)))
        = Some failed
        /\ forall s', s' ∈ inflight (run a' evs) ->
             Order.id (s_order s') <> Order.id order).
Proof.
  intros order Hwf Hfl Hsell Hget a' failed.
  destruct (settle_thrown ch now_tx now s a msg Hsell)
    as (Horder & Hpf & He).
  fold order a' in Horder, Hpf, He. rewrite Hget in Horder. cbn in Horder.
  assert (Hmon : monitoredTokens (priceMonitor a')
                 = monitoredTokens (priceMonitor a)).
  { subst a'. unfold settle. fold order. rewrite Hsell. reflexivity. }
  assert (Hfl' : inflight a' = inflight a).
  { subst a'. unfold settle. fold order. rewrite Hsell. reflexivity. }
  split; [exact Horder|]. split; [exact Hpf|]. split; [exact He|].
  split; [exact Hmon|].
  intros evs.
  assert (Hwf' : wf (priceMonitor a')) by apply settle_wf, Hwf.
  assert (Hid : Order.id failed = Order.id order).
  { destruct (get_stored _ _ _ (proj1 Hwf) Hget) as [_ ->]. reflexivity. }
  rewrite <- Hid in Horder |- *.
  apply run_quiet; [exact Hwf'|exact Horder|left; discriminate|].
  rewrite Hfl', Hid. exact Hfl.
Qed.

End SaleFacts.

(** ** The exit engine: creating and cancelling orders *)

Lemma append_inv_tail_dash (x y : string) (n m : Z) :
  x +:+ "-" +:+ pretty n = y +:+ "-" +:+ pretty m ->
  x = "take_profit" \/ x = "stop_loss" ->
  y = "take_profit" \/ y = "stop_loss" ->
  x = y /\ n = m.
Proof.
  intros Heq [->| ->] [->| ->]; cbn in Heq; try discriminate Heq.
  - injection Heq as Heq. split; [reflexivity|]. apply (inj pretty), Heq.
  - injection Heq as Heq. split; [reflexivity|]. apply (inj pretty), Heq.
Qed.

Section OrderCreation.
Import PriceMonitor AutoSellEngine.
Context `{Host}.

Lemma order_id_inj (tokenAddress : string) (ty1 ty2 : Order.orderType_t)
    (now1 now2 : Z) :
  order_id tokenAddress ty1 now1 = order_id tokenAddress ty2 now2 ->
  ty1 = ty2 /\ now1 = now2.
Proof.
  unfold order_id. intros Heq%append_inv_head. injection Heq as Heq.
  apply append_inv_tail_dash in Heq as [Hty ->].
  - split; [|reflexivity]. destruct ty1, ty2; try reflexivity; discriminate.
  - destruct ty1; [left|right]; reflexivity.
  - destruct ty2; [left|right]; reflexivity.
Qed.

(** X8.  Orders exist only for positions of the portfolio.  Without a
    position for the token, [createLimitOrder] throws "No position found
    for token", and [createAutoLimitOrders] leaves the engine as it is: it
    returns when automatic selling is off or neither percentage is set,
    and passes that error on otherwise. *)
Theorem orders_need_a_portfolio_position
    (a : AutoSellEngine.t) (now : Z) (position : Position.t) :
  let token := Position.tokenAddress position in
  let config := SniperEngine.getConfig (sniperEngine a) in
  PortfolioService.getPosition (portfolioService a) token = None ->
  (forall ty target amount,
      createLimitOrder a now token ty target amount
      = Throw "No position found for token")
  /\ (createAutoLimitOrders a now position).1 = a
  /\ (createAutoLimitOrders a now position).2
     = if Config.autoSellEnabled config
          && (bool_decide (is_Some (truthy_number
                                      (Config.takeProfitPercent config)))
              || bool_decide (is_Some (truthy_number
                                         (Config.stopLossPercent config))))
       then Throw "No position found for token"
       else Ok tt.
Proof.
  intros token config Hnone.
  assert (Hcreate : forall a' ty target amount,
             portfolioService a' = portfolioService a ->
             createLimitOrder a' now token ty target amount
             = Throw "No position found for token").
  { intros a' ty target amount Hpf. unfold createLimitOrder.
    rewrite Hpf, Hnone. reflexivity. }
  split; [intros; apply Hcreate; reflexivity|].
  unfold createAutoLimitOrders. fold config token.
  destruct (Config.autoSellEnabled config); cbn [negb andb];
    [|split; reflexivity].
  destruct (truthy_number (Config.takeProfitPercent config)) as [tp|];
    cbn [fst snd].
  - rewrite Hcreate by reflexivity. cbn. split; reflexivity.
  - destruct (truthy_number (Config.stopLossPercent config)) as [sl|];
      cbn [fst snd]; [|split; reflexivity].
    rewrite Hcreate by reflexivity. cbn. split; reflexivity.
Qed.

(** X9.  The id of an order is made of its token, its kind and the
    millisecond of its creation.  Two orders created for a token are kept
    apart when they differ in kind or in time; created in the same
    millisecond with the same kind, the later one takes the place of the
    earlier: one order is left where there were to be two. *)
Theorem orders_of_one_token_and_kind_collide_within_a_millisecond
    (a : AutoSellEngine.t) (tokenAddress : string) (q : Position.t)
    (ty1 ty2 : Order.orderType_t) (now1 now2 : Z)
    (target1 target2 : string) (amount1 amount2 : option string) :
  PortfolioService.getPosition (portfolioService a) tokenAddress = Some q ->
  exists a1 o1 a2 o2,
    createLimitOrder a now1 tokenAddress ty1 target1 amount1 = Ok (a1, o1)
    /\ createLimitOrder a1 now2 tokenAddress ty2 target2 amount2 = Ok (a2, o2)
    /\ InsertionMap.get (Order.id o2) (limitOrders (priceMonitor a2)) = Some o2
    /\ (Order.id o1 = Order.id o2 <-> ty1 = ty2 /\ now1 = now2)
    /\ (Order.id o1 <> Order.id o2 ->
        InsertionMap.get (Order.id o1) (limitOrders (priceMonitor a2))
        = Some o1)
    /\ (Order.id o1 = Order.id o2 ->
        InsertionMap.keys (limitOrders (priceMonitor a2))
        = InsertionMap.keys (limitOrders (priceMonitor a1))).
Proof.
  intros Hq.
  pose proof (createLimitOrder_ok a now1 tokenAddress ty1 target1 amount1 q Hq)
    as H1.
  cbn zeta in H1.
  match type of H1 with
  | _ = Ok (?a1, ?o1) =>
      pose proof (createLimitOrder_ok a1 now2 tokenAddress ty2 target2
                    amount2 q Hq) as H2;
      cbn zeta in H2; exists a1, o1
  end.
  match type of H2 with _ = Ok (?a2, ?o2) => exists a2, o2 end.
  split; [exact H1|]. split; [exact H2|]. clear H1 H2.
  cbn [priceMonitor set_priceMonitor Order.id].
  unfold addLimitOrder. cbn [limitOrders addToken set_limitOrders Order.id].
  split; [apply get_set_eq|]. split.
  { split; [apply order_id_inj|intros [-> ->]; reflexivity]. }
  split.
  - intros Hne. rewrite get_set_ne by congruence. apply get_set_eq.
  - intros Heq. rewrite (keys_set (order_id tokenAddress ty2 now2)).
    rewrite decide_True; [reflexivity|].
    rewrite <- Heq, keys_set.
    destruct (decide _) as [Hin|_]; [exact Hin|].
    apply elem_of_app. right. apply list_elem_of_here.
Qed.

(** X10.  Creating an order and cancelling it leaves the orders as they
    were, when the id was not in use; the token of the order stays in the
    price checks, cancelled or not. *)
Theorem create_then_cancel_restores_the_orders
    (a : AutoSellEngine.t) (now : Z) (tokenAddress : string)
    (ty : Order.orderType_t) (target : string) (amount : option string)
    (q : Position.t) :
  PortfolioService.getPosition (portfolioService a) tokenAddress = Some q ->
  InsertionMap.get (order_id tokenAddress ty now) (limitOrders (priceMonitor a))
  = None ->
  exists a1 o,
    createLimitOrder a now tokenAddress ty target amount = Ok (a1, o)
    /\ Order.id o = order_id tokenAddress ty now
    /\ Order.status o = Order.pending
    /\ InsertionMap.get (Order.id o) (limitOrders (priceMonitor a1)) = Some o
    /\ limitOrders (priceMonitor (cancelLimitOrder (Order.id o) a1))
       = limitOrders (priceMonitor a)
    /\ toLowerCase tokenAddress
       ∈ monitoredTokens (priceMonitor (cancelLimitOrder (Order.id o) a1)).
Proof.
  intros Hq Hfresh.
  rewrite (createLimitOrder_ok a now tokenAddress ty target amount q Hq).
  eexists _, _. split; [reflexivity|]. split; [reflexivity|].
  split; [reflexivity|].
  cbn [priceMonitor set_priceMonitor cancelLimitOrder Order.id].
  unfold addLimitOrder, removeLimitOrder.
  cbn [limitOrders addToken set_limitOrders monitoredTokens Order.id
       Order.tokenAddress].
  split; [apply get_set_eq|]. split.
  - apply delete_set_fresh, get_None_keys, Hfresh.
  - destruct (decide _) as [Hin|_]; [exact Hin|].
    apply elem_of_app. right. apply list_elem_of_here.
Qed.

End OrderCreation.

(** ** The sniper engine: mints, snipes, sales, configuration *)

Lemma spread_twice {A} (x : A) (a b : option A) :
  default (default x a) b = default x (b ∪ a).
Proof. destruct a, b; reflexivity. Qed.

Lemma spread_again {A} (x : A) (a : option A) :
  default (default x a) a = default x a.
Proof. destruct a; reflexivity. Qed.

Section EngineFacts.
Import SniperEngine.

Lemma executeSnipe_frame (ch : Chain) (e : t) (timestamp now_tx : Z)
    (tokenAddress : string) :
  let e' := (executeSnipe ch e timestamp now_tx tokenAddress).1.1 in
  (forall a, a <> tokenAddress -> positions e' !! a = positions e !! a)
  /\ config e' = config e
  /\ walletService e' = walletService e
  /\ swapService e' = swapService e
  /\ isRunning e' = isRunning e.
Proof.
  unfold executeSnipe.
  destruct (snipe_attempt ch e timestamp now_tx tokenAddress) as [[p r]|msg];
    cbn; repeat split.
  intros a Ha. apply lookup_insert_ne. congruence.
Qed.

(** X11.  [handleMintEvent] buys only what it is meant to buy.  Unless the
    mint went to the Pump.tires contract (compared without regard to case),
    automatic buying is on and the engine is running, nothing happens: the
    engine is as before and no observer is called.  When it does act it is
    one [executeSnipe] of the minted token, and in every case only the
    position of that token can change; the configuration, the wallet and
    the running flag never do. *)
Theorem handleMintEvent_buys_only_pump_tires_mints
    (ch : Chain) (e : t) (timestamp now_tx : Z) (mintEvent : Mint.t) :
  let r := handleMintEvent ch e timestamp now_tx mintEvent in
  let wanted :=
    String.eqb (toLowerCase (Mint.to mintEvent))
               (toLowerCase PUMP_TIRES_CONTRACT)
    && Config.autoBuyEnabled (config e) && isRunning e in
  (if wanted
   then r = ((executeSnipe ch e timestamp now_tx (Mint.token mintEvent)).1.1,
             (executeSnipe ch e timestamp now_tx (Mint.token mintEvent)).2)
   else r = (e, []))
  /\ (forall a, a <> Mint.token mintEvent ->
        positions r.1 !! a = positions e !! a)
  /\ config r.1 = config e
  /\ walletService r.1 = walletService e
  /\ isRunning r.1 = isRunning e.
Proof.
  intros r wanted.
  destruct (executeSnipe_frame ch e timestamp now_tx (Mint.token mintEvent))
    as (Hpos & Hcfg & Hw & _ & Hrun).
  subst r wanted. unfold handleMintEvent.
  destruct (String.eqb _ _); cbn [negb andb]; [|repeat split].
  destruct (Config.autoBuyEnabled (config e)); cbn [negb andb orb];
    [|repeat split].
  destruct (isRunning e) eqn:Hr; cbn [negb andb orb]; [|repeat split; exact Hr].
  destruct (executeSnipe ch e timestamp now_tx (Mint.token mintEvent))
    as [[e' res] ns].
  cbn in *. repeat split; assumption.
Qed.

(** X12.  The metadata of the token is optional for a snipe.  Two chains
    that answer alike to everything the buy asks (units, quote, gas,
    sending, receipt, balance) give the same snipe result, whatever
    [getTokenInfo] does on either.  A successful snipe records, under the
    token, a position that is held, bought for the configured amount, with
    the balance of the wallet as its amount; the name and symbol fall back
    to "Unknown Token" and "UNKNOWN" when the lookup throws; every other
    position is left alone. *)
Theorem snipe_does_not_need_the_token_metadata
    (ch ch' : Chain) (e : t) (timestamp now_tx : Z) (tokenAddress : string) :
  parseUnits ch' = parseUnits ch ->
  getAmountsOut ch' = getAmountsOut ch ->
  estimateGas ch' = estimateGas ch ->
  sendTransaction ch' = sendTransaction ch ->
  waitForTransaction ch' = waitForTransaction ch ->
  tokenBalance ch' = tokenBalance ch ->
  let r := executeSnipe ch e timestamp now_tx tokenAddress in
  let r' := executeSnipe ch' e timestamp now_tx tokenAddress in
  r'.1.2 = r.1.2
  /\ (Snipe.success r.1.2 = true ->
      exists p,
        positions r.1.1 !! tokenAddress = Some p
        /\ Position.status p = Position.holding
        /\ Position.buyPricePLS p = Config.buyAmountPLS (config e)
        /\ Position.buyTimestamp p = timestamp
        /\ Snipe.amountReceived r.1.2 = Some (Position.amountTokens p)
        /\ Snipe.transactionHash r.1.2 = Some (Position.buyTransactionHash p)
        /\ (is_ok (getTokenInfo ch tokenAddress) = false ->
            Position.tokenSymbol p = "UNKNOWN"
            /\ Position.tokenName p = "Unknown Token")
        /\ r.2 = [PositionNotice p; SnipeNotice r.1.2])
  /\ (forall a, a <> tokenAddress ->
        positions r.1.1 !! a = positions e !! a).
Proof.
  intros Hp Hq Hg Hs Hw Hb r r'.
  split; [|split;
    [|apply (executeSnipe_frame ch e timestamp now_tx tokenAddress)]].
  - subst r r'.
    unfold executeSnipe, snipe_attempt, SwapService.buyTokenWithPLS,
      SwapService.buyRequest, SwapService.gasPrice_of,
      WalletService.sendTransaction, WalletService.waitForTransaction,
      WalletService.getTokenBalance.
    rewrite Hp, Hq, Hg, Hs, Hw, Hb.
    destruct (swapService e) as [sv|]; [|reflexivity].
    destruct (walletService e) as [w|]; [|reflexivity].
    destruct (parseUnits ch (Config.buyAmountPLS (config e)) 18)
      as [amountIn|]; cbn [mbind result_bind]; [|reflexivity].
    destruct (getAmountsOut ch amountIn _) as [out|];
      cbn [mbind result_bind]; [|reflexivity].
    destruct (BigInt_floor _) as [bp|]; cbn [mbind result_bind];
      [|reflexivity].
    destruct (estimateGas ch _) as [gas|]; cbn [mbind result_bind];
      [|reflexivity].
    destruct (BigInt_floor _) as [gl|]; cbn [mbind result_bind];
      [|reflexivity].
    destruct (match truthy_string (Config.gasPriceGwei (config e)) with
              | Some g => _ | None => _ end) as [gp|];
      cbn [mbind result_bind]; [|reflexivity].
    destruct (sendTransaction ch _) as [txHash|]; cbn [mbind result_bind];
      [|reflexivity].
    destruct (waitForTransaction ch txHash) as [receipt|];
      cbn [mbind result_bind]; [|reflexivity].
    destruct (confirmed receipt); cbn [negb]; [|reflexivity].
    destruct (tokenBalance ch tokenAddress w) as [bal|];
      cbn [mbind result_bind]; reflexivity.
  - subst r. unfold executeSnipe.
    destruct (snipe_attempt ch e timestamp now_tx tokenAddress)
      as [[p res]|msg] eqn:Hattempt; cbn; [|discriminate].
    intros _. exists p. split; [apply lookup_insert_eq|].
    unfold snipe_attempt in Hattempt.
    destruct (swapService e) as [sv|]; [|discriminate].
    destruct (SwapService.buyTokenWithPLS _ _ _ _ _ _ _ _ _) as [txHash|];
      [|discriminate].
    cbn [mbind result_bind] in Hattempt.
    destruct (WalletService.waitForTransaction ch txHash) as [receipt|];
      [|discriminate].
    cbn [mbind result_bind] in Hattempt.
    destruct (negb (confirmed receipt)); [discriminate|].
    destruct (WalletService.getTokenBalance _ _ _) as [bal|];
      [|discriminate].
    cbn [mbind result_bind] in Hattempt. injection Hattempt as <- <-.
    cbn. repeat split.
    + destruct (getTokenInfo ch tokenAddress); [discriminate|reflexivity].
    + destruct (getTokenInfo ch tokenAddress); [discriminate|reflexivity].
Qed.

(** X14.  The life of the engine.  [start] before [initialize] throws; a
    private key that makes no wallet makes [initialize] throw "Invalid
    private key"; after an [initialize] that returned, [start] returns and
    the engine runs with a swap service in place.  A mint reaching an
    engine that was stopped changes nothing, automatic buying on or not.
    None of the three touches the positions or the configuration. *)
Theorem engine_starts_only_once_initialized
    (cfg : Config.t) (e : t) (address : string) :
  start (new cfg) = Throw "Wallet not initialized. Call initialize() first."
  /\ (forall msg, initialize (Throw msg) e = Throw "Invalid private key")
  /\ (exists e1 e2 sv,
        initialize (Ok address) e = Ok e1
        /\ start e1 = Ok e2
        /\ isRunning e2 = true
        /\ swapService e2 = Some sv
        /\ walletService e2 = Some address
        /\ positions e2 = positions e /\ config e2 = config e
        /\ positions (stop e2) = positions e /\ config (stop e2) = config e
        /\ forall ch timestamp now_tx mintEvent,
             handleMintEvent ch (stop e2) timestamp now_tx mintEvent
             = (stop e2, [])).
Proof.
  split; [reflexivity|]. split; [reflexivity|].
  eexists _, _, _. split; [reflexivity|]. split; [reflexivity|].
  repeat (split; [reflexivity|]).
  intros ch timestamp now_tx mintEvent. unfold handleMintEvent.
  destruct (negb (String.eqb _ _)); [reflexivity|].
  cbn. rewrite orb_true_r. reflexivity.
Qed.

(** X15.  Updates of the configuration compose as the spreads they are: two
    updates in a row are one update by the merge of the two, where the
    later wins on a key both carry; the same update twice is that update
    once; the empty update changes nothing. *)
Theorem updateConfig_composes (u1 u2 : Config.partial) (e : t) :
  updateConfig u2 (updateConfig u1 e) = updateConfig (Config.merge u1 u2) e
  /\ updateConfig u1 (updateConfig u1 e) = updateConfig u1 e
  /\ updateConfig Config.empty_partial e = e.
Proof.
  unfold updateConfig, set_config, Config.spread, Config.merge.
  cbn. split; [rewrite !spread_twice; reflexivity|].
  split; [rewrite !spread_again; reflexivity|].
  destruct e as [w sv c r ps], c; reflexivity.
Qed.

End EngineFacts.

(** ** The swap service: the bound it asks for *)

Section SwapBounds.
Import SwapService Binary64.

Lemma not_finite_SF (s : float) :
  is_finite s = false ->
  Prim2SF s = S754_nan \/ exists b, Prim2SF s = S754_infinity b.
Proof.
  unfold is_finite, is_infinity. intros Hs%negb_false_iff.
  destruct (is_nan s) eqn:Hnan.
  - left. unfold Prim2SF. rewrite Hnan. reflexivity.
  - right. cbn [orb] in Hs.
    rewrite FloatAxioms.eqb_spec, FloatAxioms.abs_spec in Hs.
    change (Prim2SF infinity) with (S754_infinity false) in Hs.
    destruct (Prim2SF s) as [b|b| |b m e]; cbn in Hs; try discriminate Hs.
    exists b. reflexivity.
Qed.

Lemma BigInt_floor_not_finite (s : float) :
  is_finite s = false ->
  is_ok (BigInt_floor (s * 100)%float) = false.
Proof.
  intros Hs. unfold BigInt_floor.
  rewrite mul_spec, Prim2SF_100. unfold SF64mul.
  destruct (not_finite_SF s Hs) as [->|[b ->]]; reflexivity.
Qed.

Lemma buyTokenWithPLS_not_finite
    (ch : Chain) (sv : SwapService.t) (w : WalletService.t) (now : Z)
    (tokenAddress plsAmount : string) (s g : float) (gp : option string) :
  is_finite s = false ->
  is_ok (buyTokenWithPLS ch sv w now tokenAddress plsAmount s g gp) = false.
Proof.
  intros Hs%BigInt_floor_not_finite. unfold buyTokenWithPLS, buyRequest.
  destruct w as [a|]; [|reflexivity].
  destruct (parseUnits ch plsAmount 18) as [amountIn|];
    cbn [mbind result_bind]; [|reflexivity].
  destruct (getAmountsOut ch amountIn _) as [out|];
    cbn [mbind result_bind]; [|reflexivity].
  destruct (BigInt_floor (s * 100)); [discriminate Hs|reflexivity].
Qed.

Lemma sellTokenForPLS_not_finite
    (ch : Chain) (sv : SwapService.t) (w : WalletService.t) (now : Z)
    (tokenAddress tokenAmount : string) (s g : float) (gp : option string) :
  is_finite s = false ->
  is_ok (sellTokenForPLS ch sv w now tokenAddress tokenAmount s g gp) = false.
Proof.
  intros Hs%BigInt_floor_not_finite. unfold sellTokenForPLS, sellRequest.
  destruct w as [a|]; [|reflexivity].
  destruct (decimals ch tokenAddress) as [dec|];
    cbn [mbind result_bind]; [|reflexivity].
  destruct (parseUnits ch tokenAmount dec) as [amountIn|];
    cbn [mbind result_bind]; [|reflexivity].
  destruct (getAmountsOut ch amountIn _) as [out|];
    cbn [mbind result_bind]; [|reflexivity].
  destruct (BigInt_floor (s * 100)); [discriminate Hs|reflexivity].
Qed.

(** X16.  The minimum output is a bound, not a bid.  For a slippage in
    [[0, 100)] and a quote that is not negative, the minimum a purchase
    puts into its transaction, and the minimum a sale computes from its
    quote and logs, lie between 0 and the quote; they are at least 1 once
    the quote is 10000 units or more. *)
Theorem minOut_is_between_zero_and_the_quote (s : float) :
  Js.le 0 s = true -> (s <? 100)%float = true ->
  (forall q, 0 <= q ->
     exists m, minOut_floored q s = Some m
               /\ 0 <= m <= q /\ (10000 <= q -> 1 <= m))
  /\ (forall ch sv w now tokenAddress plsAmount g gp tx,
        buyRequest ch sv w now tokenAddress plsAmount s g gp = Ok tx ->
        exists amountIn out,
          parseUnits ch plsAmount 18 = Ok amountIn
          /\ getAmountsOut ch amountIn [PULSEX_CONFIG.WPLS; tokenAddress]
             = Ok out
          /\ (0 <= out ->
              0 <= Tx.amountOutMin (Tx.data tx) <= out
              /\ (10000 <= out -> 1 <= Tx.amountOutMin (Tx.data tx))))
  /\ (forall ch w tokenAddress tokenAmount amountIn out minAmountOut,
        sellExpected ch w tokenAddress tokenAmount s
        = Ok (amountIn, out, minAmountOut) ->
        exists dec,
          decimals ch tokenAddress = Ok dec
          /\ parseUnits ch tokenAmount dec = Ok amountIn
          /\ getAmountsOut ch amountIn [tokenAddress; PULSEX_CONFIG.WPLS]
             = Ok out
          /\ (0 <= out ->
              0 <= minAmountOut <= out
              /\ (10000 <= out -> 1 <= minAmountOut))).
Proof.
  intros H0 H100. unfold Js.le in H0.
  destruct (floor_slippage s H0 H100) as [Hbp Hrange].
  set (bp := floor_times_100 (units (Prim2SF s))) in *.
  assert (Hbound : forall q, 0 <= q ->
            exists m, minOut_floored q s = Some m
                      /\ 0 <= m <= q /\ (10000 <= q -> 1 <= m)).
  { intros q Hq. exists (q * (10000 - bp) / 10000).
    assert (Hprod : 0 <= q * (10000 - bp)) by (apply Z.mul_nonneg_nonneg; lia).
    split.
    { unfold minOut_floored. rewrite Hbp. cbn [mbind option_bind].
      rewrite Z.quot_div_nonneg by lia. reflexivity. }
    split; [split|].
    - apply Z.div_pos; lia.
    - apply Z.div_le_upper_bound; [lia|]. nia.
    - intros Hbig. apply Z.div_le_lower_bound; [lia|]. nia. }
  split; [exact Hbound|]. split.
  - intros ch sv w now tokenAddress plsAmount g gp tx Htx.
    destruct (buyRequest_minOut _ _ _ _ _ _ _ _ _ _ Htx)
      as (amountIn & out & Hin & Hout & Hmin).
    exists amountIn, out. split; [exact Hin|]. split; [exact Hout|].
    intros Hq. destruct (Hbound out Hq) as (m & Hm & Hle & Hone).
    rewrite Hm in Hmin. injection Hmin as <-. split; [exact Hle|exact Hone].
  - intros ch w tokenAddress tokenAmount amountIn out minAmountOut Hx.
    destruct (sellExpected_minOut _ _ _ _ _ _ Hx)
      as (dec & Hdec & Hin & Hout & Hmin).
    cbn [fst snd] in Hin, Hout, Hmin.
    exists dec. split; [exact Hdec|]. split; [exact Hin|].
    split; [exact Hout|].
    intros Hq. destruct (Hbound out Hq) as (m & Hm & Hle & Hone).
    rewrite Hm in Hmin. injection Hmin as <-. split; [exact Hle|exact Hone].
Qed.

(** X17.  A slippage that is no finite number ([NaN], as [parseFloat] gives
    for an empty field, or an infinity) stops every swap: [BigInt] throws
    on the basis points, so neither [buyTokenWithPLS] nor
    [sellTokenForPLS] returns a transaction; a snipe with such a
    configuration fails and leaves the engine as it was, and [sellToken]
    throws. *)
Theorem slippage_that_is_no_number_stops_every_swap (s : float) :
  is_finite s = false ->
  (forall ch sv w now tokenAddress amount g gp,
      is_ok (buyTokenWithPLS ch sv w now tokenAddress amount s g gp) = false
      /\ is_ok (sellTokenForPLS ch sv w now tokenAddress amount s g gp)
         = false)
  /\ (forall ch e timestamp now_tx tokenAddress,
        Config.slippagePercent (SniperEngine.config e) = s ->
        let r := SniperEngine.executeSnipe ch e timestamp now_tx tokenAddress in
        r.1.1 = e /\ Snipe.success r.1.2 = false)
  /\ (forall ch e now_tx now tokenAddress amount,
        Config.slippagePercent (SniperEngine.config e) = s ->
        is_ok (SniperEngine.sellToken ch e now_tx now tokenAddress amount)
        = false).
Proof.
  intros Hs. split; [|split].
  - intros. split;
      [apply buyTokenWithPLS_not_finite|apply sellTokenForPLS_not_finite];
      exact Hs.
  - intros ch e timestamp now_tx tokenAddress He r. subst r.
    unfold SniperEngine.executeSnipe, SniperEngine.snipe_attempt.
    destruct (SniperEngine.swapService e) as [sv|]; [|split; reflexivity].
    pose proof (buyTokenWithPLS_not_finite ch sv (SniperEngine.walletService e)
                  now_tx tokenAddress
                  (Config.buyAmountPLS (SniperEngine.config e)) s
                  (Config.gasLimitMultiplier (SniperEngine.config e))
                  (Config.gasPriceGwei (SniperEngine.config e)) Hs) as Hbuy.
    rewrite He.
    destruct (buyTokenWithPLS _ _ _ _ _ _ _ _ _); [discriminate Hbuy|].
    split; reflexivity.
  - intros ch e now_tx now tokenAddress amount He.
    unfold SniperEngine.sellToken.
    destruct (SniperEngine.swapService e) as [sv|]; [|reflexivity].
    destruct (SniperEngine.amountToSell _ _) as [a|]; [|reflexivity].
    pose proof (sellTokenForPLS_not_finite ch sv (SniperEngine.walletService e)
                  now_tx tokenAddress a s
                  (Config.gasLimitMultiplier (SniperEngine.config e))
                  (Config.gasPriceGwei (SniperEngine.config e)) Hs) as Hsell.
    rewrite He.
    destruct (sellTokenForPLS _ _ _ _ _ _ _ _ _); [discriminate Hsell|].
    reflexivity.
Qed.

End SwapBounds.

(** ** The mint watcher: history, polling, starting and stopping *)

Section WatcherFacts.
Import MintWatcher.

(** The sort is stable: the mints of one block keep their order. *)
Lemma insert_newest_first_block (b : Z) (x : Mint.t) (l : list Mint.t) :
  filter (fun m => Mint.blockNumber m = b) (insert_newest_first x l)
  = filter (fun m => Mint.blockNumber m = b) (x :: l).
Proof.
  induction l as [|y l IH]; [reflexivity|]. cbn [insert_newest_first].
  destruct (Z.leb_spec (Mint.blockNumber y) (Mint.blockNumber x)) as [|Hlt];
    [reflexivity|].
  rewrite (filter_cons _ y), IH, !(filter_cons _ x), (filter_cons _ y).
  destruct (decide (Mint.blockNumber x = b)) as [Hx|]; [|reflexivity].
  destruct (decide (Mint.blockNumber y = b)) as [Hy|]; [lia|reflexivity].
Qed.

Lemma sort_newest_first_block (b : Z) (l : list Mint.t) :
  filter (fun m => Mint.blockNumber m = b) (sort_newest_first l)
  = filter (fun m => Mint.blockNumber m = b) l.
Proof.
  induction l as [|x l IH]; [reflexivity|]. cbn [sort_newest_first].
  rewrite insert_newest_first_block, !(filter_cons _ x), IH. reflexivity.
Qed.

Lemma omap_length_le {A B} (f : A -> option B) (l : list A) :
  (length (omap f l) <= length l)%nat.
Proof.
  induction l as [|x l IH]; [reflexivity|]. cbn.
  destruct (f x); cbn; lia.
Qed.

Lemma parse_log_Some (p : Provider) (now : Z) (w : t) (log : Log)
    (m : Mint.t) :
  parse_log p now w log = Some m ->
  Mint.to m = watchedAddress w
  /\ Mint.token m = address log
  /\ Mint.blockNumber m = blockNumber log
  /\ Mint.transactionHash m = transactionHash log
  /\ decoded log = Ok (Mint.amount m)
  /\ is_ok (getBlock p (blockNumber log)) = true.
Proof.
  unfold parse_log.
  destruct (decoded log) as [amount|]; [|discriminate].
  destruct (getBlock p (blockNumber log)) as [block|]; [|discriminate].
  intros [= <-]. cbn. repeat split.
Qed.

(** X18.  [getRecentMints] throws only when the block number cannot be
    read.  A failing log query gives no mints, not an error; a log that
    does not decode, or whose block cannot be fetched, is left out and the
    others are kept.  What is returned are the parsed logs from block
    [max 0 (current - range)] on, newest block first, the mints of one
    block in the order of the provider; each is a mint to the watched
    address. *)
Theorem getRecentMints_keeps_what_parses
    (p : Provider) (now : Z) (w : t) (blockRange : Z) :
  (forall msg, getBlockNumber p = Throw msg ->
     getRecentMints p now w blockRange = Throw msg)
  /\ (forall currentBlock,
        getBlockNumber p = Ok currentBlock ->
        let fromBlock := Z.max 0 (currentBlock - blockRange) in
        exists mints,
          getRecentMints p now w blockRange = Ok mints
          /\ 0 <= fromBlock
          /\ StronglySorted newest_first mints
          /\ (forall b,
                filter (fun m => Mint.blockNumber m = b) mints
                = filter (fun m => Mint.blockNumber m = b)
                    (found p now w fromBlock))
          /\ (is_ok (getLogs p fromBlock (mint_topics w)) = false ->
              mints = [])
          /\ (forall logs,
                getLogs p fromBlock (mint_topics w) = Ok logs ->
                mints ≡ₚ omap (parse_log p now w) logs
                /\ (length mints <= length logs)%nat
                /\ forall m, m ∈ mints ->
                     Mint.to m = watchedAddress w
                     /\ exists log, log ∈ logs
                          /\ Mint.token m = address log
                          /\ Mint.blockNumber m = blockNumber log
                          /\ decoded log = Ok (Mint.amount m))).
Proof.
  split.
  - intros msg Hb. unfold getRecentMints. rewrite Hb. reflexivity.
  - intros currentBlock Hb fromBlock.
    exists (sort_newest_first (found p now w fromBlock)).
    split; [unfold getRecentMints; rewrite Hb; reflexivity|].
    split; [apply Z.le_max_l|].
    split; [apply sort_newest_first_sorted|].
    split; [intros b; apply sort_newest_first_block|].
    unfold found. split.
    + destruct (getLogs p fromBlock (mint_topics w)); [discriminate|].
      reflexivity.
    + intros logs ->.
      split; [apply sort_newest_first_perm|]. split.
      * rewrite sort_newest_first_perm. apply omap_length_le.
      * intros m Hm. rewrite sort_newest_first_perm in Hm.
        apply list_elem_of_omap in Hm as (log & Hlog & Hparse).
        apply parse_log_Some in Hparse as (Hto & Htok & Hbn & _ & Hdec & _).
        split; [exact Hto|]. exists log. tauto.
Qed.

(** X19.  Polling never hands a mint to the callback.  The loop of
    [checkNewBlocks] looks for logs on the transactions of a block, and
    these are hashes: whatever the blocks hold, a run of the timer delivers
    nothing.  The run still moves its counter: to the current block on the
    first run, to the later of the counter and the current block
    afterwards; a run that cannot read the block number leaves it.  So a
    watcher that only polls delivers nothing, however often its timer
    runs. *)
Theorem polling_never_hands_over_a_mint
    (p : Provider) (w : t) (last : Z) :
  let r := checkNewBlocks p w last in
  r.2 = []
  /\ (is_ok (getBlockNumber p) = false -> r.1 = last)
  /\ (forall c,
        getBlockNumber p = Ok c ->
        r.1 = if decide (last = 0) then c else Z.max last c)
  /\ (forall ps : list Provider, live_all w (Poll <$> ps) = []).
Proof.
  intros r. split; [apply checkNewBlocks_nil|]. split; [|split].
  - subst r. unfold checkNewBlocks.
    destruct (getBlockNumber p); [discriminate|reflexivity].
  - intros c Hc. subst r. unfold checkNewBlocks. rewrite Hc.
    destruct (decide (last = 0)) as [->|Hne].
    + destruct (Z.ltb_spec (c - 1) c); [reflexivity|lia].
    + destruct (Z.ltb_spec last c); cbn [fst]; lia.
  - intros ps. apply live_all_nil.
Qed.

Lemma unsubscribe_all_nil (l : list string) : foldr unsubscribe [] l = [].
Proof. induction l as [|a l IH]; [reflexivity|]. cbn. rewrite IH. reflexivity. Qed.

(** X20.  On an HTTP provider [stopListening] undoes [startListening].  For
    a watcher with nothing registered, whatever the start was asked (with
    or without history, one token or the whole network) and even when it
    threw, stopping gives back the watcher as it was; it then hands nothing
    over, whatever reaches it, and can be started again as at first. *)
Theorem stopListening_undoes_startListening
    (p : Provider) (now : Z) (w : t) (fromBlock : option Z)
    (includeHistorical : bool) (tokenAddress : option string) :
  isWebSocket w = false ->
  idle w ->
  listeners w = [] ->
  let w1 :=
    (startListening p now w fromBlock includeHistorical tokenAddress).1.1 in
  isListening w1 = true
  /\ stopListening w1 = w
  /\ (forall s, live (stopListening w1) s = (w, []))
  /\ (forall p' now' fromBlock' includeHistorical' tokenAddress',
        startListening p' now' (stopListening w1) fromBlock'
          includeHistorical' tokenAddress'
        = startListening p' now' w fromBlock' includeHistorical'
            tokenAddress').
Proof.
  intros Hws Hidle Hl w1. pose proof Hidle as (Hlisten & Hsubs & Hpoll).
  assert (Hstop : stopListening w1 = w).
  { subst w1. unfold startListening. rewrite Hlisten.
    destruct w as [ws wa li ls ss pi]. cbn in *. subst.
    destruct includeHistorical; cbn [negb].
    - destruct (start_block p fromBlock) as [b|]; [|reflexivity].
      unfold go_live, watchToken.
      destruct (truthy_string tokenAddress) as [token|]; cbn.
      + rewrite unsubscribe_all_nil. reflexivity.
      + destruct (getRecentMints p now _ b); reflexivity.
    - unfold go_live, watchToken.
      destruct (truthy_string tokenAddress) as [token|]; cbn; [|reflexivity].
      rewrite unsubscribe_all_nil. reflexivity. }
  split; [apply startListening_listens|]. split; [exact Hstop|].
  split; [|intros; rewrite Hstop; reflexivity].
  intros s. rewrite Hstop. apply idle_live, Hidle.
Qed.

(** X21.  On a WebSocket provider, a start for one token with history
    registers the listener of the token twice: once in the [watchToken]
    that replays the history and once in the one that goes live.  Without
    history the listener is registered once.  Either way a transfer of the
    token that arrives afterwards hands nothing to the callback: the
    listener is called with the payload of the event alone and throws on
    the recipient it expects, inside its own [try]. *)
Theorem history_for_one_token_registers_its_listener_twice
    (p : Provider) (now : Z) (w : t) (fromBlock : option Z)
    (token : string) (startBlock : Z) :
  isWebSocket w = true ->
  idle w ->
  token <> "" ->
  start_block p fromBlock = Ok startBlock ->
  let w2 := (startListening p now w fromBlock true (Some token)).1.1 in
  let w1 := (startListening p now w fromBlock false (Some token)).1.1 in
  subscriptions w2 = [token; token]
  /\ subscriptions w1 = [token]
  /\ forall p' now' ev,
       live w2 (Transfer p' now' token ev) = (w2, [])
       /\ live w1 (Transfer p' now' token ev) = (w1, []).
Proof.
  intros Hws (Hlisten & Hsubs & Hpoll) Hne Hb w2 w1.
  assert (Htok : truthy_string (Some token) = Some token).
  { destruct token; [congruence|reflexivity]. }
  assert (H2 : subscriptions w2 = [token; token]).
  { subst w2. unfold startListening. rewrite Hlisten, Hb, Htok.
    cbn [negb fst snd]. unfold go_live. rewrite Htok.
    unfold watchToken. cbn. rewrite Hws, Hsubs. reflexivity. }
  assert (H1 : subscriptions w1 = [token]).
  { subst w1. unfold startListening. rewrite Hlisten.
    cbn [negb fst snd]. unfold go_live. rewrite Htok.
    unfold watchToken. cbn. rewrite Hws, Hsubs. reflexivity. }
  split; [exact H2|]. split; [exact H1|].
  intros p' now' ev. split.
  - rewrite (surjective_pairing (live w2 _)), live_nil. reflexivity.
  - rewrite (surjective_pairing (live w1 _)), live_nil. reflexivity.
Qed.

Lemma replay_app_good (p : Provider) (now : Z) (token : string)
    (l1 l2 : list TransferEvent) :
  Forall (fun ev => ev_args ev = None
                    \/ is_ok (parseTransferEvent p now ev token) = true) l1 ->
  replay p now token (l1 ++ l2)
  = replay p now token l1 ++ replay p now token l2.
Proof.
  induction 1 as [|ev l1 Hev _ IH]; [reflexivity|]. cbn [app replay].
  destruct (ev_args ev) as [args|] eqn:Hargs; [|exact IH].
  destruct Hev as [Hev|Hev]; [discriminate|].
  destruct (parseTransferEvent p now ev token); [|discriminate].
  cbn. rewrite IH. reflexivity.
Qed.

(** X22.  The history of one token is replayed in the order of the query,
    each event as a mint of that token.  An event without its arguments is
    skipped.  An event that has them but cannot be parsed (its block cannot
    be fetched, or its recipient is no address) ends the replay: the
    events after it are never handed over.  A query that throws gives no
    history, and the token is registered all the same. *)
Theorem one_bad_event_ends_the_replay
    (p : Provider) (now : Z) (token : string)
    (l1 l2 : list TransferEvent) (ev : TransferEvent) :
  Forall (fun ev => ev_args ev = None
                    \/ is_ok (parseTransferEvent p now ev token) = true) l1 ->
  (ev_args ev = None ->
   replay p now token (l1 ++ ev :: l2) = replay p now token (l1 ++ l2))
  /\ (ev_args ev <> None ->
      is_ok (parseTransferEvent p now ev token) = false ->
      replay p now token (l1 ++ ev :: l2) = replay p now token l1)
  /\ (forall m, m ∈ replay p now token (l1 ++ ev :: l2) ->
        Mint.token m = token)
  /\ (forall w fromBlock,
        is_ok (queryFilter p token fromBlock) = false ->
        watchToken p now w token (Some fromBlock) true
        = ((watchToken p now w token None false).1, [])).
Proof.
  intros Hgood. split; [|split; [|split]].
  - intros Hargs. rewrite !replay_app_good by exact Hgood.
    cbn [replay]. rewrite Hargs. reflexivity.
  - intros Hargs Hbad. rewrite replay_app_good by exact Hgood.
    cbn [replay]. destruct (ev_args ev); [|congruence].
    destruct (parseTransferEvent p now ev token); [discriminate|].
    apply app_nil_r.
  - generalize (l1 ++ ev :: l2). intros l. induction l as [|x l IH];
      intros m Hm; [inversion Hm|].
    cbn [replay] in Hm. destruct (ev_args x) as [[to amount]|] eqn:Hx;
      [|apply IH, Hm].
    destruct (parseTransferEvent p now x token) as [m'|] eqn:Hparse;
      [|inversion Hm].
    apply elem_of_cons in Hm as [->|Hm]; [|apply IH, Hm].
    unfold parseTransferEvent in Hparse. rewrite Hx in Hparse.
    destruct (getBlock p (ev_blockNumber x)); [|discriminate].
    cbn in Hparse. destruct to; [|discriminate].
    injection Hparse as <-. reflexivity.
  - intros w fromBlock Hq. unfold watchToken.
    destruct (queryFilter p token fromBlock); [discriminate|reflexivity].
Qed.

End WatcherFacts.

(** ** The portfolio *)

Section PortfolioFacts.
Import PortfolioService.

(** X23.  The portfolio goes by the address without regard to case.  A
    position added is found again under any spelling of its address and
    takes the place of an earlier one; other addresses are not affected.
    [updatePosition] for an address without a position changes nothing (it
    adds none); [removePosition] removes under any spelling. *)
Theorem portfolio_ignores_the_case_of_addresses
    (m : PortfolioService.t) (p u : Position.t) (a b : string) :
  (toLowerCase b = toLowerCase (Position.tokenAddress p) ->
   getPosition (addPosition p m) b = Some p)
  /\ (toLowerCase b <> toLowerCase (Position.tokenAddress p) ->
      getPosition (addPosition p m) b = getPosition m b)
  /\ (getPosition m a = None -> updatePosition a u m = m)
  /\ (is_Some (getPosition m a) -> toLowerCase b = toLowerCase a ->
      getPosition (updatePosition a u m) b = Some u)
  /\ (toLowerCase b = toLowerCase a -> getPosition (removePosition a m) b = None)
  /\ (toLowerCase b <> toLowerCase a ->
      getPosition (removePosition a m) b = getPosition m b
      /\ getPosition (updatePosition a u m) b = getPosition m b).
Proof.
  unfold getPosition, addPosition, updatePosition, removePosition.
  split; [intros ->; apply lookup_insert_eq|].
  split; [intros Hne; apply lookup_insert_ne; congruence|].
  split; [intros ->; reflexivity|].
  split; [intros [q ->] ->; apply lookup_insert_eq|].
  split; [intros ->; apply lookup_delete_eq|].
  intros Hne. split; [apply lookup_delete_ne; congruence|].
  destruct (m !! toLowerCase a); [|reflexivity].
  apply lookup_insert_ne. congruence.
Qed.

End PortfolioFacts.

(** ** The price monitor: the cache of prices *)

Section CacheFacts.
Import PriceMonitor.
Context `{Host}.
Variables (ch : Chain) (cb : option callback) (now : Z).

Lemma pass_priceCache (ts : list string) (pm : t) f :
  priceCache (foldl (check_token ch cb now) (pm, f) ts).1
  = foldl (fun c a => <[toLowerCase a := quoted ch now a]> c) (priceCache pm) ts.
Proof.
  revert pm f. induction ts as [|a ts IH]; intros pm f; cbn [foldl];
    [reflexivity|].
  rewrite check_token_orders, IH. reflexivity.
Qed.

Lemma cache_other (ts : list string) (c : gmap string PriceUpdate)
    (k : string) :
  k ∉ toLowerCase <$> ts ->
  foldl (fun c a => <[toLowerCase a := quoted ch now a]> c) c ts !! k = c !! k.
Proof.
  revert c. induction ts as [|a ts IH]; intros c Hk; cbn [foldl];
    [reflexivity|].
  rewrite fmap_cons in Hk. apply not_elem_of_cons in Hk as [Hne Hk].
  rewrite IH by exact Hk. apply lookup_insert_ne. congruence.
Qed.

Lemma cache_quoted (ts : list string) (c : gmap string PriceUpdate)
    (a : string) :
  NoDup ts -> Forall (fun a => toLowerCase a = a) ts -> a ∈ ts ->
  foldl (fun c a => <[toLowerCase a := quoted ch now a]> c) c ts !! a
  = Some (quoted ch now a).
Proof.
  revert c. induction ts as [|x ts IH]; intros c Hnd Hlow Hin;
    [inversion Hin|].
  apply NoDup_cons in Hnd as [Hx Hnd]. apply Forall_cons in Hlow as [Hxl Hlow].
  cbn [foldl]. apply elem_of_cons in Hin as [->|Hin]; [|apply IH; assumption].
  rewrite cache_other.
  - rewrite Hxl. apply lookup_insert_eq.
  - intros (y & Hy & Hin)%list_elem_of_fmap. apply Hx.
    rewrite Forall_forall in Hlow. rewrite (Hlow y Hin) in Hy. congruence.
Qed.

(** X24.  A pass of [checkPrices] leaves in the cache, for every monitored
    token, the price it read for it in this pass (["0"] where the quote
    failed), stamped with the time of the pass; the cached prices of other
    tokens are not touched. *)
Theorem checkPrices_caches_the_price_of_every_monitored_token (pm : t) :
  wf pm ->
  let r := checkPrices ch cb now pm in
  (forall a, a ∈ monitoredTokens pm ->
     getCachedPrice r.1 a
     = Some {| pu_tokenAddress := a; pu_pricePLS := getPrice ch a;
               pu_timestamp := now; pu_reserveToken := "0";
               pu_reservePLS := "0" |}
     /\ (is_ok (quote ch a) = false ->
         pu_pricePLS <$> getCachedPrice r.1 a = Some "0"))
  /\ (forall b, toLowerCase b ∉ monitoredTokens pm ->
        getCachedPrice r.1 b = getCachedPrice pm b).
Proof.
  intros (_ & Hnd & Hlow) r. subst r.
  unfold getCachedPrice, checkPrices. rewrite pass_priceCache. split.
  - intros a Ha.
    assert (Hq : foldl (fun c a => <[toLowerCase a := quoted ch now a]> c)
                   (priceCache pm) (monitoredTokens pm) !! toLowerCase a
                 = Some (quoted ch now a)).
    { rewrite Forall_forall in Hlow. rewrite (Hlow a Ha).
      apply cache_quoted; [assumption|apply Forall_forall, Hlow|assumption]. }
    split; [exact Hq|]. intros Hfail. rewrite Hq. cbn.
    rewrite (getPrice_of_failed_quote _ _ Hfail). reflexivity.
  - intros b Hb. apply cache_other.
    intros (y & Hy & Hin)%list_elem_of_fmap. apply Hb.
    rewrite Forall_forall in Hlow. rewrite (Hlow y Hin) in Hy. congruence.
Qed.

End CacheFacts.

(** ** Retrying *)

Section RetryFacts.
Import Async.
Context {R : Type}.
Variables (outcome : nat -> result R) (baseDelayMs : float).

Lemma retry_first_success (left attempt k : nat) :
  (k <= left)%nat ->
  (forall j, (j < k)%nat -> is_ok (outcome (attempt + j)) = false) ->
  is_ok (outcome (attempt + k)) = true ->
  (retry outcome baseDelayMs attempt left).1 = outcome (attempt + k)
  /\ length (retry outcome baseDelayMs attempt left).2 = k.
Proof.
  revert attempt k. induction left as [|left IH]; intros attempt k Hk Hbad Hok.
  - assert (k = 0%nat) as -> by lia. rewrite Nat.add_0_r in *.
    cbn [retry]. destruct (outcome attempt); [split; reflexivity|discriminate].
  - cbn [retry]. destruct k as [|k].
    + rewrite Nat.add_0_r in *.
      destruct (outcome attempt); [split; reflexivity|discriminate].
    + pose proof (Hbad 0%nat ltac:(lia)) as H0. rewrite Nat.add_0_r in H0.
      destruct (outcome attempt) as [r|err]; [discriminate|].
      cbn [fst snd length].
      assert (Hbad' : forall j, (j < k)%nat ->
                is_ok (outcome (S attempt + j)) = false).
      { intros j Hj. replace (S attempt + j)%nat with (attempt + S j)%nat by lia.
        apply Hbad. lia. }
      assert (Hok' : is_ok (outcome (S attempt + k)) = true).
      { replace (S attempt + k)%nat with (attempt + S k)%nat by lia. exact Hok. }
      destruct (IH (S attempt) k ltac:(lia) Hbad' Hok') as [Hres Hlen].
      replace (S attempt + k)%nat with (attempt + S k)%nat in Hres by lia.
      split; [exact Hres|]. rewrite Hlen. reflexivity.
Qed.

Lemma retry_last_error (left attempt : nat) :
  (forall j, (j <= left)%nat -> is_ok (outcome (attempt + j)) = false) ->
  (retry outcome baseDelayMs attempt left).1 = outcome (attempt + left)
  /\ length (retry outcome baseDelayMs attempt left).2 = left.
Proof.
  revert attempt. induction left as [|left IH]; intros attempt Hbad.
  - pose proof (Hbad 0%nat ltac:(lia)) as H0. rewrite Nat.add_0_r in *.
    cbn [retry]. destruct (outcome attempt); [discriminate|split; reflexivity].
  - pose proof (Hbad 0%nat ltac:(lia)) as H0. rewrite Nat.add_0_r in H0.
    cbn [retry]. destruct (outcome attempt) as [r|err]; [discriminate|].
    cbn [fst snd length].
    assert (Hbad' : forall j, (j <= left)%nat ->
              is_ok (outcome (S attempt + j)) = false).
    { intros j Hj. replace (S attempt + j)%nat with (attempt + S j)%nat by lia.
      apply Hbad. lia. }
    destruct (IH (S attempt) Hbad') as [Hres Hlen].
    replace (S attempt + left)%nat with (attempt + S left)%nat in Hres by lia.
    split; [exact Hres|]. rewrite Hlen. reflexivity.
Qed.

Lemma retry_length (left attempt : nat) :
  (length (retry outcome baseDelayMs attempt left).2 <= left)%nat.
Proof.
  revert attempt. induction left as [|left IH]; intros attempt; cbn [retry].
  - destruct (outcome attempt); cbn; lia.
  - destruct (outcome attempt); cbn [snd length]; [lia|].
    specialize (IH (S attempt)). lia.
Qed.

Lemma retry_delays (left attempt i : nat) (d : float) :
  (retry outcome baseDelayMs attempt left).2 !! i = Some d ->
  d = (baseDelayMs * Number_of_bigint (2 ^ Z.of_nat (attempt + i)))%float.
Proof.
  revert attempt i. induction left as [|left IH]; intros attempt i;
    cbn [retry].
  - destruct (outcome attempt); cbn; discriminate.
  - destruct (outcome attempt); cbn [snd]; [discriminate|].
    destruct i as [|i]; cbn.
    + intros [= <-]. rewrite Nat.add_0_r. reflexivity.
    + intros Hd%IH. rewrite Hd. do 3 f_equal. lia.
Qed.

(** X25.  [withRetry] calls [fn] until it returns, [retries] more times at
    most after the first call.  It returns what the first call that
    succeeds returns; when [retries + 1] calls in a row fail it throws the
    error of the last one, not of the first.  Before call number [i + 1]
    it waits [baseDelayMs * 2^i] milliseconds.  With no retries (or a
    negative number of them) [fn] is called once. *)
Theorem withRetry_returns_the_first_success_or_the_last_error (retries : Z) :
  let r := withRetry outcome retries baseDelayMs in
  let n := Z.to_nat retries in
  (forall k,
     (k <= n)%nat ->
     (forall j, (j < k)%nat -> is_ok (outcome j) = false) ->
     is_ok (outcome k) = true ->
     r.1 = outcome k /\ length r.2 = k)
  /\ ((forall j, (j <= n)%nat -> is_ok (outcome j) = false) ->
      r.1 = outcome n /\ length r.2 = n)
  /\ (length r.2 <= n)%nat
  /\ (forall i d,
        r.2 !! i = Some d ->
        d = (baseDelayMs * Number_of_bigint (2 ^ Z.of_nat i))%float)
  /\ (retries <= 0 -> r = (outcome 0%nat, [])).
Proof.
  intros r n. subst r. unfold withRetry. fold n.
  split; [intros k; apply (retry_first_success n 0 k)|].
  split; [apply (retry_last_error n 0)|].
  split; [apply retry_length|].
  split; [intros i d; apply (retry_delays n 0 i d)|].
  intros Hle. replace n with 0%nat by (subst n; lia).
  cbn [retry]. destruct (outcome 0%nat); reflexivity.
Qed.

End RetryFacts.

Section FormatFacts.
Import JsBigInt MintsRoute.

Lemma append_String (c : ascii) (s1 s2 : string) :
  String c s1 +:+ s2 = String c (s1 +:+ s2).
Proof. reflexivity. Qed.

Lemma append_Empty (s : string) : EmptyString +:+ s = s.
Proof. reflexivity. Qed.

Lemma digit_pretty_N_char (k : N) :
  (k < 10)%N -> digit 10 (pretty_N_char k) = Some (Z.of_N k).
Proof.
  intros Hk.
  assert (Hc : (k = 0 \/ k = 1 \/ k = 2 \/ k = 3 \/ k = 4 \/ k = 5 \/ k = 6
                \/ k = 7 \/ k = 8 \/ k = 9)%N) by lia.
  repeat (destruct Hc as [->|Hc]; [reflexivity|]). subst k. reflexivity.
Qed.

Lemma digits_pretty_N_go (x : N) (s : string) :
  digits 10 (pretty_N_go x s) 0 = digits 10 s (Z.of_N x).
Proof.
  revert s. induction (N.lt_wf_0 x) as [x _ IH]; intros s.
  destruct (N.eq_dec x 0%N) as [->|Hx].
  - rewrite pretty_N_go_0. reflexivity.
  - rewrite pretty_N_go_step by lia.
    rewrite IH by (apply N.div_lt; lia).
    cbn [digits]. rewrite digit_pretty_N_char by (apply N.mod_lt; lia).
    cbn [mbind option_bind]. f_equal.
    rewrite N2Z.inj_div, N2Z.inj_mod. change (Z.of_N 10) with 10.
    pose proof (Z.div_mod (Z.of_N x) 10 ltac:(lia)). lia.
Qed.

Lemma digits_pretty (n : Z) : 0 <= n -> digits 10 (pretty n) 0 = Some n.
Proof.
  intros Hn. destruct n as [|p|p]; [reflexivity| |lia].
  change (pretty (Z.pos p)) with (pretty (N.pos p)).
  unfold pretty, pretty_N.
  destruct (decide (N.pos p = 0%N)) as [|_]; [discriminate|].
  rewrite digits_pretty_N_go. reflexivity.
Qed.

Lemma length_pretty_N_go (x : N) (s : string) (k : nat) :
  Z.of_N x < 10 ^ Z.of_nat k ->
  (String.length (pretty_N_go x s) <= k + String.length s)%nat.
Proof.
  revert s k. induction (N.lt_wf_0 x) as [x _ IH]; intros s k Hx.
  destruct (N.eq_dec x 0%N) as [->|Hne].
  - rewrite pretty_N_go_0. lia.
  - rewrite pretty_N_go_step by lia.
    destruct k as [|k]; [change (10 ^ Z.of_nat 0) with 1 in Hx; lia|].
    rewrite Nat2Z.inj_succ, Z.pow_succ_r in Hx by lia.
    assert (Hdiv : Z.of_N (x `div` 10) < 10 ^ Z.of_nat k).
    { rewrite N2Z.inj_div. change (Z.of_N 10) with 10.
      apply Z.div_lt_upper_bound; [lia|exact Hx]. }
    pose proof (IH (x `div` 10)%N ltac:(apply N.div_lt; lia)
                  (String (pretty_N_char (x `mod` 10)) s) k Hdiv) as Hlen.
    cbn [String.length] in Hlen. lia.
Qed.

Lemma length_pretty (f : Z) (k : nat) :
  0 < f < 10 ^ Z.of_nat k -> (String.length (pretty f) <= k)%nat.
Proof.
  intros [Hpos Hlt]. destruct f as [|p|p]; [lia| |lia].
  change (pretty (Z.pos p)) with (pretty (N.pos p)).
  unfold pretty, pretty_N.
  destruct (decide (N.pos p = 0%N)) as [|_]; [discriminate|].
  pose proof (length_pretty_N_go (N.pos p) EmptyString k Hlt) as Hlen.
  cbn [String.length] in Hlen. lia.
Qed.

Lemma digit_decimal (c : ascii) (d : Z) :
  digit 10 c = Some d ->
  is_white c = false /\ N_of_ascii c <> 43%N /\ N_of_ascii c <> 45%N
  /\ prefix_base c = None /\ 0 <= d < 10
  /\ (d = 0 <-> N_of_ascii c = 48%N).
Proof.
  unfold digit, is_white, prefix_base. cbv zeta.
  set (k := N_of_ascii c). intros Hd.
  assert (Hk : (48 <= k <= 57)%N /\ d = Z.of_N k - 48).
  { revert Hd.
    repeat (match goal with
            | |- context [?a <=? ?b] => destruct (Z.leb_spec a b)
            | |- context [?a <? ?b] => destruct (Z.ltb_spec a b)
            end; cbn [andb mbind option_bind]);
      intros Hd; try discriminate Hd; injection Hd as Hd; lia. }
  destruct Hk as [Hk ->].
  repeat match goal with
         | |- context [(?a <=? ?b)%N] => destruct (N.leb_spec a b); try lia
         | |- context [(?a =? ?b)%N] => destruct (N.eqb_spec a b); try lia
         end.
  cbn [andb orb]. repeat split; lia.
Qed.

Lemma trimEnd_digits (s : string) (acc v : Z) :
  digits 10 s acc = Some v -> trimEnd s = s.
Proof.
  revert acc. induction s as [|c s IH]; intros acc Hs; [reflexivity|].
  cbn [digits] in Hs.
  destruct (digit 10 c) as [d|] eqn:Hc; [|discriminate].
  cbn [mbind option_bind] in Hs. cbn [trimEnd]. rewrite (IH _ Hs).
  destruct s; [|reflexivity].
  destruct (digit_decimal _ _ Hc) as (-> & _). reflexivity.
Qed.

Lemma trim_digits (s : string) (acc v : Z) :
  digits 10 s acc = Some v -> trim s = s.
Proof.
  intros Hs. unfold trim. destruct s as [|c s]; [reflexivity|].
  pose proof Hs as Hs'. cbn [digits] in Hs'.
  destruct (digit 10 c) as [d|] eqn:Hc; [|discriminate].
  destruct (digit_decimal _ _ Hc) as (Hw & _).
  cbn [trimStart]. rewrite Hw. exact (trimEnd_digits _ _ _ Hs).
Qed.

Lemma StringToBigInt_digits (s : string) (v : Z) :
  s <> EmptyString -> digits 10 s 0 = Some v -> StringToBigInt s = Some v.
Proof.
  intros Hne Hs. unfold StringToBigInt. rewrite (trim_digits _ _ _ Hs).
  destruct s as [|c rest]; [contradiction|].
  pose proof Hs as Hs'. cbn [digits] in Hs'.
  destruct (digit 10 c) as [d|] eqn:Hc; [|discriminate].
  cbn [mbind option_bind] in Hs'.
  destruct (digit_decimal _ _ Hc) as (_ & Hp & Hm & _).
  cbv zeta.
  destruct (N.eqb_spec (N_of_ascii c) 43); [contradiction|].
  destruct (N.eqb_spec (N_of_ascii c) 45); [contradiction|].
  destruct rest as [|c' rest']; [exact Hs|].
  cbn [digits] in Hs'.
  destruct (digit 10 c') as [d'|] eqn:Hc'; [|discriminate].
  destruct (digit_decimal _ _ Hc') as (_ & _ & _ & Hpre & _).
  rewrite Hpre. destruct (N_of_ascii c =? 48)%N; exact Hs.
Qed.

Lemma of_string_pretty (n : Z) : 0 <= n -> of_string (pretty n) = Ok n.
Proof.
  intros Hn. unfold of_string.
  rewrite (StringToBigInt_digits _ n); [reflexivity| |exact (digits_pretty n Hn)].
  intros Hempty. pose proof (digits_pretty n Hn) as Hd.
  rewrite Hempty in Hd. injection Hd as <-.
  revert Hempty. clear. discriminate.
Qed.

Lemma digits_app (b : Z) (s1 s2 : string) (acc : Z) :
  digits b (s1 +:+ s2) acc = digits b s1 acc ≫= digits b s2.
Proof.
  revert acc. induction s1 as [|c s1 IH]; intros acc; [reflexivity|].
  rewrite append_String. cbn [digits].
  destruct (digit b c); cbn [mbind option_bind]; [apply IH|reflexivity].
Qed.

Lemma digits_zeros (k : nat) (acc : Z) :
  digits 10 (zeros k) acc = Some (acc * 10 ^ Z.of_nat k).
Proof.
  revert acc. induction k as [|k IH]; intros acc.
  - cbn. f_equal. lia.
  - cbn [zeros digits]. change (digit 10 (ascii_of_N 48)) with (Some 0).
    cbn [mbind option_bind]. rewrite IH. f_equal.
    rewrite Nat2Z.inj_succ, Z.pow_succ_r by lia. ring.
Qed.

Lemma length_app_string (s1 s2 : string) :
  String.length (s1 +:+ s2) = (String.length s1 + String.length s2)%nat.
Proof.
  induction s1 as [|c s1 IH]; [reflexivity|].
  rewrite append_String. cbn [String.length]. rewrite IH. reflexivity.
Qed.

Lemma length_zeros (k : nat) : String.length (zeros k) = k.
Proof. induction k as [|k IH]; [reflexivity|]. cbn. rewrite IH. reflexivity. Qed.

Lemma strip_zeros_spec (s : string) :
  exists j, s = strip_zeros s +:+ zeros j.
Proof.
  induction s as [|c s [j Hj]]; [exists 0%nat; reflexivity|].
  cbn [strip_zeros]. destruct (strip_zeros s) as [|a t] eqn:Hstrip.
  - destruct (N.eqb_spec (N_of_ascii c) 48) as [Hc|Hc].
    + exists (S j). rewrite append_Empty. cbn [zeros]. rewrite <- Hc.
      rewrite ascii_N_embedding. rewrite Hj at 1. reflexivity.
    + exists j. rewrite append_String, append_Empty. rewrite Hj at 1.
      reflexivity.
  - exists j. rewrite append_String. rewrite Hj at 1. reflexivity.
Qed.

Lemma strip_zeros_last (s : string) (acc v : Z) :
  strip_zeros s <> EmptyString ->
  digits 10 (strip_zeros s) acc = Some v -> v mod 10 <> 0.
Proof.
  revert acc. induction s as [|c s IH]; intros acc; [contradiction|].
  cbn [strip_zeros]. destruct (strip_zeros s) as [|a t] eqn:Hstrip.
  - destruct (N.eqb_spec (N_of_ascii c) 48) as [Hc|Hc]; [contradiction|].
    intros _. cbn [digits].
    destruct (digit 10 c) as [d|] eqn:Hd; [|discriminate].
    cbn [mbind option_bind]. intros [= <-].
    destruct (digit_decimal _ _ Hd) as (_ & _ & _ & _ & Hrange & Hzero).
    assert (d <> 0) by (intros Hd0; apply Hc, Hzero, Hd0).
    rewrite Z.add_comm, Z.mul_comm, Z.mod_add by lia.
    rewrite Z.mod_small by lia. assumption.
  - intros _. cbn [digits].
    destruct (digit 10 c) as [d|]; [|discriminate].
    cbn [mbind option_bind]. apply IH. discriminate.
Qed.

(** A character that no numeral has, in any base. *)
Lemma digit_none (b : Z) (c : ascii) : digit 36 c = None -> digit b c = None.
Proof.
  unfold digit. cbv zeta. set (n := Z.of_N (N_of_ascii c)).
  repeat (match goal with
         | |- context [?x <=? ?y] => destruct (Z.leb_spec x y)
         | |- context [?x <? ?y] => destruct (Z.ltb_spec x y)
         end; cbn [andb mbind option_bind]);
    try discriminate; try reflexivity; lia.
Qed.

Lemma numeral_none (b : Z) (t1 t2 : string) (c : ascii) :
  digit 36 c = None -> numeral b (t1 +:+ String c t2) = None.
Proof.
  intros Hc.
  assert (Hd : digits b (t1 +:+ String c t2) 0 = None).
  { rewrite digits_app. destruct (digits b t1 0); [|reflexivity].
    cbn [mbind option_bind digits]. rewrite (digit_none b c Hc). reflexivity. }
  unfold numeral. destruct (t1 +:+ String c t2); [reflexivity|exact Hd].
Qed.

Lemma prefix_base_digit (c : ascii) (b : Z) :
  prefix_base c = Some b -> digit 36 c <> None.
Proof.
  unfold prefix_base, digit. cbv zeta.
  repeat match goal with
         | |- context [(?x =? ?y)%N] =>
             destruct (N.eqb_spec x y) as [->|]
         end; cbn; discriminate.
Qed.

Lemma trimEnd_keeps (s1 s2 : string) (c : ascii) :
  is_white c = false ->
  exists t2, trimEnd (s1 +:+ String c s2) = s1 +:+ String c t2.
Proof.
  intros Hc. induction s1 as [|a s1 [t2 IH]].
  - rewrite append_Empty. cbn [trimEnd]. rewrite Hc.
    destruct (trimEnd s2) as [|a t]; eexists; reflexivity.
  - exists t2. rewrite !append_String. cbn [trimEnd].
    rewrite IH. destruct s1; reflexivity.
Qed.

Lemma trim_keeps (s1 s2 : string) (c : ascii) :
  is_white c = false ->
  exists t1 t2, trim (s1 +:+ String c s2) = t1 +:+ String c t2.
Proof.
  intros Hc. unfold trim.
  assert (Hstart : exists t1,
            trimStart (s1 +:+ String c s2) = t1 +:+ String c s2).
  { induction s1 as [|a s1 [t1 IH]].
    - exists EmptyString. rewrite !append_Empty. cbn [trimStart].
      rewrite Hc. reflexivity.
    - rewrite append_String. cbn [trimStart].
      destruct (is_white a); [exists t1; exact IH|].
      exists (String a s1). reflexivity. }
  destruct Hstart as [t1 ->].
  destruct (trimEnd_keeps t1 s2 c Hc) as [t2 ->]. exists t1, t2. reflexivity.
Qed.

Lemma StringToBigInt_none (s1 s2 : string) (c : ascii) :
  is_white c = false -> digit 36 c = None ->
  N_of_ascii c <> 43%N -> N_of_ascii c <> 45%N ->
  StringToBigInt (s1 +:+ String c s2) = None.
Proof.
  intros Hw Hc Hplus Hminus. unfold StringToBigInt.
  destruct (trim_keeps s1 s2 c Hw) as (t1 & t2 & ->).
  destruct t1 as [|a t1]; rewrite ?append_String, ?append_Empty; cbv zeta.
  - destruct (N.eqb_spec (N_of_ascii c) 43); [contradiction|].
    destruct (N.eqb_spec (N_of_ascii c) 45); [contradiction|].
    assert (H48 : (N_of_ascii c =? 48)%N = false).
    { destruct (N.eqb_spec (N_of_ascii c) 48) as [E|]; [|reflexivity].
      revert Hc. unfold digit. rewrite E. discriminate. }
    rewrite H48.
    destruct t2; exact (numeral_none 10 EmptyString _ c Hc).
  - destruct (N_of_ascii a =? 43)%N; [exact (numeral_none 10 t1 t2 c Hc)|].
    destruct (N_of_ascii a =? 45)%N;
      [rewrite (numeral_none 10 t1 t2 c Hc); reflexivity|].
    destruct t1 as [|a' t1]; rewrite ?append_String, ?append_Empty.
    + destruct (N_of_ascii a =? 48)%N.
      * destruct (prefix_base c) as [b|] eqn:Hb;
          [destruct (prefix_base_digit c b Hb Hc)|].
        exact (numeral_none 10 (String a EmptyString) t2 c Hc).
      * exact (numeral_none 10 (String a EmptyString) t2 c Hc).
    + destruct (if (N_of_ascii a =? 48)%N then prefix_base a' else None).
      * exact (numeral_none _ t1 t2 c Hc).
      * exact (numeral_none 10 (String a (String a' t1)) t2 c Hc).
Qed.

Context `{Exponent}.

(** X27.  [formatAmount] prints an amount of base units as the exact
    decimal number of tokens.  For an amount [n >= 0] in decimal digits and
    [decimals = d >= 0], when [10 ** d] is the integer [10^d], the result is
    [n / 10^d] in digits, followed, when [n] is no multiple of [10^d], by a
    point and between 1 and [d] digits [F] that read as the fraction:
    [F * 10^(d - |F|) = n mod 10^d], with no zero at the end. *)
Theorem formatAmount_prints_the_exact_decimal (n d : Z) :
  0 <= n -> 0 <= d -> of_number (pow10 d) = Ok (10 ^ d) ->
  let whole := n / 10 ^ d in
  let fraction := n mod 10 ^ d in
  (fraction = 0 -> formatAmount (pretty n) d = pretty whole)
  /\ (fraction <> 0 ->
      exists F v,
        formatAmount (pretty n) d = pretty whole +:+ "." +:+ F
        /\ digits 10 F 0 = Some v
        /\ (1 <= String.length F <= Z.to_nat d)%nat
        /\ v * 10 ^ (d - Z.of_nat (String.length F)) = fraction
        /\ v mod 10 <> 0).
Proof.
  intros Hn Hd Hpow whole fraction.
  assert (HD : 0 < 10 ^ d) by (apply Z.pow_pos_nonneg; lia).
  assert (Hrange : 0 <= fraction < 10 ^ d) by (apply Z.mod_pos_bound; exact HD).
  unfold formatAmount, format_attempt.
  rewrite (of_string_pretty n Hn). cbn [mbind result_bind]. rewrite Hpow.
  cbn [mbind result_bind]. unfold divide, remainder.
  destruct (Z.eqb_spec (10 ^ d) 0) as [E|_]; [lia|].
  cbn [mbind result_bind].
  rewrite Z.quot_div_nonneg, Z.rem_mod_nonneg by lia.
  fold whole fraction. unfold toString.
  destruct (Z.eqb_spec fraction 0) as [E|Hne].
  { split; [reflexivity|contradiction]. }
  split; [contradiction|]. intros _.
  set (P := pretty fraction).
  assert (HlenP : (String.length P <= Z.to_nat d)%nat).
  { apply length_pretty. rewrite Z2Nat.id by lia. lia. }
  assert (Hpad : digits 10 (padStart P d) 0 = Some fraction).
  { unfold padStart. rewrite digits_app, digits_zeros.
    cbn [mbind option_bind]. apply digits_pretty. lia. }
  assert (HlenPad : String.length (padStart P d) = Z.to_nat d).
  { unfold padStart. rewrite length_app_string, length_zeros. lia. }
  destruct (strip_zeros_spec (padStart P d)) as [j Hj].
  pose proof (strip_zeros_last (padStart P d) 0) as Hlast.
  set (F := strip_zeros (padStart P d)) in *.
  rewrite Hj, digits_app in Hpad. rewrite Hj, length_app_string, length_zeros in HlenPad.
  destruct (digits 10 F 0) as [v|] eqn:HF; [|discriminate].
  cbn [mbind option_bind] in Hpad. rewrite digits_zeros in Hpad.
  injection Hpad as Hv.
  assert (HFne : F <> EmptyString).
  { intros HF0. rewrite HF0 in HF. injection HF as <-. lia. }
  exists F, v.
  split; [destruct F; [contradiction|reflexivity]|].
  split; [exact HF|].
  split; [destruct F; [contradiction|cbn [String.length] in *; lia]|].
  split; [|exact (Hlast v HFne eq_refl)].
  replace (d - Z.of_nat (String.length F)) with (Z.of_nat j) by lia.
  exact Hv.
Qed.

(** X28.  An amount that is no integer is shown as "0".  Whatever the
    decimals and whatever [**] gives, [formatAmount] returns "0" for an
    amount that holds, anywhere, an ASCII character that is neither a
    letter, a digit, a sign nor white space: a decimal point, a comma. *)
Theorem formatAmount_shows_zero_for_what_is_no_integer
    (s1 s2 : string) (c : ascii) (d : Z) :
  (N_of_ascii c < 128)%N ->
  is_white c = false -> digit 36 c = None ->
  N_of_ascii c <> 43%N -> N_of_ascii c <> 45%N ->
  of_string (s1 +:+ String c s2) = Throw "SyntaxError: Cannot convert to a BigInt"
  /\ formatAmount (s1 +:+ String c s2) d = "0".
Proof.
  intros _ Hw Hc Hplus Hminus.
  assert (Hs : of_string (s1 +:+ String c s2)
               = Throw "SyntaxError: Cannot convert to a BigInt").
  { unfold of_string.
    rewrite (StringToBigInt_none s1 s2 c Hw Hc Hplus Hminus). reflexivity. }
  split; [exact Hs|].
  unfold formatAmount, format_attempt. rewrite Hs. reflexivity.
Qed.

End FormatFacts.

(** ** The properties above on the example data *)

Lemma example_monitor_wf :
  PriceMonitor.wf (AutoSellEngine.priceMonitor Examples.bot_with_orders).
Proof.
  split; [split|split].
  - refine (bool_decide_unpack (NoDup _) _). vm_compute. exact I.
  - repeat constructor.
  - refine (bool_decide_unpack (NoDup _) _). vm_compute. exact I.
  - repeat constructor.
Qed.

Lemma example_monitor_after_tick_wf :
  PriceMonitor.wf
    (AutoSellEngine.priceMonitor
       (AutoSellEngine.step (H := Examples.whole_host) Examples.bot_with_orders
          (AutoSellEngine.Tick (Examples.chain 200 1) 9))).
Proof. apply pass_wf, example_monitor_wf. Qed.

Lemma monitor_keeps_its_shape_witness :
  let pm := AutoSellEngine.priceMonitor Examples.bot_with_orders in
  PriceMonitor.wf
    (PriceMonitor.checkPrices (H := Examples.whole_host)
       (Examples.chain 200 1) None 9 pm).1
  /\ PriceMonitor.wf (PriceMonitor.removeToken "0xABC" pm).
Proof.
  intros pm.
  destruct (monitor_keeps_its_shape (H := Examples.whole_host) pm
              example_monitor_wf)
    as (_ & _ & Hremove & _ & _ & Hpass).
  split; [apply Hpass; intros f Hf; discriminate Hf|apply Hremove].
Defined.

Lemma checkPrices_fires_only_triggered_pending_orders_witness :
  Order.status Examples.take_profit_order = Order.pending
  /\ PriceMonitor.shouldTrigger (H := Examples.whole_host)
       Examples.take_profit_order "200" = true.
Proof.
  destruct (checkPrices_fires_only_triggered_pending_orders
              (H := Examples.whole_host) (Examples.chain 200 1) None 9
              (AutoSellEngine.priceMonitor Examples.bot_with_orders)
              Examples.take_profit_order "200")
    as (_ & Hpending & _ & Htrigger & _).
  - intros f Hf. discriminate Hf.
  - vm_compute. apply list_elem_of_here.
  - split; [exact Hpending|exact Htrigger].
Defined.

Lemma limit_order_fires_at_most_once_witness :
  let pm := AutoSellEngine.priceMonitor Examples.bot_with_orders in
  let r :=
    PriceMonitor.checkPrices (H := Examples.whole_host)
      (Examples.chain 200 1) None 9 pm in
  ((Examples.take_profit_order, "200") ∈ r.2)
  /\ ((Examples.take_profit_order, "200")
      ∉ (PriceMonitor.passes (H := Examples.whole_host)
           [(Examples.chain 200 1, None, 10); (Examples.chain 500 1, None, 11)]
           r.1).2).
Proof.
  intros pm r.
  assert (Hfired : (Examples.take_profit_order, "200") ∈ r.2).
  { vm_compute. apply list_elem_of_here. }
  split; [exact Hfired|].
  destruct (limit_order_fires_at_most_once (H := Examples.whole_host)
              (Examples.chain 200 1) None 9 pm Examples.take_profit_order
              example_monitor_wf)
    as [_ Honce].
  - intros f Hf. discriminate Hf.
  - reflexivity.
  - intros Hagain.
    apply (Honce "200" Hfired
             [(Examples.chain 200 1, None, 10); (Examples.chain 500 1, None, 11)])
      in Hagain.
    + apply Hagain. reflexivity.
    + repeat (apply Forall_cons; split; [intros f Hf; discriminate Hf|]).
      apply Forall_nil. exact I.
Defined.

Lemma removed_order_never_fires_witness :
  let pm := AutoSellEngine.priceMonitor Examples.bot_with_orders in
  let k := Order.id Examples.take_profit_order in
  InsertionMap.get k (PriceMonitor.limitOrders (PriceMonitor.removeLimitOrder k pm))
  = None
  /\ PriceMonitor.monitoredTokens (PriceMonitor.removeLimitOrder k pm)
     = ["0xabc"].
Proof.
  intros pm k.
  destruct (removed_order_never_fires (H := Examples.whole_host) pm k
              example_monitor_wf)
    as (Hnone & _ & Htokens & _).
  split; [exact Hnone|exact Htokens].
Defined.

Lemma removeToken_silences_the_orders_of_the_token_witness :
  let pm := AutoSellEngine.priceMonitor Examples.bot_with_orders in
  PriceMonitor.limitOrders (PriceMonitor.removeToken "0xABC" pm)
  = PriceMonitor.limitOrders pm
  /\ ("0xabc" ∉ PriceMonitor.monitoredTokens (PriceMonitor.removeToken "0xABC" pm))
  /\ ((Examples.stop_loss_order, "0")
      ∉ (PriceMonitor.passes (H := Examples.whole_host)
           [(Examples.chain_without_quote, None, 9);
            (Examples.chain_without_quote, None, 10)]
           (PriceMonitor.removeToken "0xABC" pm)).2).
Proof.
  intros pm.
  destruct (removeToken_silences_the_orders_of_the_token
              (H := Examples.whole_host) pm "0xABC" Examples.stop_loss_order
              example_monitor_wf eq_refl eq_refl)
    as (Horders & Hout & _ & Hquiet).
  split; [exact Horders|]. split; [exact Hout|].
  destruct (Hquiet [(Examples.chain_without_quote, None, 9);
                    (Examples.chain_without_quote, None, 10)])
    as [_ Hnot].
  - repeat (apply Forall_cons; split; [intros f Hf; discriminate Hf|]).
    apply Forall_nil. exact I.
  - intros Hin. exact (Hnot _ _ Hin eq_refl).
Defined.

Lemma failed_sale_ends_failed_and_held_witness :
  let H := Examples.whole_host in
  let a1 :=
    AutoSellEngine.step Examples.bot_with_orders
      (AutoSellEngine.Tick (Examples.chain 200 1) 9) in
  let a2 :=
    AutoSellEngine.step a1 (AutoSellEngine.Settle (Examples.chain 200 1) 10 11) in
  AutoSellEngine.inflight a1
  = [{| AutoSellEngine.s_order := Examples.take_profit_order;
        AutoSellEngine.s_currentPrice := "200" |}]
  /\ Examples.order_status (Order.id Examples.take_profit_order) a2
     = Some Order.failed
  /\ Position.status <$>
       PortfolioService.getPosition (AutoSellEngine.portfolioService a2)
         Examples.token
     = Some Position.holding
  /\ Position.status <$>
       SniperEngine.positions (AutoSellEngine.sniperEngine a2)
       !! Examples.token
     = Some Position.holding
  /\ Examples.order_status (Order.id Examples.take_profit_order)
       (AutoSellEngine.run a2
          [AutoSellEngine.Tick (Examples.chain 500 1) 12;
           AutoSellEngine.Settle (Examples.chain 500 1) 13 14])
     = Some Order.failed.
Proof.
  intros H a1 a2.
  destruct (failed_sale_ends_failed_and_held (H := H) (Examples.chain 200 1)
              10 11
              {| AutoSellEngine.s_order := Examples.take_profit_order;
                 AutoSellEngine.s_currentPrice := "200" |}
              {| AutoSellEngine.sniperEngine := AutoSellEngine.sniperEngine a1;
                 AutoSellEngine.priceMonitor := AutoSellEngine.priceMonitor a1;
                 AutoSellEngine.portfolioService :=
                   AutoSellEngine.portfolioService a1;
                 AutoSellEngine.isRunning := AutoSellEngine.isRunning a1;
                 AutoSellEngine.inflight := [] |}
              (PriceMonitor.marked
                 (Some (AutoSellEngine.on_triggered
                          (AutoSellEngine.portfolioService
                             Examples.bot_with_orders) 9))
                 "200" 9 Examples.take_profit_order)
              example_monitor_after_tick_wf)
    as (_ & Hfailed & _ & Hportfolio & Hengine & Hlater).
  - intros s' Hin. inversion Hin.
  - reflexivity.
  - split; [reflexivity|].
    split; [exact (f_equal (fmap Order.status) Hfailed)|].
    split; [change (AutoSellEngine.portfolioService a2)
              with (AutoSellEngine.portfolioService
                      (AutoSellEngine.settle (Examples.chain 200 1) 10 11
                         {| AutoSellEngine.s_order := Examples.take_profit_order;
                            AutoSellEngine.s_currentPrice := "200" |}
                         {| AutoSellEngine.sniperEngine :=
                              AutoSellEngine.sniperEngine a1;
                            AutoSellEngine.priceMonitor :=
                              AutoSellEngine.priceMonitor a1;
                            AutoSellEngine.portfolioService :=
                              AutoSellEngine.portfolioService a1;
                            AutoSellEngine.isRunning :=
                              AutoSellEngine.isRunning a1;
                            AutoSellEngine.inflight := [] |}));
            rewrite Hportfolio; reflexivity|].
    split; [change (AutoSellEngine.sniperEngine a2)
              with (AutoSellEngine.sniperEngine
                      (AutoSellEngine.settle (Examples.chain 200 1) 10 11
                         {| AutoSellEngine.s_order := Examples.take_profit_order;
                            AutoSellEngine.s_currentPrice := "200" |}
                         {| AutoSellEngine.sniperEngine :=
                              AutoSellEngine.sniperEngine a1;
                            AutoSellEngine.priceMonitor :=
                              AutoSellEngine.priceMonitor a1;
                            AutoSellEngine.portfolioService :=
                              AutoSellEngine.portfolioService a1;
                            AutoSellEngine.isRunning :=
                              AutoSellEngine.isRunning a1;
                            AutoSellEngine.inflight := [] |}));
            rewrite Hengine; reflexivity|].
    destruct (Hlater [AutoSellEngine.Tick (Examples.chain 500 1) 12;
                      AutoSellEngine.Settle (Examples.chain 500 1) 13 14])
      as [Hstill _].
    exact (f_equal (fmap Order.status) Hstill).
Defined.

Lemma failed_sale_is_never_retried_witness :
  let H := Examples.whole_host in
  let a1 :=
    AutoSellEngine.step Examples.bot_with_orders
      (AutoSellEngine.Tick (Examples.chain 200 1) 9) in
  let a2 :=
    AutoSellEngine.step a1 (AutoSellEngine.Settle Examples.chain_rejecting 10 11) in
  Examples.order_status (Order.id Examples.take_profit_order) a2
  = Some Order.failed
  /\ Examples.order_status (Order.id Examples.take_profit_order)
       (AutoSellEngine.run a2
          [AutoSellEngine.Tick (Examples.chain 200 1) 12;
           AutoSellEngine.Settle (Examples.chain 200 1) 13 14;
           AutoSellEngine.Tick (Examples.chain 500 1) 15])
     = Some Order.failed.
Proof.
  intros H a1 a2.
  destruct (failed_sale_is_never_retried (H := H) Examples.chain_rejecting
              10 11
              {| AutoSellEngine.s_order := Examples.take_profit_order;
                 AutoSellEngine.s_currentPrice := "200" |}
              {| AutoSellEngine.sniperEngine := AutoSellEngine.sniperEngine a1;
                 AutoSellEngine.priceMonitor := AutoSellEngine.priceMonitor a1;
                 AutoSellEngine.portfolioService :=
                   AutoSellEngine.portfolioService a1;
                 AutoSellEngine.isRunning := AutoSellEngine.isRunning a1;
                 AutoSellEngine.inflight := [] |}
              "TypeError: tokenContract.allowance is not a function"
              (PriceMonitor.marked
                 (Some (AutoSellEngine.on_triggered
                          (AutoSellEngine.portfolioService
                             Examples.bot_with_orders) 9))
                 "200" 9 Examples.take_profit_order)
              example_monitor_after_tick_wf)
    as (Hfailed & _ & _ & _ & Hlater).
  - intros s' Hin. inversion Hin.
  - reflexivity.
  - reflexivity.
  - split.
    + exact (f_equal (fmap Order.status) Hfailed).
    + destruct (Hlater [AutoSellEngine.Tick (Examples.chain 200 1) 12;
                        AutoSellEngine.Settle (Examples.chain 200 1) 13 14;
                        AutoSellEngine.Tick (Examples.chain 500 1) 15])
        as [Hstill _].
      exact (f_equal (fmap Order.status) Hstill).
Defined.

Lemma orders_need_a_portfolio_position_witness :
  let H := Examples.whole_host in
  AutoSellEngine.createLimitOrder Examples.bot_without_position 9
    Examples.token Order.take_profit "200" None
  = Throw "No position found for token"
  /\ (AutoSellEngine.createAutoLimitOrders Examples.bot_without_position 9
        Examples.position).2
     = Throw "No position found for token".
Proof.
  intros H.
  destruct (orders_need_a_portfolio_position (H := H)
              Examples.bot_without_position 9 Examples.position eq_refl)
    as (Hcreate & _ & Hauto).
  split; [apply Hcreate|exact Hauto].
Defined.

Lemma orders_of_one_token_and_kind_collide_within_a_millisecond_witness :
  exists a1 o1 a2 o2,
    AutoSellEngine.createLimitOrder Examples.bot 7 Examples.token
      Order.take_profit "200" None = Ok (a1, o1)
    /\ AutoSellEngine.createLimitOrder a1 7 Examples.token
         Order.take_profit "300" None = Ok (a2, o2)
    /\ InsertionMap.keys
         (PriceMonitor.limitOrders (AutoSellEngine.priceMonitor a2))
       = InsertionMap.keys
           (PriceMonitor.limitOrders (AutoSellEngine.priceMonitor a1)).
Proof.
  destruct (orders_of_one_token_and_kind_collide_within_a_millisecond
              Examples.bot Examples.token Examples.position
              Order.take_profit Order.take_profit 7 7 "200" "300" None None
              eq_refl)
    as (a1 & o1 & a2 & o2 & H1 & H2 & _ & Hsame & _ & Hkeys).
  exists a1, o1, a2, o2. split; [exact H1|]. split; [exact H2|].
  apply Hkeys, Hsame. split; reflexivity.
Defined.

Lemma create_then_cancel_restores_the_orders_witness :
  exists a1 o,
    AutoSellEngine.createLimitOrder Examples.bot 7 Examples.token
      Order.take_profit "200" None = Ok (a1, o)
    /\ PriceMonitor.limitOrders
         (AutoSellEngine.priceMonitor
            (AutoSellEngine.cancelLimitOrder (Order.id o) a1))
       = [].
Proof.
  destruct (create_then_cancel_restores_the_orders Examples.bot 7
              Examples.token Order.take_profit "200" None Examples.position
              eq_refl eq_refl)
    as (a1 & o & Hcreate & _ & _ & _ & Hrestored & _).
  exists a1, o. split; [exact Hcreate|exact Hrestored].
Defined.

Lemma snipe_does_not_need_the_token_metadata_witness :
  let ch := Examples.chain 1000 1 in
  let ch' :=
    {| parseUnits := parseUnits ch; formatEther := formatEther ch;
       decimals := decimals ch; getAmountsOut := getAmountsOut ch;
       estimateGas := estimateGas ch; sendTransaction := sendTransaction ch;
       waitForTransaction := waitForTransaction ch;
       allowance := allowance ch; approve := approve ch;
       tokenBalance := tokenBalance ch;
       getTokenInfo := fun _ => Throw "call revert exception" |} in
  (SniperEngine.executeSnipe ch' Examples.engine 1 2 "0xdef").1.2
  = (SniperEngine.executeSnipe ch Examples.engine 1 2 "0xdef").1.2
  /\ Snipe.success (SniperEngine.executeSnipe ch' Examples.engine 1 2 "0xdef").1.2
     = true.
Proof.
  intros ch ch'.
  destruct (snipe_does_not_need_the_token_metadata ch ch' Examples.engine 1 2
              "0xdef" eq_refl eq_refl eq_refl eq_refl eq_refl eq_refl)
    as (Hsame & _).
  split; [exact Hsame|reflexivity].
Defined.

Lemma minOut_is_between_zero_and_the_quote_witness :
  (exists m, SwapService.minOut_floored 12345 10%float = Some m
             /\ 0 <= m <= 12345)
  /\ SwapService.sellExpected (Examples.chain 12345 1) (Some "0xwallet")
       Examples.token "5" 10%float
     = Ok (1000, 12345, 11110)
  /\ 1 <= 11110 <= 12345.
Proof.
  destruct (minOut_is_between_zero_and_the_quote 10%float eq_refl eq_refl)
    as (Hbound & _ & Hsell).
  split; [|split; [reflexivity|]].
  - destruct (Hbound 12345) as (m & Hm & Hle & _); [lia|].
    exists m. split; [exact Hm|exact Hle].
  - destruct (Hsell (Examples.chain 12345 1) (Some "0xwallet") Examples.token
                "5" 1000 12345 11110 eq_refl)
      as (dec & _ & _ & _ & Hle).
    destruct Hle as [[_ Hup] Hone]; [lia|].
    split; [apply Hone; lia|exact Hup].
Defined.

Lemma slippage_that_is_no_number_stops_every_swap_witness :
  is_ok (SwapService.buyTokenWithPLS (Examples.chain 1000 1)
           {| SwapService.routerAddress := PULSEX_CONFIG.routerV2 |}
           (Some "0xwallet") 0 Examples.token "100" nan 1.2%float None)
  = false.
Proof.
  destruct (slippage_that_is_no_number_stops_every_swap nan eq_refl)
    as (Hswap & _).
  apply Hswap.
Defined.

Lemma stopListening_undoes_startListening_witness :
  MintWatcher.stopListening
    (MintWatcher.startListening Examples.provider 0 Examples.watcher None true
       None).1.1
  = Examples.watcher.
Proof.
  destruct (stopListening_undoes_startListening Examples.provider 0
              Examples.watcher None true None eq_refl)
    as (_ & Hstop & _).
  - repeat split.
  - reflexivity.
  - exact Hstop.
Defined.

Lemma history_for_one_token_registers_its_listener_twice_witness :
  let w2 :=
    (MintWatcher.startListening Examples.provider 0
       (MintWatcher.new true PUMP_TIRES_CONTRACT) (Some 5) true
       (Some Examples.token)).1.1 in
  MintWatcher.subscriptions w2 = [Examples.token; Examples.token]
  /\ (MintWatcher.live w2
        (MintWatcher.Transfer Examples.provider 0 Examples.token
           (Examples.transfer_event 2001))).2
     = [].
Proof.
  intros w2.
  destruct (history_for_one_token_registers_its_listener_twice
              Examples.provider 0
              (MintWatcher.new true PUMP_TIRES_CONTRACT) (Some 5)
              Examples.token 5 eq_refl)
    as (Htwice & _ & Hlive).
  - repeat split.
  - discriminate.
  - reflexivity.
  - split; [exact Htwice|].
    destruct (Hlive Examples.provider 0 (Examples.transfer_event 2001))
      as [Hnone _].
    fold w2 in Hnone. rewrite Hnone. reflexivity.
Defined.

Lemma one_bad_event_ends_the_replay_witness :
  let bad :=
    {| MintWatcher.ev_args := Some (Throw "invalid address", "1");
       MintWatcher.ev_blockNumber := 1500;
       MintWatcher.ev_transactionHash := "0xmint";
       MintWatcher.ev_index := 0 |} in
  let good :=
    {| MintWatcher.ev_args := Some (Ok PUMP_TIRES_CONTRACT, "1");
       MintWatcher.ev_blockNumber := 1600;
       MintWatcher.ev_transactionHash := "0xmint";
       MintWatcher.ev_index := 0 |} in
  MintWatcher.replay Examples.provider 0 Examples.token ([good] ++ bad :: [good])
  = MintWatcher.replay Examples.provider 0 Examples.token [good]
  /\ length (MintWatcher.replay Examples.provider 0 Examples.token [good])
     = 1%nat.
Proof.
  intros bad good.
  destruct (one_bad_event_ends_the_replay Examples.provider 0 Examples.token
              [good] [good] bad)
    as (_ & Hends & _).
  - constructor; [right; reflexivity|constructor].
  - split; [|reflexivity]. apply Hends; [discriminate|reflexivity].
Defined.

Lemma checkPrices_caches_the_price_of_every_monitored_token_witness :
  PriceMonitor.pu_pricePLS <$>
    PriceMonitor.getCachedPrice
      (PriceMonitor.checkPrices (H := Examples.whole_host)
         Examples.chain_without_quote None 9
         (AutoSellEngine.priceMonitor Examples.bot_with_orders)).1
      "0xABC"
  = Some "0".
Proof.
  destruct (checkPrices_caches_the_price_of_every_monitored_token
              (H := Examples.whole_host) Examples.chain_without_quote None 9
              (AutoSellEngine.priceMonitor Examples.bot_with_orders)
              example_monitor_wf)
    as (Hcached & _).
  destruct (Hcached "0xabc") as [_ Hzero]; [apply list_elem_of_here|].
  apply Hzero. reflexivity.
Defined.

Lemma formatAmount_prints_the_exact_decimal_witness :
  exists F v,
    MintsRoute.formatAmount (H := Examples.nearest_pow10) "1234500" 4
    = "123" +:+ "." +:+ F
    /\ JsBigInt.digits 10 F 0 = Some v
    /\ v * 10 ^ (4 - Z.of_nat (String.length F)) = 4500
    /\ v mod 10 <> 0.
Proof.
  destruct (formatAmount_prints_the_exact_decimal
              (H := Examples.nearest_pow10) 1234500 4)
    as [_ Hfraction]; [lia|lia|vm_compute; reflexivity|].
  destruct Hfraction as (F & v & Hout & Hv & _ & Hvalue & Hlast);
    [vm_compute; discriminate|].
  exists F, v. split; [exact Hout|]. split; [exact Hv|].
  split; [exact Hvalue|exact Hlast].
Defined.

Lemma formatAmount_shows_zero_for_what_is_no_integer_witness :
  MintsRoute.formatAmount (H := Examples.nearest_pow10) "1.5" 18 = "0".
Proof.
  apply (formatAmount_shows_zero_for_what_is_no_integer
           (H := Examples.nearest_pow10) "1" "5" "."%char 18).
  - reflexivity.
  - reflexivity.
  - reflexivity.
  - discriminate.
  - discriminate.
Defined.
